(** * Vertebrae: models, routes, parsers, property sync and controller unload

    A shallow embedding of the request engine, the route compiler and the
    parser lookup of [src/event.js] (BaseModel) and of [sync] and [unload]
    of the base controller, followed by the properties proved about them. *)

From Stdlib Require Import ZArith String Ascii List Bool Lia DecimalString.
From stdpp Require Import base option list strings gmap.

Set Warnings "-register-all".

Open Scope string_scope.
Open Scope Z_scope.

(** ** JavaScript values

    Numbers are the integer-valued ones, NaN and the two infinities;
    fractional numbers are outside this model.  [Int z] is the number value
    of the integer [z]: the double nearest to it, as for a literal.  Strings
    are sequences of 8-bit code units.  Objects are plain data objects: their
    own enumerable properties in insertion order, keys unique and none of
    them an array index; arrays and functions are not values of this model.
    The members an object or a primitive inherits from the built-in
    prototypes are the engine's, and are asked of it where the code reads a
    member under a name it does not choose itself. *)

Inductive jsnum : Type :=
  | NaN
  | PInf
  | NInf
  | Int (z : Z).

Inductive jsval : Type :=
  | JUndefined
  | JNull
  | JBool (b : bool)
  | JNum (n : jsnum)
  | JStr (s : string)
  | JObj (props : list (string * jsval)).

Definition JInt (z : Z) : jsval := JNum (Int z).

(** ToBoolean. *)
Definition truthy (v : jsval) : bool :=
  match v with
  | JUndefined | JNull => false
  | JBool b => b
  | JNum NaN => false
  | JNum (Int z) => negb (z =? 0)
  | JNum _ => true
  | JStr s => negb (String.eqb s EmptyString)
  | JObj _ => true
  end.

(** [a || b] *)
Definition js_or (a b : jsval) : jsval := if truthy a then a else b.

Definition decimal (z : Z) : string := NilZero.string_of_int (Z.to_int z).

(** The double nearest to a natural number, ties to the even significand. *)
Definition nearest_double (m : Z) : Z :=
  let e := Z.log2 m - 52 in
  if e <=? 0 then m
  else
    let q := Z.shiftr m e in
    let r := m - Z.shiftl q e in
    let half := Z.shiftl 1 (e - 1) in
    let q := if (half <? r) || ((r =? half) && Z.odd q) then q + 1 else q in
    Z.shiftl q e.

Definition digit_count (x : Z) : Z := Z.of_nat (String.length (decimal x)).

(** The multiple of a power of ten with the fewest significant digits that
    still reads back as the double [x]; of two it is the closer one, and the
    one with the even last digit when they are as close. *)
Fixpoint shortest (fuel : nat) (k n x : Z) : Z :=
  match fuel with
  | O => x
  | S fuel' =>
      let p := 10 ^ (n - k) in
      let lo := (x / p) * p in
      let hi := lo + p in
      let ok_lo := nearest_double lo =? x in
      let ok_hi := nearest_double hi =? x in
      if ok_lo && ok_hi then
        if x - lo <? hi - x then lo
        else if hi - x <? x - lo then hi
        else if Z.even (lo / p) then lo else hi
      else if ok_lo then lo
      else if ok_hi then hi
      else shortest fuel' (k + 1) n x
  end.

Fixpoint strip_zeros (fuel : nat) (c : Z) : Z :=
  match fuel with
  | O => c
  | S fuel' =>
      if (c mod 10 =? 0) && negb (c =? 0) then strip_zeros fuel' (c / 10) else c
  end.

(** The text of a double that is a positive integer: up to 2^53 every digit
    counts; beyond, the shortest digits that read back as the same double,
    followed by zeros up to 21 digits and in exponent form from 22 on. *)
Definition positive_text (x : Z) : string :=
  if x <=? 2 ^ 53 then decimal x
  else
    let n := digit_count x in
    let c := shortest (Z.to_nat n) 1 n x in
    let n := digit_count c in
    if n <=? 21 then decimal c
    else
      match decimal (strip_zeros (Z.to_nat n) c) with
      | String d EmptyString => String d ("e+" +:+ decimal (n - 1))
      | String d rest => String d ("." +:+ rest +:+ "e+" +:+ decimal (n - 1))
      | EmptyString => EmptyString
      end.

(** An integer too large for a double is an infinity. *)
Definition overflows (z : Z) : bool := 2 ^ 1024 <=? nearest_double (Z.abs z).

Definition integer_text (z : Z) : string :=
  if z =? 0 then "0"
  else if overflows z then (if z <? 0 then "-Infinity" else "Infinity")
  else if z <? 0 then "-" +:+ positive_text (nearest_double (- z))
  else positive_text (nearest_double z).

Definition num_to_string (n : jsnum) : string :=
  match n with
  | NaN => "NaN"
  | PInf => "Infinity"
  | NInf => "-Infinity"
  | Int z => integer_text z
  end.

(** ToString, as [String(v)] and string concatenation apply it. *)
Definition ToString (v : jsval) : string :=
  match v with
  | JUndefined => "undefined"
  | JNull => "null"
  | JBool true => "true"
  | JBool false => "false"
  | JNum n => num_to_string n
  | JStr s => s
  | JObj _ => "[object Object]"
  end.

(** Own-property access on plain objects, for the reads the code makes under
    names of its own choice ([data], [url], [type], [jsonBody], [fn], ...),
    none of which a built-in prototype holds: reading such a property of a
    value that is not an object, or of an object without it, yields
    undefined. *)
Fixpoint obj_lookup (k : string) (props : list (string * jsval)) : option jsval :=
  match props with
  | [] => None
  | (k', v) :: rest => if String.eqb k k' then Some v else obj_lookup k rest
  end.

Definition js_get (o : jsval) (k : string) : jsval :=
  match o with
  | JObj props => default JUndefined (obj_lookup k props)
  | _ => JUndefined
  end.

(** [o[k] = v]: an existing key keeps its place, a new key goes last. *)
Fixpoint obj_set (k : string) (v : jsval) (props : list (string * jsval))
  : list (string * jsval) :=
  match props with
  | [] => [(k, v)]
  | (k', v') :: rest =>
      if String.eqb k k' then (k, v) :: rest else (k', v') :: obj_set k v rest
  end.

(** [delete o[k]] *)
Fixpoint obj_delete (k : string) (props : list (string * jsval))
  : list (string * jsval) :=
  match props with
  | [] => []
  | (k', v') :: rest =>
      if String.eqb k k' then obj_delete k rest else (k', v') :: obj_delete k rest
  end.

Definition js_delete (o : jsval) (k : string) : jsval :=
  match o with
  | JObj props => JObj (obj_delete k props)
  | _ => o
  end.

(** [o[k] = v] on a value; assigning to a primitive has no effect. *)
Definition js_put (o : jsval) (k : string) (v : jsval) : jsval :=
  match o with
  | JObj props => JObj (obj_set k v props)
  | _ => o
  end.

Definition is_undefined (v : jsval) : bool :=
  match v with JUndefined => true | _ => false end.

(** Underscore's [_.defaults(obj, src)]: every key of [src] that is undefined
    on [obj] is filled in, one key at a time. *)
Definition fill (acc : list (string * jsval)) (kv : string * jsval)
  : list (string * jsval) :=
  if is_undefined (default JUndefined (obj_lookup (fst kv) acc))
  then obj_set (fst kv) (snd kv) acc else acc.

Definition defaults_props (obj src : list (string * jsval)) : list (string * jsval) :=
  fold_left fill src obj.

Definition _defaults (obj : jsval) (src : list (string * jsval)) : jsval :=
  match obj with
  | JObj props => JObj (defaults_props props src)
  | _ => obj
  end.

(** ** Character classes and string helpers *)

Definition code (c : ascii) : nat := nat_of_ascii c.

(** The class [\s] on 8-bit code units. *)
Definition is_space (c : ascii) : bool :=
  let n := code c in
  ((9 <=? n) && (n <=? 13) || (n =? 32) || (n =? 160))%nat.

(** The class [\w]. *)
Definition is_word (c : ascii) : bool :=
  let n := code c in
  ((48 <=? n) && (n <=? 57) || (65 <=? n) && (n <=? 90)
   || (97 <=? n) && (n <=? 122) || (n =? 95))%nat.

(** Lower case of one code unit: the letters A to Z and the upper-case
    letters of the range 192 to 222 (215 is the multiplication sign). *)
Definition lower_char (c : ascii) : ascii :=
  let n := code c in
  if ((65 <=? n) && (n <=? 90)
      || (192 <=? n) && (n <=? 222) && negb (n =? 215))%nat
  then ascii_of_nat (n + 32) else c.

Definition chars (s : string) : list ascii := list_ascii_of_string s.
Definition str (l : list ascii) : string := string_of_list_ascii l.

Definition toLowerCase (s : string) : string := str (map lower_char (chars s)).

Definition nospace (l : list ascii) : bool :=
  forallb (fun c => negb (is_space c)) l.

(** [s.trim()] *)
Fixpoint drop_space (l : list ascii) : list ascii :=
  match l with
  | c :: rest => if is_space c then drop_space rest else l
  | [] => []
  end.

Definition trim_chars (l : list ascii) : list ascii :=
  rev (drop_space (rev (drop_space l))).

Definition trim (s : string) : string := str (trim_chars (chars s)).

(** [s.split(/\s+/)] on characters: [cur] is the piece being read, reversed. *)
Fixpoint split_go (cur : list ascii) (l : list ascii) : list (list ascii) :=
  match l with
  | [] => [rev cur]
  | c :: rest =>
      if is_space c then rev cur :: split_skip rest
      else split_go (c :: cur) rest
  end
with split_skip (l : list ascii) : list (list ascii) :=
  match l with
  | [] => [[]]
  | c :: rest =>
      if is_space c then split_skip rest else split_go [c] rest
  end.

Definition split_ws (s : string) : list string := map str (split_go [] (chars s)).

(** [sections.slice(1).join('')] *)
Definition join_empty (l : list string) : string :=
  fold_right String.append EmptyString l.

(** ** JSON.stringify on plain data *)

Definition hex_digit (n : nat) : ascii :=
  nth n (chars "0123456789abcdef") "0"%char.

Definition dquote : ascii := ascii_of_nat 34.

(** One character of a quoted JSON string. *)
Definition json_escape (c : ascii) : list ascii :=
  let n := code c in
  if (n =? 34)%nat then chars "\" ++ [dquote]
  else if (n =? 92)%nat then chars "\\"
  else if (n =? 8)%nat then chars "\b"
  else if (n =? 12)%nat then chars "\f"
  else if (n =? 10)%nat then chars "\n"
  else if (n =? 13)%nat then chars "\r"
  else if (n =? 9)%nat then chars "\t"
  else if (n <? 32)%nat
       then chars "\u00" ++ [hex_digit (n / 16); hex_digit (n mod 16)]
  else [c].

Definition json_quote (s : string) : string :=
  str ([dquote] ++ concat (map json_escape (chars s)) ++ [dquote]).

Definition join_comma (l : list string) : string :=
  match l with
  | [] => EmptyString
  | x :: rest => fold_left (fun acc y => acc +:+ "," +:+ y) rest x
  end.

(** [JSON.stringify(v)]; [None] is the undefined result.  A property whose
    value has no JSON form is left out of its object. *)
Fixpoint JSON_stringify (v : jsval) : option string :=
  match v with
  | JUndefined => None
  | JNull => Some "null"
  | JBool true => Some "true"
  | JBool false => Some "false"
  | JNum (Int z) => Some (if overflows z then "null" else integer_text z)
  | JNum _ => Some "null"
  | JStr s => Some (json_quote s)
  | JObj props =>
      let fix members (ps : list (string * jsval)) : list string :=
        match ps with
        | [] => []
        | (k, x) :: rest =>
            match JSON_stringify x with
            | Some t => (json_quote k +:+ ":" +:+ t) :: members rest
            | None => members rest
            end
        end in
      Some ("{" +:+ join_comma (members props) +:+ "}")
  end.

(** The text [{"a":1}]. *)
Definition json_a1 : string :=
  str (chars "{" ++ [dquote] ++ chars "a" ++ [dquote] ++ chars ":1}").

Definition stringify_val (v : jsval) : jsval :=
  match JSON_stringify v with
  | Some s => JStr s
  | None => JUndefined
  end.

(** ** Collaborators that are not part of the sources

    [StringUtils.camelCase] and [StringUtils.camelCaseFromNamespace] come
    from the project's string utilities, and the conversion of a string to a
    number is the engine's; the model takes the three as given.

    So are the members of the built-in prototypes.  [inherited data name] is
    what [data[name]] reads when [name] is no own property of the plain
    object [data], or when [data] is a primitive: a member found on the
    prototype chain (constructor, toString, ...), the length or a character
    of a string.  Such a member is often a function; the code only tests it
    and prints it, so it is given as the text [String] makes of it when it is
    truthy, and as [None] when it is falsy or not there. *)
Class Host := {
  camelCase : jsval -> string;
  camelCaseFromNamespace : jsval -> string;
  StringToNumber : string -> jsnum;
  inherited : jsval -> string -> option string
}.

(** [Number(v)] *)
Definition ToNumber `{Host} (v : jsval) : jsnum :=
  match v with
  | JUndefined => NaN
  | JNull => Int 0
  | JBool true => Int 1
  | JBool false => Int 0
  | JNum n => n
  | JStr s => StringToNumber s
  | JObj _ => NaN
  end.

(** ** The model class (static side of BaseModel and of its subclasses) *)

(** A settled promise. *)
Inductive Promise : Type :=
  | Resolved (v : jsval)
  | Rejected (v : jsval).

(** What a handler of the class returns: a plain value, or a promise, which
    the promise it is returned into adopts.  A handler that throws is, to
    the [then] it is called in, one that returns a promise rejected with what
    it threw. *)
Inductive Returned : Type :=
  | Value (v : jsval)
  | Thenable (p : Promise).

(** A handler of a payload: a parser callback, called with the payload and
    the params of the request. *)
Definition Modelizer : Type := jsval -> jsval -> Returned.

(** A compiled parser: [uri] is the [test] of its regular expression. *)
Record ParserEntry := {
  uri : string -> bool;
  callback : Modelizer;
  type : jsval
}.

(** A declared parser: the route key and the handler it maps to (a function,
    or the static method that the name it gives stands for). *)
Definition ParserDecl : Type := string * Modelizer.

Record ModelClass := {
  parsers : option (list ParserDecl);
  timeout : jsval;
  rootURI : jsval;
  rootUrl : jsval;
  _parsers : list ParserEntry;
  defaultHandler : jsval -> Returned;
  isValidResponse : jsval -> jsval -> jsval -> jsval;
  getResponseDefaults : option (list (string * jsval));
  getResponseSuccessPayload : jsval -> Returned;
  getResponseFailPayload : jsval -> jsval
}.

Definition BaseModel : ModelClass := {|
  parsers := Some [];
  timeout := JInt 30000;
  rootURI := JStr "/";
  rootUrl := JUndefined;
  _parsers := [];
  defaultHandler := fun data => Value data;
  isValidResponse := fun resp _ _ => JBool (truthy resp);
  getResponseDefaults := None;
  getResponseSuccessPayload := fun resp => Value resp;
  getResponseFailPayload := fun resp => resp
|}.

Definition getAjaxTimeout `{Host} (cls : ModelClass) : jsval :=
  js_or (JNum (ToNumber (timeout cls))) (JInt 500).

Definition strict_eq_str (v : jsval) (s : string) : bool :=
  match v with JStr t => String.eqb t s | _ => false end.

(** [getParser(uri, type)]: [None] is the undefined result of a scan that
    finds nothing. *)
Fixpoint scan_parsers (parsers : list ParserEntry) (u : string) (ty : string)
  : option Modelizer :=
  match parsers with
  | [] => None
  | parser :: rest =>
      if truthy (type parser) && negb (strict_eq_str (type parser) ty)
      then scan_parsers rest u ty
      else if uri parser u then Some (callback parser)
      else scan_parsers rest u ty
  end.

(** An entry is passed over when its verb is set and differs from the
    requested one. *)
Definition verb_allows (parser : ParserEntry) (ty : string) : bool :=
  negb (truthy (type parser) && negb (strict_eq_str (type parser) ty)).

Definition getParser (cls : ModelClass) (u : string) (ty : jsval)
  : option Modelizer :=
  scan_parsers (_parsers cls) u (toLowerCase (ToString ty)).

(** What the [then] a callback returns into makes of its result: a plain
    value resolves it, a promise is adopted. *)
Definition settle (r : Returned) : Promise :=
  match r with
  | Value v => Resolved v
  | Thenable p => p
  end.

(** [processResponse(resp, textStatus, xhr)], as the [then] it returns into
    sees its result: [Rejected] is the rejected promise, [Resolved] the
    success payload, returned as it is or through a promise.  The response
    defaults of a class are an object or null. *)
Definition processResponse (cls : ModelClass) (resp textStatus xhr : jsval) : Promise :=
  let resp :=
    match getResponseDefaults cls with
    | Some d => _defaults (js_or resp (JObj [])) d
    | None => resp
    end in
  if negb (truthy (isValidResponse cls (js_or resp (JObj [])) textStatus xhr))
  then Rejected (getResponseFailPayload cls (js_or resp (JObj [])))
  else settle (getResponseSuccessPayload cls (js_or resp (JObj []))).

(** The options handed to the transport by [request(uri, params, options)]. *)
Definition request_options `{Host} (cls : ModelClass) (u : string)
    (params options : jsval) : jsval :=
  let options := js_or options (JObj []) in
  let params := js_or params (JObj []) in
  let url := JStr (ToString (js_or (rootUrl cls) (rootURI cls)) +:+ u) in
  let options := _defaults options [("data", params); ("url", url)] in
  let options := js_put options "timeout" (getAjaxTimeout cls) in
  if truthy (js_get options "jsonBody")
  then
    let options := js_put options "contentType" (JStr "application/json") in
    let options := js_put options "data" (stringify_val (js_get options "data")) in
    js_put options "processData" (JBool false)
  else options.

Definition arg (args : list jsval) (n : nat) : jsval := nth n args JUndefined.

(** [that.getParser(uri, options.type) || that.defaultHandler] *)
Definition modelizer (cls : ModelClass) (u : string) (ty : jsval) : Modelizer :=
  match getParser cls u ty with
  | Some f => f
  | None => fun data _ => defaultHandler cls data
  end.

(** [that.resolve(result || {})]: a promise is truthy, and [Promise.resolve]
    adopts it. *)
Definition adopt (r : Returned) : Promise :=
  match r with
  | Value v => Resolved (js_or v (JObj []))
  | Thenable p => p
  end.

(** [request(uri, params, options)].  The transport [ajax] answers the
    options with the arguments its promise hands to the first [then]
    callback, or with a rejection reason. *)
Definition request `{Host} (cls : ModelClass) (ajax : jsval -> list jsval + jsval)
    (u : string) (params options : jsval) : Promise :=
  let options := request_options cls u params options in
  let params := js_or params (JObj []) in
  match ajax options with
  | inr reason => Rejected reason
  | inl args =>
      match processResponse cls (arg args 0) (arg args 1) (arg args 2) with
      | Rejected payload => Rejected payload
      | Resolved payload =>
          adopt (modelizer cls u (js_get options "type") payload params)
      end
  end.

(** A transport that rejects with the options it is handed: the promise of a
    request made through it shows what the transport receives. *)
Definition echo : jsval -> list jsval + jsval := fun options => inr options.

Definition post_defaults : list (string * jsval) := [("type", JStr "POST")].
Definition get_defaults : list (string * jsval) := [("type", JStr "GET")].
Definition put_defaults : list (string * jsval) :=
  [("type", JStr "PUT"); ("jsonBody", JBool true)].
Definition del_defaults : list (string * jsval) := [("type", JStr "DELETE")].

Definition post `{Host} cls ajax (u : string) (params options : jsval) : Promise :=
  request cls ajax u params (_defaults (js_or options (JObj [])) post_defaults).

Definition get `{Host} cls ajax (u : string) (params options : jsval) : Promise :=
  request cls ajax u params (_defaults (js_or options (JObj [])) get_defaults).

Definition put `{Host} cls ajax (u : string) (params options : jsval) : Promise :=
  request cls ajax u params (_defaults (js_or options (JObj [])) put_defaults).

Definition del `{Host} cls ajax (u : string) (params options : jsval) : Promise :=
  request cls ajax u params (_defaults (js_or options (JObj [])) del_defaults).

(** The argument of a function whose parameter is an options object: the
    object, or nothing. *)
Definition options_of (o : option (list (string * jsval))) : jsval :=
  match o with
  | Some props => JObj props
  | None => JUndefined
  end.

(** ** The route compiler *)

Inductive result (A : Type) : Type :=
  | Ok (a : A)
  | Throw (message : string)
  | OutOfFuel.
Arguments Ok {A} a.
Arguments Throw {A} message.
Arguments OutOfFuel {A}.

#[global] Instance result_bind : MBind result := fun A B f r =>
  match r with
  | Ok a => f a
  | Throw m => Throw m
  | OutOfFuel => OutOfFuel
  end.

(** A generated request method: the closure of [routes[fn]] over [method],
    [uri], [options] and [route]. *)
Record RouteFn := {
  r_method : string;
  r_uri : string;
  r_options : jsval;
  r_route : string
}.

Definition crud : list string := ["POST"; "GET"; "PUT"; "DEL"].

Definition crudMethods (m : string) : string :=
  if String.eqb m "POST" then "requestCreate"
  else if String.eqb m "GET" then "requestOne"
  else if String.eqb m "PUT" then "requestUpdate"
  else if String.eqb m "DEL" then "requestDelete"
  else "undefined".

Definition crud_suffix (m : string) : string :=
  if String.eqb m "GET" then "/:$0"
  else if String.eqb m "PUT" || String.eqb m "DEL" then "/:id"
  else EmptyString.

Definition sections_of (route : string) : list string := split_ws (trim route).

(** [String(sections[0]).trim().toLowerCase()] and
    [sections.slice(1).join('')] *)
Definition route_method (route : string) : string :=
  toLowerCase (trim (ToString (default JUndefined (JStr <$> head (sections_of route))))).

Definition route_path (route : string) : string :=
  join_empty (tail (sections_of route)).

(** [createMethod(options, route)] acting on the [routes] table.  The CRUD
    case calls [createMethod] again on the four expanded routes; [fuel]
    bounds that nesting. *)
Fixpoint createMethod `{Host} (fuel : nat) (options : jsval) (route : string)
    (routes : gmap string RouteFn) : result (gmap string RouteFn) :=
  match fuel with
  | O => OutOfFuel
  | S fuel' =>
      let method := route_method route in
      let u := route_path route in
      fo ← match options with
           | JStr _ => Ok (options, JNull)
           | JObj _ => Ok (js_get options "fn", options)
           | _ => Throw "The value of the model route mapping must be a string or an object."
           end;
      let fn := fst fo in
      let options := snd fo in
      if String.eqb method "crud" then
        fold_left
          (fun acc m =>
             routes ← acc;
             createMethod fuel'
               (JStr (crudMethods m +:+ camelCase fn))
               (m +:+ " " +:+ u +:+ crud_suffix m) routes)
          crud (Ok routes)
      else
        let method := if String.eqb method "delete" then "del" else method in
        Ok (<[ToString fn := {| r_method := method; r_uri := u;
                                r_options := options; r_route := route |}]> routes)
  end.

(** The method a plain route key generates, and the four a CRUD key adds to
    the table. *)
Definition generated (method u route : string) : RouteFn :=
  {| r_method := method; r_uri := u; r_options := JNull; r_route := route |}.

Definition crud_expansion (u name : string) (routes : gmap string RouteFn)
  : gmap string RouteFn :=
  <["requestDelete" +:+ name := generated "del" (u +:+ "/:id") ("DEL " +:+ u +:+ "/:id")]>
  (<["requestUpdate" +:+ name := generated "put" (u +:+ "/:id") ("PUT " +:+ u +:+ "/:id")]>
  (<["requestOne" +:+ name := generated "get" (u +:+ "/:$0") ("GET " +:+ u +:+ "/:$0")]>
  (<["requestCreate" +:+ name := generated "post" u ("POST " +:+ u)]> routes))).

(** The name a route value gives: the string itself, or the [fn] of an
    object. *)
Definition mapped_name (options : jsval) : jsval :=
  match options with
  | JObj _ => js_get options "fn"
  | _ => options
  end.

Definition string_or_object (options : jsval) : bool :=
  match options with
  | JStr _ | JObj _ => true
  | _ => false
  end.

(** [_.each(map, createMethod)] *)
Definition createModelRequestMethods `{Host} (fuel : nat)
    (map : list (string * jsval)) : result (gmap string RouteFn) :=
  fold_left
    (fun acc entry => routes ← acc; createMethod fuel (snd entry) (fst entry) routes)
    map (Ok ∅).

(** *** Calling a generated request method *)

(** The matches of [/:[\$]?\w+/g] in a template.  [Match name] carries the
    matched text without its colon. *)
Inductive piece : Type :=
  | Lit (c : ascii)
  | Match (name : list ascii).

Fixpoint word_prefix (l : list ascii) : list ascii :=
  match l with
  | c :: rest => if is_word c then c :: word_prefix rest else []
  | [] => []
  end.

Definition colon : ascii := ascii_of_nat 58.
Definition dollar : ascii := ascii_of_nat 36.

(** The text matched after a colon, if the pattern matches there. *)
Definition match_at (rest : list ascii) : option (list ascii) :=
  match rest with
  | d :: rest' =>
      if Ascii.eqb d dollar then
        match word_prefix rest' with
        | [] => None
        | w => Some (d :: w)
        end
      else
        match word_prefix rest with
        | [] => None
        | w => Some w
        end
  | [] => None
  end.

(** Leftmost matches, left to right; [skip] counts the characters still
    covered by the match in progress. *)
Fixpoint scan (skip : nat) (l : list ascii) : list piece :=
  match l with
  | [] => []
  | c :: rest =>
      match skip with
      | S k => scan k rest
      | O =>
          if Ascii.eqb c colon then
            match match_at rest with
            | Some name => Match name :: scan (length name) rest
            | None => Lit c :: scan 0 rest
            end
          else Lit c :: scan 0 rest
      end
  end.

Definition placeholders (template : string) : list piece := scan 0 (chars template).

(** What the replace callback has accumulated. *)
Record rstate := {
  counter : nat;
  toDelete : list string;
  replaced : string
}.

Definition is_positional (name : list ascii) : bool :=
  match name with
  | c :: _ => Ascii.eqb c dollar
  | [] => false
  end.

Definition missing_param (route name : string) : string :=
  "The route " +:+ route +:+ " must include " +:+ name +:+ " in your params".

(** The member [data[name]] as the callback tests and prints it: its text
    when it is truthy.  An own property hides what is inherited under its
    name. *)
Definition member_text `{Host} (data : jsval) (name : string) : option string :=
  match data with
  | JObj props =>
      match obj_lookup name props with
      | Some v => if truthy v then Some (ToString v) else None
      | None => inherited data name
      end
  | _ => inherited data name
  end.

(** [data && data[name]] *)
Definition member_read `{Host} (data : jsval) (name : string) : option string :=
  if truthy data then member_text data name else None.

Definition replace_one `{Host} (route : string) (args : list jsval) (data : jsval)
    (st : rstate) (p : piece) : result rstate :=
  match p with
  | Lit c =>
      Ok {| counter := counter st; toDelete := toDelete st;
            replaced := replaced st +:+ String c EmptyString |}
  | Match name =>
      if is_positional name then
        let value := arg args (counter st) in
        Ok {| counter := S (counter st); toDelete := toDelete st;
              replaced := replaced st +:+ ToString value |}
      else
        match member_read data (str name) with
        | Some value =>
            Ok {| counter := counter st; toDelete := toDelete st ++ [str name];
                  replaced := replaced st +:+ value |}
        | None => Throw (missing_param route (str name))
        end
  end.

Fixpoint replace_all `{Host} (route : string) (args : list jsval) (data : jsval)
    (ps : list piece) (st : rstate) : result rstate :=
  match ps with
  | [] => Ok st
  | p :: rest =>
      st' ← replace_one route args data st p;
      replace_all route args data rest st'
  end.

(** The call [this[method](replacedUri, data, opts)] a generated method ends in. *)
Record Call := {
  c_method : string;
  c_uri : string;
  c_data : jsval;
  c_opts : jsval
}.

(** The options of a call: the caller's, with the static options of the
    route as defaults. *)
Definition merged_options (r : RouteFn) (opts : jsval) : jsval :=
  if truthy (r_options r)
  then match r_options r with
       | JObj o => _defaults opts o
       | _ => opts
       end
  else opts.

(** [routes[fn](...args)] *)
Definition invoke `{Host} (r : RouteFn) (args : list jsval) : result Call :=
  let data := arg args 0 in
  st ← replace_all (r_route r) args data (placeholders (r_uri r))
         {| counter := 0; toDelete := []; replaced := EmptyString |};
  let data := js_or (arg args (counter st)) (JObj []) in
  let opts := js_or (arg args (S (counter st))) (JObj []) in
  let data := fold_left js_delete (toDelete st) data in
  let opts := merged_options r opts in
  Ok {| c_method := r_method r; c_uri := replaced st; c_data := data; c_opts := opts |}.

(** [this[method](replacedUri, data, opts)] for the verb shorthands; any
    other member name is not one of them. *)
Definition dispatch `{Host} (cls : ModelClass) (ajax : jsval -> list jsval + jsval)
    (c : Call) : option Promise :=
  if String.eqb (c_method c) "get" then Some (get cls ajax (c_uri c) (c_data c) (c_opts c))
  else if String.eqb (c_method c) "post" then Some (post cls ajax (c_uri c) (c_data c) (c_opts c))
  else if String.eqb (c_method c) "put" then Some (put cls ajax (c_uri c) (c_data c) (c_opts c))
  else if String.eqb (c_method c) "del" then Some (del cls ajax (c_uri c) (c_data c) (c_opts c))
  else None.

(** *** What a call is expected to do, stated without the callback's state *)

(** The named placeholders of a template, in order, and the number of
    positional ones. *)
Fixpoint named (ps : list piece) : list string :=
  match ps with
  | [] => []
  | Lit _ :: rest => named rest
  | Match name :: rest =>
      if is_positional name then named rest else str name :: named rest
  end.

Fixpoint positional (ps : list piece) : nat :=
  match ps with
  | [] => O
  | Lit _ :: rest => positional rest
  | Match name :: rest =>
      if is_positional name then S (positional rest) else positional rest
  end.

(** The template with every placeholder replaced: positional ones by the
    arguments from index [i] on, named ones by the members of [data]. *)
Fixpoint substitute `{Host} (args : list jsval) (data : jsval) (ps : list piece)
    (i : nat) : string :=
  match ps with
  | [] => EmptyString
  | Lit c :: rest => String c (substitute args data rest i)
  | Match name :: rest =>
      if is_positional name
      then ToString (arg args i) +:+ substitute args data rest (S i)
      else default EmptyString (member_read data (str name))
           +:+ substitute args data rest i
  end.

(** The first named placeholder under which [data] has no truthy member. *)
Definition no_member `{Host} (data : jsval) (name : string) : bool :=
  match member_read data name with
  | Some _ => false
  | None => true
  end.

Definition first_missing `{Host} (data : jsval) (names : list string) : option string :=
  List.find (no_member data) names.

(** ** Parser declarations and class extension *)

Definition hash : ascii := ascii_of_nat 35.

(** [l.indexOf(c)], counted from [i]; -1 when [c] does not occur. *)
Fixpoint index_from (c : ascii) (l : list ascii) (i : Z) : Z :=
  match l with
  | [] => -1
  | d :: rest => if Ascii.eqb d c then i else index_from c rest (i + 1)
  end.

(** [l.slice(a, b)] and [l.slice(a)] for indices that are not negative. *)
Definition slice2 (l : list ascii) (a b : Z) : list ascii :=
  take (Z.to_nat (b - a)) (drop (Z.to_nat a) l).
Definition slice1 (l : list ascii) (a : Z) : list ascii := drop (Z.to_nat a) l.

(** The verb and the path of one [parsers] key, before the path is turned
    into a regular expression. *)
Definition parser_key (route : string) : jsval * string :=
  let sections := split_ws route in
  let hasMethod := (1 <? length sections)%nat in
  let ty :=
    if hasMethod
    then JStr (toLowerCase (trim (ToString (default JUndefined (JStr <$> head sections)))))
    else JNull in
  let route := if hasMethod then join_empty (tail sections) else join_empty sections in
  match chars route with
  | c :: rest =>
      if Ascii.eqb c hash then
        let lastHashIndex := index_from hash rest 0 + 1 in
        (JStr (toLowerCase (str (slice2 (chars route) 1 lastHashIndex))),
         str (slice1 (chars route) (lastHashIndex + 1)))
      else (ty, route)
  | [] => (ty, route)
  end.

(** [parseParsers(stat)].  [regexp path] stands for the compiled pattern of a
    path: the test of [new RegExp('^' + escaped + '$')]. *)
Definition parseParsers (regexp : string -> string -> bool)
    (decls : list ParserDecl) : list ParserEntry :=
  map (fun d =>
         let k := parser_key (fst d) in
         {| uri := regexp (snd k); callback := snd d; type := fst k |})
      decls.

Definition with_parsers (cls : ModelClass) (decls : list ParserDecl)
    (compiled : list ParserEntry) : ModelClass :=
  {| parsers := Some decls;
     timeout := timeout cls;
     rootURI := rootURI cls;
     rootUrl := rootUrl cls;
     _parsers := compiled;
     defaultHandler := defaultHandler cls;
     isValidResponse := isValidResponse cls;
     getResponseDefaults := getResponseDefaults cls;
     getResponseSuccessPayload := getResponseSuccessPayload cls;
     getResponseFailPayload := getResponseFailPayload cls |}.

(** The parser part of [BaseModel.extend(proto, stat)]: [stat_parsers] is
    [stat.parsers] when the subclass declares one.  Static members the
    subclass does not set are those of the parent. *)
Definition extend (regexp : string -> string -> bool) (this : ModelClass)
    (stat_parsers : option (list ParserDecl)) : ModelClass :=
  match stat_parsers with
  | Some decls =>
      match parsers this with
      | Some _ => with_parsers this decls (parseParsers regexp decls ++ _parsers this)
      | None => with_parsers this decls (_parsers this)
      end
  | None => this
  end.



(** A class whose default handler answers every payload with a promise
    resolved with 0. *)
Definition example_promising_class : ModelClass := {|
  parsers := Some [];
  timeout := JInt 30000;
  rootURI := JStr "/";
  rootUrl := JUndefined;
  _parsers := [];
  defaultHandler := fun _ => Thenable (Resolved (JInt 0));
  isValidResponse := fun resp _ _ => JBool (truthy resp);
  getResponseDefaults := None;
  getResponseSuccessPayload := fun resp => Value resp;
  getResponseFailPayload := fun resp => resp
|}.

(** ** Property synchronisation: [sync] of the base controller *)

(** What [sync] needs to know of the controller: which member names hold a
    truthy value, and which hold a function. *)
Record Controller := {
  member_truthy : string -> bool;
  member_is_function : string -> bool
}.

Inductive filter_option : Type :=
  | FilterFalsy
  | FilterName (name : string)
  | FilterFunction
  | FilterOther.

Inductive fn_option : Type :=
  | FnUndefined
  | FnFunction
  | FnOther.

(** The options object of [sync]; a field that is not given is undefined.
    The options [accessor], [target], [view] and [context] choose which object
    is read and watched, which view is asked and what [this] is in the
    callback; the model has one watched property and one view, and leaves
    them out. *)
Record SyncOptions := {
  o_trigger : jsval;
  o_triggerView : jsval;
  o_targetHandler : jsval;
  o_viewHandler : jsval;
  o_filter : filter_option;
  o_fn : fn_option
}.

Definition no_options : SyncOptions := {|
  o_trigger := JUndefined;
  o_triggerView := JUndefined;
  o_targetHandler := JUndefined;
  o_viewHandler := JUndefined;
  o_filter := FilterFalsy;
  o_fn := FnUndefined
|}.

(** The second argument of [sync]: an options object, nothing, or a callback. *)
Inductive sync_argument : Type :=
  | SyncOptionsArg (o : SyncOptions)
  | SyncNothing
  | SyncCallback.

Definition period : ascii := ascii_of_nat 46.

(** [String(property).split('.').slice(-1).join('')] *)
Fixpoint last_section (cur : list ascii) (l : list ascii) : list ascii :=
  match l with
  | [] => rev cur
  | c :: rest =>
      if Ascii.eqb c period then last_section [] rest
      else last_section (c :: cur) rest
  end.

Definition propertyName (property : string) : string :=
  str (last_section [] (chars property)).

Definition or_default (v d : jsval) : jsval :=
  if is_undefined v then d else v.

Definition strict_true (v : jsval) : bool :=
  match v with JBool true => true | _ => false end.

(** The binding [sync] sets up, once the options have their defaults. *)
Record SyncConf := {
  fnController : string;
  fnView : string;
  customFilter : bool;
  fn : bool;
  triggerView : bool;
  trigger : bool
}.

Definition sync_conf `{Host} (this : Controller) (property : string)
    (options : sync_argument) (fn_given : bool) : SyncConf :=
  let fn_given := match options with SyncCallback => true | _ => fn_given end in
  let options :=
    match options with
    | SyncCallback =>
        {| o_trigger := JBool true; o_triggerView := JUndefined;
           o_targetHandler := JNull; o_viewHandler := JNull;
           o_filter := FilterFalsy; o_fn := FnUndefined |}
    | SyncOptionsArg o => o
    | SyncNothing => no_options
    end in
  let targetHandler :=
    or_default (o_targetHandler options) (JStr (propertyName property +:+ "DidChange")) in
  let viewHandler :=
    or_default (o_viewHandler options)
      (JStr ("refresh" +:+ camelCaseFromNamespace (JStr property) +:+ "PropertyOnView")) in
  {| fnController := ToString targetHandler;
     fnView := ToString viewHandler;
     customFilter :=
       match o_filter options with
       | FilterName name => negb (String.eqb name EmptyString) && member_is_function this name
       | FilterFunction => true
       | _ => false
       end;
     fn := match o_fn options with
           | FnUndefined => fn_given
           | FnFunction => true
           | FnOther => false
           end;
     triggerView := strict_true (or_default (o_triggerView options) (JBool true));
     trigger := strict_true (or_default (o_trigger options) (JBool false)) |}.

Inductive HandlerCall : Type :=
  | CallController (name : string) (current previous : jsval)
  | CallFn (current previous : jsval)
  | CallView (name : string) (current previous : jsval).

(** The state a binding closes over, with the watched property, the view's
    availability, the one-shot listeners this binding has on the view's
    change of availability (each with the [prev] it captured, oldest first)
    and the handler calls made so far. *)
Record Binding := {
  value : jsval;
  previousValue : jsval;
  hasListened : bool;
  listeners : list jsval;
  available : bool;
  calls : list HandlerCall
}.

Definition log (c : HandlerCall) (s : Binding) : Binding :=
  {| value := value s; previousValue := previousValue s;
     hasListened := hasListened s; listeners := listeners s;
     available := available s; calls := calls s ++ [c] |}.

Definition getter (s : Binding) : jsval := value s.

Definition updateOnAvaible (prev : jsval) (s : Binding) : Binding :=
  if hasListened s then s
  else {| value := value s; previousValue := previousValue s;
          hasListened := true; listeners := listeners s ++ [prev];
          available := available s; calls := calls s |}.

Definition updateView (this : Controller) (conf : SyncConf) (prev : jsval)
    (s : Binding) : Binding :=
  if member_truthy this (fnView conf) then
    if available s then log (CallView (fnView conf) (getter s) prev) s
    else updateOnAvaible prev s
  else s.

(** The listener on [change:<property>]; [pass] is what a custom filter
    answers this time (the default filter always passes). *)
Definition on_change (this : Controller) (conf : SyncConf) (pass : bool)
    (s : Binding) : Binding :=
  let currentValue := getter s in
  if negb (customFilter conf) || pass then
    let s := if member_truthy this (fnController conf)
             then log (CallController (fnController conf) currentValue (previousValue s)) s
             else s in
    let s := if fn conf then log (CallFn currentValue (previousValue s)) s else s in
    let s := updateView this conf (previousValue s) s in
    {| value := value s; previousValue := currentValue;
       hasListened := hasListened s; listeners := listeners s;
       available := available s; calls := calls s |}
  else s.

(** The one-shot listener registered by [updateOnAvaible]. *)
Definition on_available (this : Controller) (conf : SyncConf) (s : Binding)
    (prev : jsval) : Binding :=
  updateView this conf prev
    {| value := value s; previousValue := previousValue s;
       hasListened := false; listeners := listeners s;
       available := available s; calls := calls s |}.

(** The state [sync] leaves behind, for a property holding [v0] and a view
    whose availability is [a0]; [pass] answers a custom filter at bind time
    and [pass'] in the change notification that [trigger] fires. *)
Definition sync (this : Controller) (conf : SyncConf) (v0 : jsval) (a0 : bool)
    (pass pass' : bool) : Binding :=
  let s := {| value := v0; previousValue := JUndefined; hasListened := false;
              listeners := []; available := a0; calls := [] |} in
  let s := if triggerView conf && (negb (customFilter conf) || pass)
           then updateView this conf JUndefined s else s in
  let s := if trigger conf then on_change this conf pass' s else s in
  {| value := value s; previousValue := getter s;
     hasListened := hasListened s; listeners := listeners s;
     available := available s; calls := calls s |}.

(** What can happen to a binding afterwards: the watched property is set
    and notifies its change, or the view's [available] becomes [b] and the
    view notifies [change:available]. *)
Inductive Event : Type :=
  | Change (v : jsval) (pass : bool)
  | ViewAvailable (b : bool).

Definition step (this : Controller) (conf : SyncConf) (s : Binding) (e : Event)
  : Binding :=
  match e with
  | Change v pass =>
      on_change this conf pass
        {| value := v; previousValue := previousValue s;
           hasListened := hasListened s; listeners := listeners s;
           available := available s; calls := calls s |}
  | ViewAvailable b =>
      fold_left (on_available this conf) (listeners s)
        {| value := value s; previousValue := previousValue s;
           hasListened := hasListened s; listeners := [];
           available := b; calls := calls s |}
  end.

Definition run (this : Controller) (conf : SyncConf) (evs : list Event)
    (s : Binding) : Binding :=
  fold_left (step this conf) evs s.

Definition is_view_call (c : HandlerCall) : bool :=
  match c with CallView _ _ _ => true | _ => false end.

Definition view_calls (s : Binding) : list HandlerCall :=
  List.filter is_view_call (calls s).

Definition is_change (e : Event) : bool :=
  match e with Change _ _ => true | ViewAvailable _ => false end.

(** One push is waiting: the one-shot listener that captured [p]. *)
Definition pending (this : Controller) (conf : SyncConf) (p : jsval)
    (s : Binding) : Prop :=
  listeners s = [p] /\ hasListened s = true /\ available s = false
  /\ member_truthy this (fnView conf) = true.

Definition idle (s : Binding) : Prop :=
  listeners s = [] /\ hasListened s = false.

(** ** Controller unload and destroy *)

Inductive Effect : Type :=
  | Teardown (callback : string)
  | Trigger (name : string)
  | ViewUnload (view : string) (cb : jsval)
  | ViewDestroy (view : string)
  | SuperDestroy.

(** The controller fields [unload] and [destroy] touch, and the effects
    performed so far.  [_unbind] is the array of teardown callbacks; the
    callbacks themselves are taken not to touch these fields. *)
Record ControllerState := {
  _unloaded : jsval;
  _unbind : list string;
  view : option string;
  effects : list Effect
}.

Inductive Completion : Type :=
  | Normal
  | TypeError.

(** The [while] loop of [unload] on the array seen from its top. *)
Fixpoint pop_all (stack : list string) (done : list Effect) : list Effect :=
  match stack with
  | [] => done
  | callback :: rest => pop_all rest (done ++ [Teardown callback])
  end.

Definition unload (cb : jsval) (s : ControllerState) : ControllerState * Completion :=
  if negb (strict_true (_unloaded s)) then
    let done := pop_all (rev (_unbind s)) (effects s) in
    let done := (done ++ [Trigger "unload"])%list in
    match view s with
    | Some v =>
        ({| _unloaded := JBool true; _unbind := []; view := view s;
            effects := (done ++ [ViewUnload v cb])%list |}, Normal)
    | None =>
        ({| _unloaded := JBool true; _unbind := []; view := view s;
            effects := done |}, TypeError)
    end
  else (s, Normal).

Definition destroyView (s : ControllerState) : ControllerState :=
  {| _unloaded := _unloaded s; _unbind := _unbind s; view := None;
     effects := (effects s ++ match view s with
                              | Some v => [ViewDestroy v]
                              | None => []
                              end)%list |}.

Definition destroy (s : ControllerState) : ControllerState * Completion :=
  let r := if negb (strict_true (_unloaded s)) then unload JUndefined s
           else (s, Normal) in
  match snd r with
  | Normal =>
      let s := destroyView (fst r) in
      ({| _unloaded := _unloaded s; _unbind := _unbind s; view := view s;
          effects := (effects s ++ [SuperDestroy])%list |}, Normal)
  | TypeError => r
  end.

(** ** An instance of the collaborators for closed examples *)

Definition upper_char (c : ascii) : ascii :=
  let n := code c in
  if ((97 <=? n) && (n <=? 122))%nat then ascii_of_nat (n - 32) else c.

Definition capitalize (l : list ascii) : list ascii :=
  match l with
  | c :: rest => upper_char c :: rest
  | [] => []
  end.

(** Modelled from the spec: [StringUtils.camelCase] is not among the
    sources.  The spec gives its results on single words (widget becomes
    Widget, document becomes Document, title becomes Title): the first letter
    is put in upper case. *)
Definition camelCase_model (v : jsval) : string :=
  str (capitalize (chars (ToString v))).

(** Modelled from the spec: [StringUtils.camelCaseFromNamespace] is not among
    the sources.  The spec names the view handler of a dotted path
    refresh<CamelCaseFullPath>PropertyOnView: every section of the path is
    camel-cased and the sections are joined. *)
Fixpoint camel_sections (cur : list ascii) (l : list ascii) : list ascii :=
  match l with
  | [] => capitalize (rev cur)
  | c :: rest =>
      if Ascii.eqb c period then (capitalize (rev cur) ++ camel_sections [] rest)%list
      else camel_sections (c :: cur) rest
  end.

Definition camelCaseFromNamespace_model (v : jsval) : string :=
  str (camel_sections [] (chars (ToString v))).

Definition is_digit (c : ascii) : bool :=
  let n := code c in ((48 <=? n) && (n <=? 57))%nat.

Fixpoint digits_value (l : list ascii) (acc : Z) : Z :=
  match l with
  | [] => acc
  | c :: rest => digits_value rest (10 * acc + Z.of_nat (code c - 48))
  end.

(** The engine's conversion on the strings the examples use: a run of decimal
    digits is its value, a string with any other character is not a number
    here. *)
Definition digits_to_number (s : string) : jsnum :=
  match chars s with
  | [] => Int 0
  | l => if forallb is_digit l then Int (digits_value l 0) else NaN
  end.

(** An engine for the closed examples.  It answers for the members of
    [Object.prototype], which strings, numbers and booleans inherit as well
    (each kind with its own constructor and prototype), and for the length
    and the characters of a string.  The further methods of the prototypes
    of strings, numbers and booleans differ between engines; they are not
    listed, and no example reads them.  A built-in function is printed the
    way V8 prints it. *)
Definition native_function (name : string) : string :=
  "function " +:+ name +:+ "() { [native code] }".

Definition object_members : list string :=
  ["toString"; "toLocaleString"; "valueOf"; "hasOwnProperty"; "isPrototypeOf";
   "propertyIsEnumerable"; "__defineGetter__"; "__defineSetter__";
   "__lookupGetter__"; "__lookupSetter__"].

Definition constructor_name (data : jsval) : string :=
  match data with
  | JObj _ => "Object"
  | JStr _ => "String"
  | JNum _ => "Number"
  | JBool _ => "Boolean"
  | _ => EmptyString
  end.

(** [String(data.__proto__)]: the prototype of a string prints as the empty
    string, that of a number as 0 and that of a boolean as false. *)
Definition prototype_text (data : jsval) : string :=
  match data with
  | JObj _ => "[object Object]"
  | JNum _ => "0"
  | JBool _ => "false"
  | _ => EmptyString
  end.

(** [s[name]] for a name that is the decimal form of an index of [s]. *)
Definition char_at (s name : string) : option string :=
  match List.find (fun i => String.eqb name (decimal (Z.of_nat i)))
                  (seq 0 (String.length s)) with
  | Some i =>
      match nth_error (chars s) i with
      | Some c => Some (String c EmptyString)
      | None => None
      end
  | None => None
  end.

Definition builtin_member (data : jsval) (name : string) : option string :=
  match data with
  | JUndefined | JNull => None
  | _ =>
      if String.eqb name "constructor" then Some (native_function (constructor_name data))
      else if String.eqb name "__proto__" then Some (prototype_text data)
      else if existsb (String.eqb name) object_members then Some (native_function name)
      else
        match data with
        | JStr s =>
            if String.eqb name "length"
            then (if String.eqb s EmptyString then None
                  else Some (integer_text (Z.of_nat (String.length s))))
            else char_at s name
        | _ => None
        end
  end.

Definition example_host : Host := {|
  camelCase := camelCase_model;
  camelCaseFromNamespace := camelCaseFromNamespace_model;
  StringToNumber := digits_to_number;
  inherited := builtin_member
|}.

(** A class whose timeout is not a number. *)
Definition example_unset_timeout : ModelClass := {|
  parsers := Some [];
  timeout := JStr "soon";
  rootURI := JStr "/";
  rootUrl := JUndefined;
  _parsers := [];
  defaultHandler := fun data => Value data;
  isValidResponse := fun resp _ _ => JBool (truthy resp);
  getResponseDefaults := None;
  getResponseSuccessPayload := fun resp => Value resp;
  getResponseFailPayload := fun resp => resp
|}.

(** A class configured with the timeout 0. *)
Definition example_zero_timeout : ModelClass := {|
  parsers := Some [];
  timeout := JInt 0;
  rootURI := JStr "/";
  rootUrl := JUndefined;
  _parsers := [];
  defaultHandler := fun data => Value data;
  isValidResponse := fun resp _ _ => JBool (truthy resp);
  getResponseDefaults := None;
  getResponseSuccessPayload := fun resp => Value resp;
  getResponseFailPayload := fun resp => resp
|}.

(** The text [{"b":2}]. *)
Definition json_b2 : string :=
  str (chars "{" ++ [dquote] ++ chars "b" ++ [dquote] ++ chars ":2}").

(** A controller with the two handlers of the title scenario, and the
    bindings [sync('title')] and [sync('title', {triggerView: false})] set up
    on it. *)
Definition title_controller : Controller := {|
  member_truthy := fun name =>
    String.eqb name "titleDidChange" || String.eqb name "refreshTitlePropertyOnView";
  member_is_function := fun name =>
    String.eqb name "titleDidChange" || String.eqb name "refreshTitlePropertyOnView"
|}.

Definition title_conf : SyncConf :=
  sync_conf (H := example_host) title_controller "title" SyncNothing false.

Definition title_conf_no_initial_push : SyncConf :=
  sync_conf (H := example_host) title_controller "title"
    (SyncOptionsArg {| o_trigger := JUndefined; o_triggerView := JBool false;
                       o_targetHandler := JUndefined; o_viewHandler := JUndefined;
                       o_filter := FilterFalsy; o_fn := FnUndefined |})
    false.

(** ** Further parts of the model *)

(** [generateLink(uri)], for the protocol and the host of the window's
    location. *)
Definition generateLink (cls : ModelClass) (protocol host : string) (u : string)
  : string :=
  protocol +:+ "//" +:+ host +:+ ToString (rootURI cls) +:+ u.

(** What [_.defaults] puts under a key that is undefined on the object: the
    first value of the source under that key that is not undefined. *)
Fixpoint first_defined (k : string) (src : list (string * jsval)) : jsval :=
  match src with
  | [] => JUndefined
  | (k', v) :: rest =>
      if String.eqb k k' && negb (is_undefined v) then v else first_defined k rest
  end.

(** The option keys [request] writes itself. *)
Definition request_owned (k : string) : bool :=
  String.eqb k "data" || String.eqb k "url" || String.eqb k "timeout"
  || String.eqb k "contentType" || String.eqb k "processData".

(** A class with response defaults, for closed examples. *)
Definition example_defaults_class : ModelClass := {|
  parsers := Some [];
  timeout := JInt 30000;
  rootURI := JStr "/";
  rootUrl := JUndefined;
  _parsers := [];
  defaultHandler := fun data => Value data;
  isValidResponse := fun resp _ _ => JBool (truthy resp);
  getResponseDefaults := Some [("items", JObj []); ("total", JInt 0)];
  getResponseSuccessPayload := fun resp => Value resp;
  getResponseFailPayload := fun resp => resp
|}.

(** What one entry of a route map adds to the table when its value is a
    string or an object: the four methods of a CRUD key, or the one method of
    any other key, stored under the name the value gives. *)
Definition add_entry `{Host} (routes : gmap string RouteFn) (entry : string * jsval)
  : gmap string RouteFn :=
  let route := fst entry in
  let options := snd entry in
  if String.eqb (route_method route) "crud"
  then crud_expansion (route_path route) (camelCase (mapped_name options)) routes
  else <[ToString (mapped_name options) :=
           {| r_method := if String.eqb (route_method route) "delete" then "del"
                          else route_method route;
              r_uri := route_path route;
              r_options := match options with JObj _ => options | _ => JNull end;
              r_route := route |}]> routes.

Definition route_value_error : string :=
  "The value of the model route mapping must be a string or an object.".

Definition colon_free (l : list ascii) : bool :=
  forallb (fun c => negb (Ascii.eqb c colon)) l.

Definition all_word (l : list ascii) : bool := forallb is_word l.

(** The text after a placeholder does not go on with a word character. *)
Definition ends_word (rest : list ascii) : bool :=
  match rest with
  | c :: _ => negb (is_word c)
  | [] => true
  end.

Definition hash_free (l : list ascii) : bool :=
  forallb (fun c => negb (Ascii.eqb c hash)) l.

(** The key does not open with the hash sign of the alternate syntax. *)
Definition no_hash_prefix (l : list ascii) : bool :=
  match l with
  | c :: _ => negb (Ascii.eqb c hash)
  | [] => true
  end.

(** The request types of the four verb shorthands. *)
Definition shorthand_types : list string := ["GET"; "POST"; "PUT"; "DELETE"].

(** The handler calls one accepted change notification makes when the view
    is available: the controller handler, the callback and the view handler,
    each only when it is there. *)
Definition change_calls (this : Controller) (conf : SyncConf)
    (current previous : jsval) : list HandlerCall :=
  ((if member_truthy this (fnController conf)
    then [CallController (fnController conf) current previous] else [])
   ++ (if fn conf then [CallFn current previous] else [])
   ++ (if member_truthy this (fnView conf)
       then [CallView (fnView conf) current previous] else []))%list.

(** The calls of a run of accepted changes: each is given the value of the
    one before it as previous value. *)
Fixpoint changes_calls (this : Controller) (conf : SyncConf) (previous : jsval)
    (values : list jsval) : list HandlerCall :=
  match values with
  | [] => []
  | v :: rest => (change_calls this conf v previous ++ changes_calls this conf v rest)%list
  end.

(** Every event but the announcement that the view has become available. *)
Definition keeps_unavailable (e : Event) : bool :=
  match e with
  | ViewAvailable true => false
  | _ => true
  end.

Definition period_free (l : list ascii) : bool :=
  forallb (fun c => negb (Ascii.eqb c period)) l.

(** A controller without any handler, and the title binding with a filter
    function, for closed examples. *)
Definition bare_controller : Controller := {|
  member_truthy := fun _ => false;
  member_is_function := fun _ => false
|}.

Definition bare_title_conf : SyncConf :=
  sync_conf (H := example_host) bare_controller "title" SyncNothing false.

Definition title_conf_filtered : SyncConf :=
  sync_conf (H := example_host) title_controller "title"
    (SyncOptionsArg {| o_trigger := JUndefined; o_triggerView := JUndefined;
                       o_targetHandler := JUndefined; o_viewHandler := JUndefined;
                       o_filter := FilterFunction; o_fn := FnUndefined |})
    false.

(** ** [bind] of the base controller *)

(** The [filter] option of [bind] as the caller gives it: not given, a falsy
    value that is not undefined, a string, a function, or any other truthy
    value. *)
Inductive BindFilter : Type :=
  | BindFilterUndefined
  | BindFilterFalsy
  | BindFilterName (name : string)
  | BindFilterFunction
  | BindFilterOther.

(** What [options.filter] holds once [bind] has set the listener up: the
    empty function of the defaults, a function of the caller or of the
    controller, or something that cannot be called. *)
Inductive BoundFilter : Type :=
  | EmptyFunction
  | CallableFilter
  | NotCallable.

Definition bind_filter (this : Controller) (filter : BindFilter) : BoundFilter :=
  match filter with
  | BindFilterUndefined => EmptyFunction
  | BindFilterFalsy => NotCallable
  | BindFilterName name =>
      if String.eqb name EmptyString then NotCallable
      else if member_is_function this name then CallableFilter
      else NotCallable
  | BindFilterFunction => CallableFilter
  | BindFilterOther => EmptyFunction
  end.

Inductive BindOutcome : Type :=
  | CallbackApplied
  | CallbackSkipped
  | FilterTypeError.

(** The listener [bind] registers, run for one event; [answer] is what a
    callable filter returns. *)
Definition bind_listener (this : Controller) (filter : BindFilter) (answer : jsval)
  : BindOutcome :=
  match bind_filter this filter with
  | EmptyFunction => CallbackSkipped
  | CallableFilter => if truthy answer then CallbackApplied else CallbackSkipped
  | NotCallable => FilterTypeError
  end.

(** ** Sequences of [unload] and [destroy] *)

Inductive LifecycleCall : Type :=
  | CallUnload (cb : jsval)
  | CallDestroy.

Definition lifecycle_step (s : ControllerState) (c : LifecycleCall)
  : ControllerState * Completion :=
  match c with
  | CallUnload cb => unload cb s
  | CallDestroy => destroy s
  end.

(** The calls made one after the other, with the completion of each. *)
Fixpoint lifecycle (calls : list LifecycleCall) (s : ControllerState)
  : ControllerState * list Completion :=
  match calls with
  | [] => (s, [])
  | c :: rest =>
      let r := lifecycle_step s c in
      let r' := lifecycle rest (fst r) in
      (fst r', snd r :: snd r')
  end.

Definition is_teardown (e : Effect) : bool :=
  match e with Teardown _ => true | _ => false end.
Definition is_view_unload (e : Effect) : bool :=
  match e with ViewUnload _ _ => true | _ => false end.
Definition is_view_destroy (e : Effect) : bool :=
  match e with ViewDestroy _ => true | _ => false end.
Definition is_destroy (c : LifecycleCall) : bool :=
  match c with CallDestroy => true | CallUnload _ => false end.

(** A controller as [initialize] leaves it: not unloaded, with a view. *)
Definition fresh_controller (callbacks : list string) (v : string) : ControllerState :=
  {| _unloaded := JUndefined; _unbind := callbacks; view := Some v; effects := [] |}.

(** What holds of a controller once it is unloaded: its teardown callbacks
    have run, last registered first, its view has been unloaded once, and
    the view has been destroyed once if it is gone and not at all if it is
    still there. *)
Definition settled (callbacks : list string) (s : ControllerState) : Prop :=
  _unloaded s = JBool true
  /\ List.filter is_teardown (effects s) = map Teardown (rev callbacks)
  /\ length (List.filter is_view_unload (effects s)) = 1%nat
  /\ length (List.filter is_view_destroy (effects s))
     = match view s with Some _ => 0%nat | None => 1%nat end.

(** ** The pattern of a parser path

    [parseParsers] turns the path of a key into the source of a regular
    expression by four replacements in a row; [route_source] is that source,
    with the anchors [new RegExp] is given. *)

Definition backslash : ascii := ascii_of_nat 92.
Definition lparen : ascii := ascii_of_nat 40.
Definition rparen : ascii := ascii_of_nat 41.
Definition star : ascii := ascii_of_nat 42.
Definition question : ascii := ascii_of_nat 63.

(** The class of [escapeRegExp]. *)
Definition needs_escape (c : ascii) : bool :=
  let n := code c in
  ((n =? 45) || (n =? 123) || (n =? 125) || (n =? 91) || (n =? 93) || (n =? 43)
   || (n =? 63) || (n =? 46) || (n =? 44) || (n =? 92) || (n =? 94) || (n =? 36)
   || (n =? 124) || (n =? 35))%nat
  || is_space c.

(** [route.replace(escapeRegExp, '\\$&')] *)
Fixpoint escape_pass (l : list ascii) : list ascii :=
  match l with
  | [] => []
  | c :: rest =>
      if needs_escape c then backslash :: c :: escape_pass rest
      else c :: escape_pass rest
  end.

(** The dot of a pattern matches no line terminator. *)
Definition line_terminator (c : ascii) : bool :=
  let n := code c in ((n =? 10) || (n =? 13))%nat.

(** The text a lazy [(.*?)] takes after an opening parenthesis, up to the
    first closing one. *)
Fixpoint find_close (l : list ascii) : option (list ascii) :=
  match l with
  | [] => None
  | c :: rest =>
      if Ascii.eqb c rparen then Some []
      else if line_terminator c then None
      else match find_close rest with
           | Some inner => Some (c :: inner)
           | None => None
           end
  end.

(** [.replace(optionalParam, '(?:$1)?')] *)
Fixpoint optional_pass (skip : nat) (l : list ascii) : list ascii :=
  match l with
  | [] => []
  | c :: rest =>
      match skip with
      | S k => optional_pass k rest
      | O =>
          if Ascii.eqb c lparen then
            match find_close rest with
            | Some inner =>
                (chars "(?:" ++ inner ++ chars ")?"
                 ++ optional_pass (S (length inner)) rest)%list
            | None => c :: optional_pass 0 rest
            end
          else c :: optional_pass 0 rest
      end
  end.

(** [.replace(namedParam, function(match, optional) {...})]: a name that
    follows the opening of a group is kept, any other becomes a capture of
    what stands between two slashes. *)
Fixpoint named_pass (skip : nat) (l : list ascii) : list ascii :=
  match l with
  | [] => []
  | c :: rest =>
      match skip with
      | S k => named_pass k rest
      | O =>
          if Ascii.eqb c lparen then
            match rest with
            | q :: d :: rest2 =>
                if Ascii.eqb q question && Ascii.eqb d colon then
                  match word_prefix rest2 with
                  | [] => c :: named_pass 0 rest
                  | w => (c :: q :: d :: w ++ named_pass (2 + length w) rest)%list
                  end
                else c :: named_pass 0 rest
            | _ => c :: named_pass 0 rest
            end
          else if Ascii.eqb c colon then
            match word_prefix rest with
            | [] => c :: named_pass 0 rest
            | w => (chars "([^/]+)" ++ named_pass (length w) rest)%list
            end
          else c :: named_pass 0 rest
      end
  end.

(** [.replace(splatParam, '(.*?)')] *)
Fixpoint splat_pass (skip : nat) (l : list ascii) : list ascii :=
  match l with
  | [] => []
  | c :: rest =>
      match skip with
      | S k => splat_pass k rest
      | O =>
          if Ascii.eqb c star then
            match word_prefix rest with
            | [] => c :: splat_pass 0 rest
            | w => (chars "(.*?)" ++ splat_pass (length w) rest)%list
            end
          else c :: splat_pass 0 rest
      end
  end.

Definition route_source (route : string) : string :=
  "^" +:+ str (splat_pass 0 (named_pass 0 (optional_pass 0 (escape_pass (chars route)))))
  +:+ "$".

(** [parseParsers] with the engine's regular expressions: [RegExp source]
    is the test of the expression compiled from [source]. *)
Definition parseParsers_with (RegExp : string -> string -> bool)
    (decls : list ParserDecl) : list ParserEntry :=
  parseParsers (fun path => RegExp (route_source path)) decls.

(** A path written as single characters, [:name] parameters and [*name]
    splats. *)
Inductive segment : Type :=
  | SegChar (c : ascii)
  | SegParam (name : list ascii)
  | SegSplat (name : list ascii).

Definition render (s : segment) : list ascii :=
  match s with
  | SegChar c => [c]
  | SegParam name => colon :: name
  | SegSplat name => star :: name
  end.

Definition segment_source (s : segment) : list ascii :=
  match s with
  | SegChar c => if needs_escape c then [backslash; c] else [c]
  | SegParam _ => chars "([^/]+)"
  | SegSplat _ => chars "(.*?)"
  end.

(** A single character that opens nothing: no parenthesis, colon or star. *)
Definition plain_char (c : ascii) : bool :=
  negb (Ascii.eqb c lparen || Ascii.eqb c rparen || Ascii.eqb c colon
        || Ascii.eqb c star).

(** What follows a name does not prolong it. *)
Definition name_ends (rest : list segment) : bool :=
  match rest with
  | SegChar c :: _ => negb (is_word c)
  | _ => true
  end.

Definition is_name (name : list ascii) : bool :=
  match name with
  | [] => false
  | _ => all_word name
  end.

Fixpoint well_formed (segs : list segment) : bool :=
  match segs with
  | [] => true
  | SegChar c :: rest => plain_char c && well_formed rest
  | SegParam name :: rest => is_name name && name_ends rest && well_formed rest
  | SegSplat name :: rest => is_name name && name_ends rest && well_formed rest
  end.

(** A segment after the escaping, and after the naming of parameters. *)
Definition after_escape (s : segment) : list ascii :=
  match s with
  | SegChar c => if needs_escape c then [backslash; c] else [c]
  | SegParam name => colon :: name
  | SegSplat name => star :: name
  end.

Definition after_named (s : segment) : list ascii :=
  match s with
  | SegParam _ => chars "([^/]+)"
  | _ => after_escape s
  end.

Definition single_line (segs : list segment) : bool :=
  forallb (fun s => match s with
                    | SegChar c => negb (line_terminator c)
                    | _ => true
                    end) segs.

Definition path_of (segs : list segment) : list ascii := concat (map render segs).

Definition source_of (segs : list segment) : list ascii :=
  concat (map segment_source segs).

Definition lparen_free (l : list ascii) : bool :=
  forallb (fun c => negb (Ascii.eqb c lparen)) l.

Definition star_free (l : list ascii) : bool :=
  forallb (fun c => negb (Ascii.eqb c star)) l.

(** Text a group can hold: no closing parenthesis and no line terminator. *)
Definition closes (l : list ascii) : bool :=
  forallb (fun c => negb (Ascii.eqb c rparen) && negb (line_terminator c)) l.

(** * Properties *)

(** ** Objects *)

Lemma lookup_obj_set (k k' : string) (v : jsval) (l : list (string * jsval)) :
  obj_lookup k' (obj_set k v l)
  = if String.eqb k' k then Some v else obj_lookup k' l.
Proof.
  induction l as [|[k0 v0] l IH]; simpl.
  - destruct (String.eqb_spec k' k); reflexivity.
  - destruct (String.eqb_spec k k0) as [->|Hne]; simpl.
    + destruct (String.eqb_spec k' k0); reflexivity.
    + rewrite IH.
      destruct (String.eqb_spec k' k0) as [->|Hne']; [|reflexivity].
      destruct (String.eqb_spec k0 k); congruence.
Qed.

Lemma lookup_obj_delete (k k' : string) (l : list (string * jsval)) :
  obj_lookup k' (obj_delete k l)
  = if String.eqb k' k then None else obj_lookup k' l.
Proof.
  induction l as [|[k0 v0] l IH]; simpl.
  - destruct (String.eqb k' k); reflexivity.
  - destruct (String.eqb_spec k k0) as [->|Hne]; simpl.
    + rewrite IH. destruct (String.eqb_spec k' k0); reflexivity.
    + rewrite IH.
      destruct (String.eqb_spec k' k0) as [->|Hne']; [|reflexivity].
      destruct (String.eqb_spec k0 k); congruence.
Qed.

Lemma js_get_set (props : list (string * jsval)) (k k' : string) (v : jsval) :
  js_get (JObj (obj_set k v props)) k'
  = if String.eqb k' k then v else js_get (JObj props) k'.
Proof.
  simpl. rewrite lookup_obj_set. destruct (String.eqb k' k); reflexivity.
Qed.

Lemma get_fill (acc : list (string * jsval)) (k k' : string) (v : jsval) :
  js_get (JObj (fill acc (k, v))) k'
  = if String.eqb k' k && is_undefined (js_get (JObj acc) k) then v
    else js_get (JObj acc) k'.
Proof.
  unfold fill; simpl.
  destruct (is_undefined (default JUndefined (obj_lookup k acc))) eqn:E.
  - rewrite lookup_obj_set. destruct (String.eqb k' k); simpl; reflexivity.
  - rewrite andb_false_r. reflexivity.
Qed.

Lemma defaults_one (o : list (string * jsval)) (k : string) (v : jsval) :
  _defaults (JObj o) [(k, v)] = JObj (fill o (k, v)).
Proof. reflexivity. Qed.

Lemma defaults_two (o : list (string * jsval)) (k1 k2 : string) (v1 v2 : jsval) :
  _defaults (JObj o) [(k1, v1); (k2, v2)] = JObj (fill (fill o (k1, v1)) (k2, v2)).
Proof. reflexivity. Qed.

(** ** The request engine *)

Lemma request_options_timeout `{Host} (cls : ModelClass) (u : string)
    (params : jsval) (o : option (list (string * jsval))) :
  js_get (request_options cls u params (options_of o)) "timeout" = getAjaxTimeout cls.
Proof.
  unfold request_options.
  assert (Hobj : exists props, js_or (options_of o) (JObj []) = JObj props).
  { destruct o; simpl; eauto. }
  destruct Hobj as [props ->].
  rewrite defaults_two.
  set (filled := fill _ _).
  cbn [js_put].
  destruct (truthy (js_get (JObj (obj_set "timeout" (getAjaxTimeout cls) filled)) "jsonBody")).
  - rewrite !js_get_set. reflexivity.
  - rewrite js_get_set. reflexivity.
Qed.

Lemma getAjaxTimeout_cases `{Host} (cls : ModelClass) :
  getAjaxTimeout cls
  = match ToNumber (timeout cls) with
    | NaN => JInt 500
    | Int z => if z =? 0 then JInt 500 else JInt z
    | n => JNum n
    end.
Proof.
  unfold getAjaxTimeout, js_or.
  destruct (ToNumber (timeout cls)) as [| | |z]; simpl; try reflexivity.
  destruct (z =? 0); reflexivity.
Qed.

Lemma request_echo `{Host} (cls : ModelClass) (u : string) (params options : jsval) :
  request cls echo u params options = Rejected (request_options cls u params options).
Proof. reflexivity. Qed.

(** C8, as amended.  Every request hands the transport, under [timeout],
    the timeout of the class converted to a number, whatever timeout the
    caller's options carry: a class that sets the number z, other than zero,
    has z applied, and the base class has its 30000.  When the conversion
    gives NaN or zero (the timeout is undefined, null, not numeric, or the
    number 0 itself) the request goes out with 500. *)
Theorem request_timeout_falls_back_to_500 `{Host} (cls : ModelClass) (u : string)
    (params : jsval) (o : option (list (string * jsval))) :
  exists sent,
    request cls echo u params (options_of o) = Rejected sent
    /\ js_get sent "timeout"
       = match ToNumber (timeout cls) with
         | NaN => JInt 500
         | Int z => if z =? 0 then JInt 500 else JInt z
         | n => JNum n
         end
    /\ js_get sent "timeout" = getAjaxTimeout cls
    /\ (forall z, timeout cls = JInt z -> z <> 0 -> js_get sent "timeout" = JInt z)
    /\ (timeout cls = JUndefined \/ timeout cls = JNull
        \/ ToNumber (timeout cls) = NaN \/ timeout cls = JInt 0 ->
        js_get sent "timeout" = JInt 500)
    /\ (cls = BaseModel -> js_get sent "timeout" = JInt 30000).
Proof.
  exists (request_options cls u params (options_of o)).
  split; [apply request_echo|].
  rewrite request_options_timeout.
  split; [apply getAjaxTimeout_cases|]. split; [reflexivity|].
  rewrite getAjaxTimeout_cases. split; [|split].
  - intros z Hz Hnz. rewrite Hz. change (ToNumber (JInt z)) with (Int z). cbv iota.
    destruct (Z.eqb_spec z 0); [contradiction|reflexivity].
  - intros [-> | [-> | [-> | ->]]]; reflexivity.
  - intros ->. reflexivity.
Qed.

(** The base class itself sends its declared timeout. *)
Lemma base_class_timeout `{Host} :
  getAjaxTimeout BaseModel = JInt 30000.
Proof. reflexivity. Qed.

Lemma request_timeout_falls_back_to_500_witness :
  exists sent,
    request (H := example_host) example_unset_timeout echo "docs" JUndefined
      (options_of (Some [("timeout", JInt 9)])) = Rejected sent
    /\ js_get sent "timeout" = JInt 500.
Proof.
  destruct (@request_timeout_falls_back_to_500 example_host example_unset_timeout
              "docs" JUndefined (Some [("timeout", JInt 9)]))
    as (sent & Hsent & _ & _ & _ & H500 & _).
  exists sent. split; [exact Hsent|].
  apply H500. right. right. left. reflexivity.
Defined.

(** C8 as stated fails for a class configured with the timeout 0, a valid
    number: the request does not apply it, it goes out with 500. *)
Lemma zero_timeout_counterexample :
  timeout example_zero_timeout = JInt 0
  /\ ToNumber (H := example_host) (timeout example_zero_timeout) = Int 0
  /\ request (H := example_host) example_zero_timeout echo "docs" JUndefined JUndefined
     = Rejected (JObj [("data", JObj []); ("url", JStr "/docs"); ("timeout", JInt 500)]).
Proof. repeat split; reflexivity. Qed.

Lemma request_options_jsonBody `{Host} (cls : ModelClass) (u : string)
    (params : jsval) (o : list (string * jsval)) :
  truthy (js_get (JObj o) "jsonBody") = true ->
  let sent := request_options cls u params (JObj o) in
  js_get sent "data"
  = stringify_val (if is_undefined (js_get (JObj o) "data")
                   then js_or params (JObj []) else js_get (JObj o) "data")
  /\ js_get sent "contentType" = JStr "application/json"
  /\ js_get sent "processData" = JBool false.
Proof.
  intros Hjson sent. subst sent. unfold request_options.
  change (js_or (JObj o) (JObj [])) with (JObj o).
  rewrite defaults_two. cbn [js_put].
  rewrite js_get_set, !get_fill. cbn [String.eqb Ascii.eqb Bool.eqb andb].
  rewrite Hjson.
  rewrite !js_get_set. cbn [String.eqb Ascii.eqb Bool.eqb andb].
  rewrite !get_fill. cbn [String.eqb Ascii.eqb Bool.eqb andb].
  split; [|split; reflexivity].
  destruct (is_undefined (js_get (JObj o) "data")); reflexivity.
Qed.

Lemma stringify_a1 : JSON_stringify (JObj [("a", JInt 1)]) = Some json_a1.
Proof. reflexivity. Qed.

Lemma fill_jsonBody (o : list (string * jsval)) (k : string) (v : jsval) :
  String.eqb "jsonBody" k = false ->
  js_get (JObj (fill o (k, v))) "jsonBody" = js_get (JObj o) "jsonBody".
Proof. intros Hk. rewrite get_fill, Hk. reflexivity. Qed.

Lemma request_options_plain `{Host} (cls : ModelClass) (u : string)
    (params : jsval) (o : list (string * jsval)) (k : string) :
  truthy (js_get (JObj o) "jsonBody") = false ->
  String.eqb k "timeout" = false ->
  js_get (request_options cls u params (JObj o)) k
  = js_get (_defaults (JObj o)
              [("data", js_or params (JObj []));
               ("url", JStr (ToString (js_or (rootUrl cls) (rootURI cls)) +:+ u))]) k.
Proof.
  intros Hjson Hk. unfold request_options.
  change (js_or (JObj o) (JObj [])) with (JObj o).
  rewrite !defaults_two. cbn [js_put].
  set (filled := fill (fill o _) _).
  assert (Hj : truthy (js_get (JObj (obj_set "timeout" (getAjaxTimeout cls) filled))
                         "jsonBody") = false).
  { rewrite js_get_set. subst filled. rewrite !get_fill.
    cbn [String.eqb Ascii.eqb Bool.eqb andb]. exact Hjson. }
  rewrite Hj, js_get_set, Hk. reflexivity.
Qed.

(** What a shorthand without [jsonBody] among its defaults sends for options
    that set neither [jsonBody] nor [data]. *)
Lemma shorthand_plain_body `{Host} (cls : ModelClass) (u : string) (params : jsval)
    (p : option (list (string * jsval))) (verb : string) :
  truthy params = true ->
  js_get (options_of p) "jsonBody" = JUndefined ->
  js_get (options_of p) "data" = JUndefined ->
  let sent := request_options cls u params
                (_defaults (js_or (options_of p) (JObj [])) [("type", JStr verb)]) in
  js_get sent "data" = params
  /\ js_get sent "jsonBody" = JUndefined
  /\ js_get sent "contentType" = js_get (options_of p) "contentType"
  /\ js_get sent "processData" = js_get (options_of p) "processData".
Proof.
  intros Hparams Hjson Hdata sent. subst sent.
  assert (Hobj : exists props, js_or (options_of p) (JObj []) = JObj props
                   /\ js_get (JObj props) "jsonBody" = JUndefined
                   /\ js_get (JObj props) "data" = JUndefined
                   /\ js_get (JObj props) "contentType" = js_get (options_of p) "contentType"
                   /\ js_get (JObj props) "processData" = js_get (options_of p) "processData").
  { destruct p as [props|]; [exists props|exists []]; repeat split; assumption || reflexivity. }
  destruct Hobj as (props & -> & Hj & Hd & Hc & Hp).
  rewrite defaults_one.
  assert (Hplain : truthy (js_get (JObj (fill props ("type", JStr verb))) "jsonBody") = false).
  { rewrite get_fill. cbn [String.eqb Ascii.eqb Bool.eqb andb]. rewrite Hj. reflexivity. }
  rewrite !(request_options_plain cls u params _ _ Hplain) by reflexivity.
  rewrite defaults_two, !get_fill. cbn [String.eqb Ascii.eqb Bool.eqb andb].
  rewrite Hd, Hj, Hc, Hp. cbn [is_undefined].
  unfold js_or. rewrite Hparams. repeat split; reflexivity.
Qed.

(** C7, as amended.  A request whose options set [jsonBody], called with
    params [{a: 1}], hands the transport the text [{"a":1}] as body when the
    options carry no [data] of their own, and the text of that [data] when
    they do, with the content type application/json and [processData] false.
    The [put] shorthand does the same for options that leave [jsonBody]
    undefined; [get], [post] and [del] send the params of such options as
    they are and touch neither the content type nor [processData]. *)
Theorem json_body_is_serialized_params `{Host} (cls : ModelClass) (u : string)
    (o : list (string * jsval)) (p : option (list (string * jsval))) :
  truthy (js_get (JObj o) "jsonBody") = true ->
  js_get (options_of p) "jsonBody" = JUndefined ->
  js_get (options_of p) "data" = JUndefined ->
  let params := JObj [("a", JInt 1)] in
  (exists sent,
     request cls echo u params (JObj o) = Rejected sent
     /\ js_get sent "data"
        = (if is_undefined (js_get (JObj o) "data") then JStr json_a1
           else stringify_val (js_get (JObj o) "data"))
     /\ js_get sent "contentType" = JStr "application/json"
     /\ js_get sent "processData" = JBool false)
  /\ (exists sent,
        put cls echo u params (options_of p) = Rejected sent
        /\ js_get sent "data" = JStr json_a1
        /\ js_get sent "contentType" = JStr "application/json"
        /\ js_get sent "processData" = JBool false)
  /\ (forall shorthand,
        In shorthand [get cls echo; post cls echo; del cls echo] ->
        exists sent,
          shorthand u params (options_of p) = Rejected sent
          /\ js_get sent "data" = params
          /\ js_get sent "jsonBody" = JUndefined
          /\ js_get sent "contentType" = js_get (options_of p) "contentType"
          /\ js_get sent "processData" = js_get (options_of p) "processData").
Proof.
  intros Hjson Hnone Hdata params. split; [|split].
  - exists (request_options cls u params (JObj o)).
    split; [apply request_echo|].
    destruct (request_options_jsonBody cls u params o Hjson) as (Hd & Hc & Hp).
    split; [|split; assumption].
    rewrite Hd. destruct (is_undefined (js_get (JObj o) "data")); reflexivity.
  - assert (Hobj : exists props, js_or (options_of p) (JObj []) = JObj props
                     /\ js_get (JObj props) "jsonBody" = JUndefined
                     /\ js_get (JObj props) "data" = JUndefined).
    { destruct p as [props|]; [exists props|exists []]; repeat split; assumption || reflexivity. }
    destruct Hobj as (props & Hprops & Hj & Hd).
    unfold put. rewrite Hprops. unfold put_defaults. rewrite defaults_two.
    set (given := fill (fill props ("type", JStr "PUT")) ("jsonBody", JBool true)).
    assert (Hgiven : truthy (js_get (JObj given) "jsonBody") = true).
    { subst given. rewrite !get_fill. cbn [String.eqb Ascii.eqb Bool.eqb andb].
      rewrite Hj. reflexivity. }
    assert (Hgd : js_get (JObj given) "data" = JUndefined).
    { subst given. rewrite !get_fill. cbn [String.eqb Ascii.eqb Bool.eqb andb].
      exact Hd. }
    exists (request_options cls u params (JObj given)).
    split; [apply request_echo|].
    destruct (request_options_jsonBody cls u params given Hgiven) as (Hd' & Hc & Hp).
    split; [|split; assumption].
    rewrite Hd', Hgd. reflexivity.
  - intros shorthand Hin.
    assert (Hverb : exists verb,
               shorthand u params (options_of p)
               = Rejected (request_options cls u params
                             (_defaults (js_or (options_of p) (JObj []))
                                [("type", JStr verb)]))).
    { destruct Hin as [<- | [<- | [<- | []]]];
        [exists "GET" | exists "POST" | exists "DELETE"]; reflexivity. }
    destruct Hverb as [verb Hverb].
    eexists. split; [exact Hverb|].
    apply shorthand_plain_body; [reflexivity|assumption..].
Qed.

Lemma json_body_is_serialized_params_witness :
  (exists sent,
     request (H := example_host) BaseModel echo "docs" (JObj [("a", JInt 1)])
       (JObj [("jsonBody", JBool true)]) = Rejected sent
     /\ js_get sent "data" = JStr json_a1
     /\ js_get sent "contentType" = JStr "application/json"
     /\ js_get sent "processData" = JBool false)
  /\ (exists sent,
        put (H := example_host) BaseModel echo "docs" (JObj [("a", JInt 1)]) JUndefined
        = Rejected sent
        /\ js_get sent "data" = JStr json_a1)
  /\ (exists sent,
        post (H := example_host) BaseModel echo "docs" (JObj [("a", JInt 1)]) JUndefined
        = Rejected sent
        /\ js_get sent "data" = JObj [("a", JInt 1)]).
Proof.
  destruct (@json_body_is_serialized_params example_host BaseModel "docs"
              [("jsonBody", JBool true)] None eq_refl eq_refl eq_refl)
    as ((sent & Hsent & Hd & Hc & Hp) & (sent' & Hput & Hd' & _) & Hothers).
  split; [exists sent; repeat split; assumption|].
  split; [exists sent'; split; assumption|].
  destruct (Hothers (post (H := example_host) BaseModel echo))
    as (sent'' & Hpost & Hd'' & _); [right; left; reflexivity|].
  exists sent''. split; assumption.
Defined.

(** C7 as stated fails when the options bring their own [data]: the explicit
    option wins over [params], and the body is the text of that [data]. *)
Lemma json_body_counterexample :
  request (H := example_host) BaseModel echo "docs" (JObj [("a", JInt 1)])
    (JObj [("jsonBody", JBool true); ("data", JObj [("b", JInt 2)])])
  = Rejected (JObj [("jsonBody", JBool true); ("data", JStr json_b2);
                    ("url", JStr "/docs"); ("timeout", JInt 30000);
                    ("contentType", JStr "application/json");
                    ("processData", JBool false)])
  /\ json_b2 <> json_a1.
Proof. split; [reflexivity|]. vm_compute. discriminate. Qed.

(** ** Strings as character lists *)

Lemma chars_str (l : list ascii) : chars (str l) = l.
Proof. apply list_ascii_of_string_of_list_ascii. Qed.

Lemma str_chars (s : string) : str (chars s) = s.
Proof. apply string_of_list_ascii_of_string. Qed.

Lemma chars_append (a b : string) : chars (a +:+ b) = (chars a ++ chars b)%list.
Proof. induction a as [|c a IH]; simpl; [reflexivity|]. f_equal. exact IH. Qed.

Lemma str_app (a b : list ascii) : str (a ++ b) = str a +:+ str b.
Proof. induction a as [|c a IH]; simpl; [reflexivity|]. rewrite IH. reflexivity. Qed.

Lemma nospace_app (a b : list ascii) :
  nospace (a ++ b) = nospace a && nospace b.
Proof. apply forallb_app. Qed.

Lemma nospace_rev (l : list ascii) : nospace (rev l) = nospace l.
Proof.
  induction l as [|c l IH]; simpl; [reflexivity|].
  rewrite nospace_app, IH. simpl. rewrite andb_true_r. apply andb_comm.
Qed.

Lemma split_go_nospace (cur l : list ascii) :
  nospace l = true -> split_go cur l = [(rev cur ++ l)%list].
Proof.
  revert cur. induction l as [|c l IH]; intros cur Hl; simpl.
  - rewrite app_nil_r. reflexivity.
  - simpl in Hl. apply andb_true_iff in Hl as [Hc Hl].
    apply negb_true_iff in Hc. rewrite Hc, IH by exact Hl.
    simpl. rewrite <- app_assoc. reflexivity.
Qed.

Lemma split_skip_nospace (l : list ascii) :
  nospace l = true -> split_skip l = [l].
Proof.
  destruct l as [|c l]; intros Hl; simpl; [reflexivity|].
  simpl in Hl. apply andb_true_iff in Hl as [Hc Hl].
  apply negb_true_iff in Hc. rewrite Hc.
  rewrite split_go_nospace by exact Hl. reflexivity.
Qed.

Lemma split_go_space (cur w rest : list ascii) (sp : ascii) :
  nospace w = true -> is_space sp = true ->
  split_go cur (w ++ sp :: rest) = (rev cur ++ w)%list :: split_skip rest.
Proof.
  revert cur. induction w as [|c w IH]; intros cur Hw Hsp; simpl.
  - rewrite Hsp, app_nil_r. reflexivity.
  - simpl in Hw. apply andb_true_iff in Hw as [Hc Hw].
    apply negb_true_iff in Hc. rewrite Hc, IH by assumption.
    simpl. rewrite <- app_assoc. reflexivity.
Qed.

(** Every piece of a split is free of white space. *)
Lemma split_pieces_nospace (l cur : list ascii) :
  nospace cur = true ->
  Forall (fun p => nospace p = true) (split_go cur l)
  /\ Forall (fun p => nospace p = true) (split_skip l).
Proof.
  revert cur. induction l as [|c l IH]; intros cur Hcur; simpl.
  - split.
    + constructor; [|constructor].
      rewrite nospace_rev. exact Hcur.
    + constructor; [reflexivity|constructor].
  - destruct (is_space c) eqn:Hc.
    + split; [constructor|]; try apply (IH [] eq_refl).
      rewrite nospace_rev. exact Hcur.
    + split.
      * apply IH. simpl. rewrite Hc. exact Hcur.
      * apply (IH [c]). simpl. rewrite Hc. reflexivity.
Qed.

Lemma nospace_join (l : list string) :
  Forall (fun p => nospace (chars p) = true) l ->
  nospace (chars (join_empty l)) = true.
Proof.
  induction 1 as [|p l Hp _ IH]; simpl; [reflexivity|].
  rewrite chars_append, nospace_app, Hp, IH. reflexivity.
Qed.

(** The path a route key yields carries no white space. *)
Lemma route_path_nospace (route : string) :
  nospace (chars (route_path route)) = true.
Proof.
  unfold route_path. apply nospace_join. unfold sections_of, split_ws.
  destruct (split_pieces_nospace (chars (trim route)) [] eq_refl) as [Hgo _].
  destruct (split_go [] (chars (trim route))) as [|p ps]; simpl; [constructor|].
  inversion Hgo as [|? ? _ Hps]; subst. clear Hgo.
  induction Hps as [|q qs Hq _ IH]; simpl; constructor.
  - rewrite chars_str. exact Hq.
  - exact IH.
Qed.

Lemma drop_space_head (c : ascii) (l : list ascii) :
  is_space c = false -> drop_space (c :: l) = c :: l.
Proof. intros Hc. simpl. rewrite Hc. reflexivity. Qed.

Lemma nospace_rev_head (w : list ascii) (c : ascii) (r : list ascii) :
  nospace w = true -> rev w = c :: r -> is_space c = false.
Proof.
  intros Hw Hrev.
  assert (Hin : In c w).
  { apply in_rev. rewrite Hrev. left. reflexivity. }
  unfold nospace in Hw. rewrite forallb_forall in Hw.
  apply negb_true_iff. apply Hw. exact Hin.
Qed.

Lemma drop_space_clean (l : list ascii) :
  (forall c r, l = c :: r -> is_space c = false) -> drop_space l = l.
Proof.
  destruct l as [|c r]; intros Hhead; [reflexivity|].
  apply drop_space_head. exact (Hhead c r eq_refl).
Qed.

Lemma drop_space_rev_nospace (l : list ascii) :
  nospace l = true -> drop_space (rev l) = rev l.
Proof.
  intros Hl. apply drop_space_clean. intros c r Hrev.
  exact (nospace_rev_head l c r Hl Hrev).
Qed.

(** Trimming a verb, one blank and a path without white space: the blank
    stays unless the path is empty. *)
Lemma trim_verb_path (c : ascii) (m w : list ascii) :
  is_space c = false -> nospace (c :: m) = true -> nospace w = true ->
  trim_chars ((c :: m) ++ " "%char :: w)
  = match w with
    | [] => c :: m
    | _ => ((c :: m) ++ " "%char :: w)%list
    end.
Proof.
  intros Hc Hm Hw. unfold trim_chars.
  change ((c :: m) ++ " "%char :: w)%list with (c :: (m ++ " "%char :: w))%list.
  rewrite drop_space_head by exact Hc.
  change (c :: (m ++ " "%char :: w))%list with ((c :: m) ++ " "%char :: w)%list.
  remember (c :: m) as cm eqn:Hcm.
  destruct w as [|d w].
  - rewrite rev_app_distr.
    change (rev [" "%char] ++ rev cm)%list with (" "%char :: rev cm).
    change (drop_space (" "%char :: rev cm)) with (drop_space (rev cm)).
    rewrite drop_space_rev_nospace by exact Hm.
    apply rev_involutive.
  - rewrite rev_app_distr.
    change (" "%char :: d :: w) with ([" "%char] ++ (d :: w))%list.
    rewrite rev_app_distr, <- app_assoc.
    rewrite drop_space_clean; [rewrite app_assoc, <- !rev_app_distr; apply rev_involutive|].
    intros e r Hrev.
    destruct (rev (d :: w)) as [|e' r'] eqn:Hdw.
    + apply (f_equal (@length _)) in Hdw. rewrite length_rev in Hdw. discriminate.
    + simpl in Hrev. injection Hrev as -> _.
      exact (nospace_rev_head _ _ _ Hw Hdw).
Qed.

Lemma append_empty_r (s : string) : s +:+ EmptyString = s.
Proof.
  induction s as [|c s IH]; [reflexivity|].
  change (String c (s +:+ EmptyString) = String c s). rewrite IH. reflexivity.
Qed.

(** The sections of a verb, one blank and a path without white space. *)
Lemma sections_verb_path (c : ascii) (m w : list ascii) :
  is_space c = false -> nospace (c :: m) = true -> nospace w = true ->
  let route := str ((c :: m) ++ " "%char :: w) in
  route_method route = toLowerCase (trim (str (c :: m)))
  /\ route_path route = str w.
Proof.
  intros Hc Hm Hw route.
  unfold route_method, route_path, sections_of, split_ws.
  subst route. unfold trim at 2 4. rewrite !chars_str.
  rewrite trim_verb_path by assumption.
  destruct w as [|d w].
  - rewrite split_go_nospace by exact Hm. split; reflexivity.
  - rewrite split_go_space by (exact Hm || reflexivity).
    rewrite split_skip_nospace by exact Hw.
    cbn [map head tail rev app fmap option_fmap option_map default join_empty fold_right].
    split; [reflexivity|]. apply append_empty_r.
Qed.

(** ** Response validation *)

(** A falsy body is validated as the empty object: [processResponse] never
    looks at the body itself before it calls [isValidResponse]. *)
Lemma falsy_body_processed_as_empty (cls : ModelClass) (resp textStatus xhr : jsval) :
  truthy resp = false ->
  processResponse cls resp textStatus xhr
  = processResponse cls (JObj []) textStatus xhr.
Proof.
  intros Hfalsy.
  assert (Hempty : js_or resp (JObj []) = JObj []).
  { unfold js_or. rewrite Hfalsy. reflexivity. }
  unfold processResponse.
  destruct (getResponseDefaults cls) as [d|]; rewrite !Hempty; reflexivity.
Qed.

(** C2, evaluated on the code.  A null body reaches [isValidResponse] as the
    empty object, which the default predicate accepts: with the base class the
    promise of [processResponse], and with it the promise of [request],
    resolves with the empty object instead of rejecting; and a class whose
    [isValidResponse] accepts everything resolves as well. *)
Theorem null_body_resolves `{Host} (u : string) (params : jsval)
    (o : option (list (string * jsval))) (textStatus xhr : jsval)
    (cls : ModelClass) :
  processResponse BaseModel JNull textStatus xhr = Resolved (JObj [])
  /\ request BaseModel (fun _ => inl [JNull; textStatus; xhr]) u params (options_of o)
     = Resolved (JObj [])
  /\ processResponse cls JNull textStatus xhr
     = processResponse cls (JObj []) textStatus xhr.
Proof.
  split; [reflexivity|]. split.
  - unfold request. cbn [arg nth].
    change (processResponse BaseModel JNull textStatus xhr) with (Resolved (JObj [])).
    unfold getParser. reflexivity.
  - apply falsy_body_processed_as_empty. reflexivity.
Qed.

(** ** Route compilation *)

Lemma createMethod_verb_path `{Host} (fuel : nat) (name : string) (c : ascii)
    (m w : list ascii) (routes : gmap string RouteFn) :
  is_space c = false -> nospace (c :: m) = true -> nospace w = true ->
  let route := str ((c :: m) ++ " "%char :: w) in
  let method := toLowerCase (trim (str (c :: m))) in
  String.eqb method "crud" = false ->
  createMethod (S fuel) (JStr name) route routes
  = Ok (<[name := {| r_method := if String.eqb method "delete" then "del" else method;
                     r_uri := str w; r_options := JNull; r_route := route |}]> routes).
Proof.
  intros Hc Hm Hw route method Hcrud.
  destruct (sections_verb_path c m w Hc Hm Hw) as [Hmethod Hpath].
  fold route in Hmethod, Hpath. fold method in Hmethod.
  cbn [createMethod]. rewrite Hmethod, Hpath.
  cbn [mbind result_bind fst snd]. rewrite Hcrud. reflexivity.
Qed.

Lemma crud_route_chars (m u sfx : string) :
  m +:+ " " +:+ u +:+ sfx = str (chars m ++ " "%char :: (chars u ++ chars sfx)).
Proof.
  rewrite <- (str_chars (m +:+ " " +:+ u +:+ sfx)).
  rewrite !chars_append. reflexivity.
Qed.

(** The four inner calls a CRUD key makes. *)
Lemma createMethod_crud_member `{Host} (fuel : nat) (name u m : string)
    (routes : gmap string RouteFn) :
  nospace (chars u) = true -> In m crud ->
  createMethod (S fuel) (JStr name) (m +:+ " " +:+ u +:+ crud_suffix m) routes
  = Ok (<[name := generated (toLowerCase m) (u +:+ crud_suffix m)
                    (m +:+ " " +:+ u +:+ crud_suffix m)]> routes).
Proof.
  intros Hu Hm.
  assert (Hsfx : forall sfx, nospace (chars sfx) = true ->
                             nospace (chars u ++ chars sfx) = true).
  { intros sfx Hs. rewrite nospace_app, Hu, Hs. reflexivity. }
  unfold generated.
  destruct Hm as [<-|[<-|[<-|[<-|[]]]]];
    match goal with
    | |- context [crud_suffix ?m] =>
        let sfx := eval compute in (crud_suffix m) in
        change (crud_suffix m) with sfx;
        rewrite (crud_route_chars m u sfx)
    end.
  - rewrite (createMethod_verb_path fuel name "P"%char (chars "OST"))
      by (reflexivity || apply Hsfx; reflexivity).
    rewrite str_app, !str_chars. reflexivity.
  - rewrite (createMethod_verb_path fuel name "G"%char (chars "ET"))
      by (reflexivity || apply Hsfx; reflexivity).
    rewrite str_app, !str_chars. reflexivity.
  - rewrite (createMethod_verb_path fuel name "P"%char (chars "UT"))
      by (reflexivity || apply Hsfx; reflexivity).
    rewrite str_app, !str_chars. reflexivity.
  - rewrite (createMethod_verb_path fuel name "D"%char (chars "EL"))
      by (reflexivity || apply Hsfx; reflexivity).
    rewrite str_app, !str_chars. reflexivity.
Qed.

(** One level of [createMethod] on a CRUD key. *)
Lemma createMethod_crud_unfold `{Host} (fuel : nat) (options : jsval)
    (route : string) (routes : gmap string RouteFn) :
  route_method route = "crud" -> string_or_object options = true ->
  createMethod (S fuel) options route routes
  = fold_left
      (fun acc m =>
         routes ← acc;
         createMethod fuel (JStr (crudMethods m +:+ camelCase (mapped_name options)))
           (m +:+ " " +:+ route_path route +:+ crud_suffix m) routes)
      crud (Ok routes).
Proof.
  intros Hcrud Hopt. cbn [createMethod]. rewrite Hcrud.
  destruct options; try discriminate Hopt; reflexivity.
Qed.

(** A CRUD key adds its four methods to the table, whatever the table held. *)
Lemma createMethod_crud `{Host} (fuel : nat) (options : jsval) (route : string)
    (routes : gmap string RouteFn) :
  route_method route = "crud" -> string_or_object options = true ->
  createMethod (S (S fuel)) options route routes
  = Ok (crud_expansion (route_path route) (camelCase (mapped_name options)) routes).
Proof.
  intros Hcrud Hopt.
  rewrite createMethod_crud_unfold by assumption.
  pose proof (route_path_nospace route) as Hu.
  unfold crud. cbn [fold_left].
  cbn [mbind result_bind].
  rewrite (createMethod_crud_member fuel _ _ "POST") by (exact Hu || (simpl; tauto)).
  cbn [mbind result_bind].
  rewrite (createMethod_crud_member fuel _ _ "GET") by (exact Hu || (simpl; tauto)).
  cbn [mbind result_bind].
  rewrite (createMethod_crud_member fuel _ _ "PUT") by (exact Hu || (simpl; tauto)).
  cbn [mbind result_bind].
  rewrite (createMethod_crud_member fuel _ _ "DEL") by (exact Hu || (simpl; tauto)).
  unfold crud_expansion.
  change (crud_suffix "POST") with EmptyString.
  rewrite !append_empty_r. reflexivity.
Qed.

Lemma crud_key_sections (name : string) :
  nospace (chars name) = true ->
  route_method ("CRUD " +:+ name) = "crud" /\ route_path ("CRUD " +:+ name) = name.
Proof.
  intros Hname.
  change ("CRUD " +:+ name) with ("CRUD" +:+ " " +:+ name).
  rewrite <- (append_empty_r name) at 1 2.
  rewrite (crud_route_chars "CRUD" name EmptyString).
  destruct (sections_verb_path "C"%char (chars "RUD") (chars name ++ chars EmptyString))
    as [Hm Hp]; try reflexivity.
  { rewrite nospace_app, Hname. reflexivity. }
  cbv zeta in Hm, Hp. split.
  - transitivity (toLowerCase (trim (str ("C"%char :: chars "RUD"))));
      [exact Hm | reflexivity].
  - transitivity (str (chars name ++ chars EmptyString)); [exact Hp|].
    rewrite str_app, str_chars. apply append_empty_r.
Qed.

(** *** Calling a generated method *)

Lemma append_assoc (a b c : string) : (a +:+ b) +:+ c = a +:+ (b +:+ c).
Proof.
  induction a as [|x a IH]; [reflexivity|].
  change (String x ((a +:+ b) +:+ c) = String x (a +:+ (b +:+ c))).
  rewrite IH. reflexivity.
Qed.

(** What [data && data[name]] reads on a plain object. *)
Lemma member_read_object `{Host} (props : list (string * jsval)) (n : string) :
  member_read (JObj props) n
  = match obj_lookup n props with
    | Some v => if truthy v then Some (ToString v) else None
    | None => inherited (JObj props) n
    end.
Proof. reflexivity. Qed.

Lemma member_read_falsy `{Host} (data : jsval) (n : string) :
  truthy data = false -> member_read data n = None.
Proof. intros Hdata. unfold member_read. rewrite Hdata. reflexivity. Qed.

(** The replace callback, run over a whole template. *)
Lemma replace_all_spec `{Host} (route : string) (args : list jsval) (data : jsval)
    (ps : list piece) (st : rstate) :
  replace_all route args data ps st
  = match first_missing data (named ps) with
    | Some n => Throw (missing_param route n)
    | None =>
        Ok {| counter := counter st + positional ps;
              toDelete := toDelete st ++ named ps;
              replaced := replaced st +:+ substitute args data ps (counter st) |}
    end.
Proof.
  revert st. induction ps as [|p ps IH]; intros [n del out]; simpl.
  - rewrite Nat.add_0_r, app_nil_r, append_empty_r. reflexivity.
  - destruct p as [c|name]; simpl.
    + cbn [mbind result_bind]. rewrite IH. cbn [counter toDelete replaced].
      destruct (first_missing data (named ps)); [reflexivity|].
      rewrite append_assoc. reflexivity.
    + destruct (is_positional name) eqn:Hpos.
      * cbn [mbind result_bind]. rewrite IH. cbn [counter toDelete replaced].
        destruct (first_missing data (named ps)); [reflexivity|].
        rewrite append_assoc, Nat.add_succ_r. reflexivity.
      * unfold first_missing. cbn [List.find]. unfold no_member at 1.
        destruct (member_read data (str name)) as [text|]; [|reflexivity].
        cbn [mbind result_bind]. rewrite IH. cbn [counter toDelete replaced].
        unfold first_missing.
        destruct (List.find _ (named ps)); [reflexivity|].
        cbn [default]. rewrite append_assoc, <- app_assoc. reflexivity.
Qed.

Lemma get_fold_delete (names : list string) (v : jsval) (n : string) :
  js_get (fold_left js_delete names v) n
  = if existsb (String.eqb n) names then JUndefined else js_get v n.
Proof.
  revert v. induction names as [|m names IH]; intros v; simpl; [reflexivity|].
  rewrite IH. destruct v; simpl;
    try (destruct (String.eqb n m), (existsb (String.eqb n) names); reflexivity).
  rewrite lookup_obj_delete.
  destruct (String.eqb n m), (existsb (String.eqb n) names); reflexivity.
Qed.

(** A call either throws for the first named placeholder without a truthy
    member, or goes to the verb method with the substituted URI. *)
Lemma invoke_spec `{Host} (r : RouteFn) (args : list jsval) :
  invoke r args
  = match first_missing (arg args 0) (named (placeholders (r_uri r))) with
    | Some n => Throw (missing_param (r_route r) n)
    | None =>
        Ok {| c_method := r_method r;
              c_uri := substitute args (arg args 0) (placeholders (r_uri r)) 0;
              c_data := fold_left js_delete (named (placeholders (r_uri r)))
                          (js_or (arg args (positional (placeholders (r_uri r))))
                                 (JObj []));
              c_opts := merged_options r
                          (js_or (arg args (S (positional (placeholders (r_uri r)))))
                                 (JObj [])) |}
    end.
Proof.
  unfold invoke. rewrite replace_all_spec.
  destruct (first_missing (arg args 0) (named (placeholders (r_uri r))));
    reflexivity.
Qed.

(** C4, as amended.  A generated method replaces every named placeholder by
    the truthy member its first argument has under that name, and removes
    the names it consumed from the own properties of the outgoing body; when
    the first argument has no truthy member under the name of a placeholder
    the call throws the error that names the first such placeholder.  On a
    params object the member is the own value when the key is an own one (so
    a key with a falsy value throws), and otherwise what the object inherits
    under that name: a key that is missing throws only when nothing truthy
    is inherited under it. *)
Theorem invoke_substitutes_or_throws `{Host} (r : RouteFn) (args : list jsval) :
  let ps := placeholders (r_uri r) in
  let params := arg args 0 in
  let body := fold_left js_delete (named ps)
                (js_or (arg args (positional ps)) (JObj [])) in
  invoke r args
  = match first_missing params (named ps) with
    | Some n => Throw (missing_param (r_route r) n)
    | None =>
        Ok {| c_method := r_method r;
              c_uri := substitute args params ps 0;
              c_data := body;
              c_opts := merged_options r (js_or (arg args (S (positional ps))) (JObj [])) |}
    end
  /\ (forall n, In n (named ps) -> js_get body n = JUndefined)
  /\ (forall props n, params = JObj props ->
        member_read params n
        = match obj_lookup n props with
          | Some v => if truthy v then Some (ToString v) else None
          | None => inherited params n
          end)
  /\ (truthy params = false ->
      forall n others, named ps = n :: others ->
        invoke r args = Throw (missing_param (r_route r) n)).
Proof.
  intros ps params body. split; [apply invoke_spec|]. split; [|split].
  - intros n Hn. subst body. rewrite get_fold_delete.
    assert (Hex : existsb (String.eqb n) (named ps) = true).
    { apply existsb_exists. exists n. split; [exact Hn|apply String.eqb_refl]. }
    rewrite Hex. reflexivity.
  - intros props n ->. apply member_read_object.
  - intros Hfalsy n others Hnamed. rewrite invoke_spec. fold ps params.
    rewrite Hnamed. unfold first_missing. cbn [List.find]. unfold no_member.
    rewrite member_read_falsy by exact Hfalsy. reflexivity.
Qed.

Lemma invoke_substitutes_or_throws_witness :
  invoke (H := example_host) (generated "get" "foo/:id" "GET foo/:id")
    [JObj [("id", JInt 5); ("q", JStr "x")]]
  = Ok {| c_method := "get"; c_uri := "foo/5";
          c_data := JObj [("q", JStr "x")]; c_opts := JObj [] |}
  /\ js_get (JObj [("q", JStr "x")]) "id" = JUndefined.
Proof.
  destruct (@invoke_substitutes_or_throws example_host
              (generated "get" "foo/:id" "GET foo/:id")
              [JObj [("id", JInt 5); ("q", JStr "x")]]) as (Hcall & Hbody & _).
  split; [exact Hcall|].
  apply (Hbody "id"). left. reflexivity.
Defined.

(** C4 as stated fails for a key that is present with a falsy value: the
    route GET foo/:id called with [{id: 0}] throws instead of requesting
    foo/0. *)
Lemma present_key_counterexample :
  let r := generated "get" "foo/:id" "GET foo/:id" in
  obj_lookup "id" [("id", JInt 0)] = Some (JInt 0)
  /\ invoke (H := example_host) r [JObj [("id", JInt 0)]]
     = Throw "The route GET foo/:id must include id in your params".
Proof. split; reflexivity. Qed.

(** A key that is missing does not throw when the params inherit a member
    under its name: the empty object has a constructor, and a string has a
    length. *)
Lemma inherited_member_examples :
  invoke (H := example_host) (generated "get" "foo/:constructor" "GET foo/:constructor")
    [JObj []]
  = Ok {| c_method := "get"; c_uri := "foo/function Object() { [native code] }";
          c_data := JObj []; c_opts := JObj [] |}
  /\ invoke (H := example_host) (generated "get" "a/:length" "GET a/:length") [JStr "abc"]
     = Ok {| c_method := "get"; c_uri := "a/3"; c_data := JStr "abc"; c_opts := JObj [] |}
  /\ invoke (H := example_host) (generated "get" "a/:1" "GET a/:1") [JStr "abc"]
     = Ok {| c_method := "get"; c_uri := "a/b"; c_data := JStr "abc"; c_opts := JObj [] |}
  /\ invoke (H := example_host) (generated "get" "a/:id" "GET a/:id") [JStr "abc"]
     = Throw "The route GET a/:id must include id in your params".
Proof. repeat split; reflexivity. Qed.

(** The route GET foo/:id of the spec, compiled and called with [{id: 5}]:
    the call goes to [get] with foo/5 and an empty body; a transport that
    rejects with the options it is handed shows what it receives from the
    base class. *)
Lemma route_foo_id_example :
  createModelRequestMethods (H := example_host) 1 [("GET foo/:id", JStr "requestFoo")]
  = Ok {["requestFoo" := generated "get" "foo/:id" "GET foo/:id"]}
  /\ invoke (H := example_host) (generated "get" "foo/:id" "GET foo/:id")
       [JObj [("id", JInt 5)]]
     = Ok {| c_method := "get"; c_uri := "foo/5"; c_data := JObj []; c_opts := JObj [] |}
  /\ dispatch (H := example_host) BaseModel echo
       {| c_method := "get"; c_uri := "foo/5"; c_data := JObj []; c_opts := JObj [] |}
     = Some (Rejected (JObj [("type", JStr "GET"); ("data", JObj []);
                             ("url", JStr "/foo/5"); ("timeout", JInt 30000)])).
Proof. repeat split; reflexivity. Qed.

(** C10.  A named placeholder whose key is present in [params] with a falsy
    value makes the call throw the missing-parameter error: whether the
    parameter is there is decided by the truthiness of its value. *)
Theorem falsy_param_throws `{Host} (r : RouteFn) (args : list jsval)
    (props : list (string * jsval)) (name : string) (v : jsval) :
  arg args 0 = JObj props ->
  obj_lookup name props = Some v ->
  truthy v = false ->
  In name (named (placeholders (r_uri r))) ->
  exists n, In n (named (placeholders (r_uri r)))
            /\ truthy (js_get (JObj props) n) = false
            /\ invoke r args = Throw (missing_param (r_route r) n).
Proof.
  intros Hparams Hkey Hfalsy Hin.
  pose proof (invoke_spec r args) as Hinvoke.
  rewrite Hparams in Hinvoke.
  destruct (first_missing (JObj props) (named (placeholders (r_uri r))))
    as [n|] eqn:Hfirst.
  - unfold first_missing in Hfirst. apply find_some in Hfirst as [Hn Hnf].
    exists n. split; [exact Hn|]. split; [|exact Hinvoke].
    unfold no_member in Hnf. rewrite member_read_object in Hnf.
    cbn [js_get]. destruct (obj_lookup n props) as [w|]; [|reflexivity].
    change (truthy w = false). destruct (truthy w); [discriminate Hnf|reflexivity].
  - exfalso. unfold first_missing in Hfirst.
    apply (find_none _ _ Hfirst) in Hin.
    unfold no_member in Hin. rewrite member_read_object, Hkey, Hfalsy in Hin.
    discriminate.
Qed.

Lemma falsy_param_throws_witness :
  exists n, In n (named (placeholders "foo/:id"))
            /\ truthy (js_get (JObj [("id", JInt 0)]) n) = false
            /\ invoke (H := example_host) (generated "get" "foo/:id" "GET foo/:id")
                 [JObj [("id", JInt 0)]]
               = Throw (missing_param "GET foo/:id" n).
Proof.
  apply (@falsy_param_throws example_host (generated "get" "foo/:id" "GET foo/:id")
           [JObj [("id", JInt 0)]] [("id", JInt 0)] "id" (JInt 0));
    try reflexivity.
  left. reflexivity.
Defined.

(** Falsy values of other kinds, on the same route. *)
Lemma falsy_param_examples :
  let r := generated "get" "foo/:id" "GET foo/:id" in
  let thrown := Throw "The route GET foo/:id must include id in your params" in
  invoke (H := example_host) r [JObj [("id", JStr EmptyString)]] = thrown
  /\ invoke (H := example_host) r [JObj [("id", JNull)]] = thrown
  /\ invoke (H := example_host) r [JObj [("id", JBool false)]] = thrown
  /\ invoke (H := example_host) r [JObj []] = thrown
  /\ invoke (H := example_host) r [] = thrown.
Proof. repeat split; reflexivity. Qed.

Ltac distinct_keys :=
  first [assumption | apply not_eq_sym; assumption].

(** C3, as amended.  A CRUD key with a path free of white space, mapped to a
    string or to an object with an [fn], generates exactly four methods:
    requestCreate, requestOne, requestUpdate and requestDelete followed by
    the camel-cased form of the name the key is mapped to (the string, or the
    object's [fn]), bound to POST path, GET path/:$0, PUT path/:id and the
    delete shorthand on path/:id.  Nothing else enters the table. *)
Theorem crud_generates_four_methods `{Host} (fuel : nat) (path : string)
    (options : jsval) :
  nospace (chars path) = true ->
  string_or_object options = true ->
  let name := camelCase (mapped_name options) in
  exists routes,
    createModelRequestMethods (S (S fuel)) [("CRUD " +:+ path, options)] = Ok routes
    /\ routes !! ("requestCreate" +:+ name)
       = Some (generated "post" path ("POST " +:+ path))
    /\ routes !! ("requestOne" +:+ name)
       = Some (generated "get" (path +:+ "/:$0") ("GET " +:+ path +:+ "/:$0"))
    /\ routes !! ("requestUpdate" +:+ name)
       = Some (generated "put" (path +:+ "/:id") ("PUT " +:+ path +:+ "/:id"))
    /\ routes !! ("requestDelete" +:+ name)
       = Some (generated "del" (path +:+ "/:id") ("DEL " +:+ path +:+ "/:id"))
    /\ size routes = 4%nat
    /\ forall prior,
         createMethod (S (S fuel)) options ("CRUD " +:+ path) prior
         = Ok (crud_expansion path name prior).
Proof.
  intros Hpath Hopt name.
  destruct (crud_key_sections path Hpath) as [Hmethod Hp].
  assert (Hcreate : forall prior,
             createMethod (S (S fuel)) options ("CRUD " +:+ path) prior
             = Ok (crud_expansion path name prior)).
  { intros prior. rewrite createMethod_crud by assumption. rewrite Hp. reflexivity. }
  assert (Hco : "requestCreate" +:+ name <> "requestOne" +:+ name)
    by (cbv [String.append]; discriminate).
  assert (Hcu : "requestCreate" +:+ name <> "requestUpdate" +:+ name)
    by (cbv [String.append]; discriminate).
  assert (Hcd : "requestCreate" +:+ name <> "requestDelete" +:+ name)
    by (cbv [String.append]; discriminate).
  assert (Hou : "requestOne" +:+ name <> "requestUpdate" +:+ name)
    by (cbv [String.append]; discriminate).
  assert (Hod : "requestOne" +:+ name <> "requestDelete" +:+ name)
    by (cbv [String.append]; discriminate).
  assert (Hud : "requestUpdate" +:+ name <> "requestDelete" +:+ name)
    by (cbv [String.append]; discriminate).
  exists (crud_expansion path name ∅).
  split; [|split; [|split; [|split; [|split; [|split]]]]].
  - unfold createModelRequestMethods. cbn [fold_left mbind result_bind fst snd].
    apply Hcreate.
  - unfold crud_expansion. rewrite !lookup_insert_ne by distinct_keys.
    apply lookup_insert_eq.
  - unfold crud_expansion. rewrite !lookup_insert_ne by distinct_keys.
    apply lookup_insert_eq.
  - unfold crud_expansion. rewrite lookup_insert_ne by distinct_keys.
    apply lookup_insert_eq.
  - unfold crud_expansion. apply lookup_insert_eq.
  - unfold crud_expansion.
    rewrite !map_size_insert_None, map_size_empty; [reflexivity|..];
      rewrite ?lookup_insert_ne by distinct_keys; apply lookup_empty.
  - exact Hcreate.
Qed.

Lemma crud_generates_four_methods_witness :
  exists routes,
    createModelRequestMethods (H := example_host) 2 [("CRUD document", JStr "Document")]
    = Ok routes
    /\ routes !! "requestCreateDocument"
       = Some (generated "post" "document" "POST document")
    /\ routes !! "requestOneDocument"
       = Some (generated "get" "document/:$0" "GET document/:$0")
    /\ routes !! "requestUpdateDocument"
       = Some (generated "put" "document/:id" "PUT document/:id")
    /\ routes !! "requestDeleteDocument"
       = Some (generated "del" "document/:id" "DEL document/:id")
    /\ size routes = 4%nat
    /\ forall prior,
         createMethod (H := example_host) 2 (JStr "Document") "CRUD document" prior
         = Ok (crud_expansion "document" "Document" prior).
Proof.
  apply (@crud_generates_four_methods example_host 0 "document" (JStr "Document"));
    reflexivity.
Defined.

(** C3 as stated fails when the key is mapped to another name than its path:
    the methods are named after the value.  The key CRUD widget mapped to
    Gadget generates requestCreateGadget and no requestCreateWidget. *)
Lemma crud_name_counterexample :
  match createModelRequestMethods (H := example_host) 2 [("CRUD widget", JStr "Gadget")] with
  | Ok routes =>
      routes !! "requestCreateWidget" = None
      /\ routes !! "requestCreateGadget" = Some (generated "post" "widget" "POST widget")
      /\ camelCase_model (JStr "widget") = "Widget"
  | _ => False
  end.
Proof. vm_compute. repeat split; reflexivity. Qed.

(** ** Parser lookup *)







(** Two entries for the same URI, one in the base class's subclass and one
    in a subclass of that: the most derived one answers. *)
Lemma most_derived_parser_wins :
  let regexp := fun path u => String.eqb path u in
  let parent :=
    extend regexp BaseModel (Some [("GET docs", fun _ _ => Value (JStr "parent"))]) in
  let child := extend regexp parent (Some [("docs", fun _ _ => Value (JStr "child"))]) in
  (fun f => f JNull JNull) <$> getParser parent "docs" (JStr "GET")
  = Some (Value (JStr "parent"))
  /\ (fun f => f JNull JNull) <$> getParser child "docs" (JStr "GET")
     = Some (Value (JStr "child"))
  /\ (fun f => f JNull JNull) <$> getParser parent "docs" (JStr "POST") = None
  /\ (fun f => f JNull JNull) <$> getParser child "other" (JStr "GET") = None.
Proof. repeat split; reflexivity. Qed.

(** ** Deferred view pushes *)

Section Deferred.
Variable this : Controller.
Variable conf : SyncConf.

Lemma updateView_idle_or_pending (prev : jsval) (s : Binding) :
  idle s \/ (exists p, pending this conf p s) ->
  idle (updateView this conf prev s)
  \/ exists p, pending this conf p (updateView this conf prev s).
Proof.
  intros Hs. unfold updateView.
  destruct (member_truthy this (fnView conf)) eqn:Hmember; [|exact Hs].
  destruct (available s) eqn:Hav.
  - destruct Hs as [[Hl Hh]|(p & Hl & Hh & Ha & _)]; [|congruence].
    left. split; assumption.
  - unfold updateOnAvaible.
    destruct (hasListened s) eqn:Hh; [exact Hs|].
    destruct Hs as [[Hl _]|(p & _ & Hh' & _)]; [|congruence].
    right. exists prev. unfold pending; simpl. rewrite Hl. auto.
Qed.

(** Whether a push waits depends on three fields only. *)
Lemma idle_or_pending_ext (s s' : Binding) :
  listeners s' = listeners s -> hasListened s' = hasListened s ->
  available s' = available s ->
  idle s \/ (exists p, pending this conf p s) ->
  idle s' \/ exists p, pending this conf p s'.
Proof.
  unfold idle, pending. intros -> -> -> Hs. exact Hs.
Qed.

Lemma on_change_idle_or_pending (pass : bool) (s : Binding) :
  idle s \/ (exists p, pending this conf p s) ->
  idle (on_change this conf pass s)
  \/ exists p, pending this conf p (on_change this conf pass s).
Proof.
  intros Hs. unfold on_change.
  destruct (negb (customFilter conf) || pass); [|exact Hs].
  match goal with
  | |- context [updateView this conf ?prev ?s0] =>
      assert (Hs0 : idle s0 \/ exists p, pending this conf p s0);
      [|apply (updateView_idle_or_pending prev) in Hs0;
        revert Hs0; apply idle_or_pending_ext; reflexivity]
  end.
  destruct (member_truthy this (fnController conf)), (fn conf);
    revert Hs; apply idle_or_pending_ext; reflexivity.
Qed.

Lemma step_idle_or_pending (e : Event) (s : Binding) :
  idle s \/ (exists p, pending this conf p s) ->
  idle (step this conf s e) \/ exists p, pending this conf p (step this conf s e).
Proof.
  intros Hs. destruct e as [v pass|b]; simpl.
  - apply on_change_idle_or_pending.
    revert Hs. apply idle_or_pending_ext; reflexivity.
  - destruct Hs as [[Hl Hh]|(p & Hl & Hh & Ha & Hm)]; rewrite Hl; simpl.
    + left. split; [reflexivity | exact Hh].
    + unfold on_available. apply updateView_idle_or_pending.
      left. split; reflexivity.
Qed.

Lemma run_idle_or_pending (evs : list Event) (s : Binding) :
  idle s \/ (exists p, pending this conf p s) ->
  idle (run this conf evs s) \/ exists p, pending this conf p (run this conf evs s).
Proof.
  revert s. induction evs as [|e evs IH]; intros s Hs; simpl; [exact Hs|].
  apply IH. apply step_idle_or_pending. exact Hs.
Qed.

Lemma sync_idle_or_pending (v0 : jsval) (a0 pass pass' : bool) :
  idle (sync this conf v0 a0 pass pass')
  \/ exists p, pending this conf p (sync this conf v0 a0 pass pass').
Proof.
  unfold sync.
  match goal with
  | |- context [if trigger conf then on_change this conf pass' ?s1 else _] =>
      assert (H1 : idle s1 \/ exists p, pending this conf p s1)
  end.
  { destruct (triggerView conf && (negb (customFilter conf) || pass)).
    - apply updateView_idle_or_pending. left. split; reflexivity.
    - left. split; reflexivity. }
  match goal with
  | |- context [getter ?s2] =>
      assert (H2 : idle s2 \/ exists p, pending this conf p s2)
  end.
  { destruct (trigger conf); [apply on_change_idle_or_pending|]; exact H1. }
  revert H2. apply idle_or_pending_ext; reflexivity.
Qed.

(** At most one deferred push waits on a binding, whatever has happened. *)
Lemma at_most_one_pending (v0 : jsval) (a0 pass pass' : bool) (evs : list Event) :
  (length (listeners (run this conf evs (sync this conf v0 a0 pass pass'))) <= 1)%nat.
Proof.
  destruct (run_idle_or_pending evs _ (sync_idle_or_pending v0 a0 pass pass'))
    as [[Hl _]|(p & Hl & _)]; rewrite Hl; simpl; lia.
Qed.

Lemma view_calls_log (c : HandlerCall) (s : Binding) :
  view_calls (log c s)
  = (view_calls s ++ if is_view_call c then [c] else [])%list.
Proof.
  unfold view_calls, log; simpl. rewrite List.filter_app. simpl.
  destruct (is_view_call c); reflexivity.
Qed.

(** While a push waits, a change notification leaves it as it is and
    reaches no view handler. *)
Lemma on_change_pending (p : jsval) (pass : bool) (s : Binding) :
  pending this conf p s ->
  pending this conf p (on_change this conf pass s)
  /\ view_calls (on_change this conf pass s) = view_calls s.
Proof.
  intros (Hl & Hh & Ha & Hm).
  destruct s as [v pv hl ls av cs]; simpl in Hl, Hh, Ha; subst.
  unfold on_change, updateView, updateOnAvaible, pending.
  destruct (negb (customFilter conf) || pass); [|simpl; auto].
  destruct (member_truthy this (fnController conf)), (fn conf);
    cbn [log value previousValue hasListened listeners available calls getter];
    rewrite Hm; cbn [log value previousValue hasListened listeners available calls];
    (split; [auto|]);
    unfold view_calls; cbn [calls]; rewrite ?List.filter_app; simpl;
    rewrite ?app_nil_r; reflexivity.
Qed.

Lemma run_changes_pending (p : jsval) (changes : list Event) (s : Binding) :
  forallb is_change changes = true ->
  pending this conf p s ->
  pending this conf p (run this conf changes s)
  /\ view_calls (run this conf changes s) = view_calls s.
Proof.
  revert s. induction changes as [|e changes IH]; intros s Hall Hs; simpl.
  - auto.
  - simpl in Hall. apply andb_true_iff in Hall as [He Hall].
    destruct e as [v pass|b]; [|discriminate He]. simpl.
    match goal with
    | |- context [on_change this conf pass ?s0] =>
        assert (Hs0 : pending this conf p s0) by exact Hs;
        destruct (on_change_pending p pass s0 Hs0) as [Hp Hv]
    end.
    destruct (IH _ Hall Hp) as [Hp' Hv'].
    split; [exact Hp'|]. rewrite Hv'. exact Hv.
Qed.

(** When the view announces that it is available, the waiting push is
    replayed once, with the value read at that time and the [prev] the
    listener captured. *)
Lemma replay_pending (p : jsval) (s : Binding) :
  pending this conf p s ->
  step this conf s (ViewAvailable true)
  = {| value := value s; previousValue := previousValue s;
       hasListened := false; listeners := []; available := true;
       calls := calls s ++ [CallView (fnView conf) (value s) p] |}.
Proof.
  intros (Hl & Hh & Ha & Hm). simpl. rewrite Hl. simpl.
  unfold on_available, updateView. rewrite Hm. reflexivity.
Qed.

(** A change that finds no push waiting and the view unavailable registers
    one, with the previous value of that moment. *)
Lemma first_deferral_captures_previous (v : jsval) (pass : bool) (s : Binding) :
  idle s -> available s = false ->
  member_truthy this (fnView conf) = true ->
  negb (customFilter conf) || pass = true ->
  pending this conf (previousValue s) (step this conf s (Change v pass)).
Proof.
  intros [Hl Hh] Ha Hm Hpass.
  destruct s as [v0 pv hl ls av cs]; simpl in Hl, Hh, Ha; subst.
  unfold pending. simpl. unfold on_change. rewrite Hpass.
  unfold updateView, updateOnAvaible.
  destruct (member_truthy this (fnController conf)), (fn conf);
    cbn [log value previousValue hasListened listeners available calls getter];
    rewrite Hm; cbn; auto.
Qed.

(** C1, as amended.  While the view is unavailable at most one deferred push
    waits on a binding.  Once one waits, further change notifications
    register nothing: the push that waits is the first one registered, no
    view handler runs, and when the view announces its availability that
    push is replayed once, with the value current at that time and the
    previous value captured when it was registered. *)
Theorem deferred_push_first_registered_wins (v0 : jsval) (a0 pass pass' : bool)
    (evs changes : list Event) (p : jsval) :
  let s := run this conf evs (sync this conf v0 a0 pass pass') in
  listeners s = [p] ->
  forallb is_change changes = true ->
  let s' := run this conf changes s in
  listeners s' = [p]
  /\ view_calls s' = view_calls s
  /\ step this conf s' (ViewAvailable true)
     = {| value := value s'; previousValue := previousValue s';
          hasListened := false; listeners := []; available := true;
          calls := calls s' ++ [CallView (fnView conf) (value s') p] |}
  /\ forall evs',
       (length (listeners (run this conf evs' (sync this conf v0 a0 pass pass')))
        <= 1)%nat.
Proof.
  intros s Hl Hall s'.
  assert (Hp : pending this conf p s).
  { destruct (run_idle_or_pending evs _ (sync_idle_or_pending v0 a0 pass pass'))
      as [[Hl' _]|(q & Hq)].
    - fold s in Hl'. congruence.
    - fold s in Hq. destruct Hq as (Hlq & Hrest).
      assert (q = p) by congruence. subst q. split; assumption. }
  destruct (run_changes_pending p changes s Hall Hp) as [Hp' Hv].
  fold s' in Hp', Hv.
  split; [exact (proj1 Hp')|]. split; [exact Hv|]. split.
  - apply replay_pending. exact Hp'.
  - intros evs'. apply at_most_one_pending.
Qed.
End Deferred.

Lemma deferred_push_first_registered_wins_witness :
  let this := title_controller in
  let conf := title_conf_no_initial_push in
  let s := run this conf [Change (JStr "A") true]
             (sync this conf (JStr "v0") false true true) in
  let s' := run this conf [Change (JStr "B") true] s in
  listeners s' = [JStr "v0"]
  /\ view_calls s' = view_calls s
  /\ step this conf s' (ViewAvailable true)
     = {| value := value s'; previousValue := previousValue s';
          hasListened := false; listeners := []; available := true;
          calls := calls s' ++ [CallView (fnView conf) (value s') (JStr "v0")] |}
  /\ forall evs',
       (length (listeners (run this conf evs' (sync this conf (JStr "v0") false true true)))
        <= 1)%nat.
Proof.
  apply (deferred_push_first_registered_wins title_controller
           title_conf_no_initial_push (JStr "v0") false true true
           [Change (JStr "A") true] [Change (JStr "B") true] (JStr "v0"));
    reflexivity.
Defined.

(** C1 as stated fails: of two changes made while the view is unavailable,
    the second hands [updateView] the previous value A, but the push that
    waits, and that is replayed, is the one the first change registered, with
    the previous value v0. *)
Lemma last_deferral_counterexample :
  let this := title_controller in
  let conf := title_conf_no_initial_push in
  let s0 := sync this conf (JStr "v0") false true true in
  let s1 := step this conf s0 (Change (JStr "A") true) in
  let s2 := step this conf s1 (Change (JStr "B") true) in
  let s3 := step this conf s2 (ViewAvailable true) in
  previousValue s1 = JStr "A"
  /\ listeners s2 = [JStr "v0"]
  /\ view_calls s3 = [CallView "refreshTitlePropertyOnView" (JStr "B") (JStr "v0")]
  /\ view_calls s3 <> [CallView "refreshTitlePropertyOnView" (JStr "B") (JStr "A")].
Proof.
  repeat split; try reflexivity.
  vm_compute. discriminate.
Qed.

(** ** The title scenario *)

Lemma sync_title_conf `{Host} (this : Controller) :
  camelCaseFromNamespace (JStr "title") = "Title" ->
  sync_conf this "title" SyncNothing false
  = {| fnController := "titleDidChange";
       fnView := "refreshTitlePropertyOnView";
       customFilter := false; fn := false;
       triggerView := true; trigger := false |}.
Proof.
  intros Hcamel. unfold sync_conf. cbn [no_options o_targetHandler o_viewHandler
    o_filter o_fn o_triggerView o_trigger or_default is_undefined strict_true orb].
  rewrite Hcamel. reflexivity.
Qed.

(** C5.  On a controller that has both handlers, [sync('title')] with the
    view unavailable and the title not set yet calls nothing; setting the
    title to Hello then calls titleDidChange(Hello, undefined) at once and no
    view handler; the view handler refreshTitlePropertyOnView runs when the
    view announces its availability, with (Hello, undefined). *)
Theorem sync_title_scenario `{Host} (this : Controller) :
  camelCaseFromNamespace (JStr "title") = "Title" ->
  member_truthy this "titleDidChange" = true ->
  member_truthy this "refreshTitlePropertyOnView" = true ->
  let conf := sync_conf this "title" SyncNothing false in
  let s0 := sync this conf JUndefined false true true in
  let s1 := step this conf s0 (Change (JStr "Hello") true) in
  let s2 := step this conf s1 (ViewAvailable true) in
  calls s0 = []
  /\ calls s1 = [CallController "titleDidChange" (JStr "Hello") JUndefined]
  /\ calls s2 = [CallController "titleDidChange" (JStr "Hello") JUndefined;
                 CallView "refreshTitlePropertyOnView" (JStr "Hello") JUndefined].
Proof.
  intros Hcamel Hc Hv conf. subst conf. rewrite (sync_title_conf this Hcamel).
  set (conf := {| fnController := "titleDidChange";
                  fnView := "refreshTitlePropertyOnView";
                  customFilter := false; fn := false;
                  triggerView := true; trigger := false |}).
  intros s0.
  assert (E0 : s0 = {| value := JUndefined; previousValue := JUndefined;
                       hasListened := true; listeners := [JUndefined];
                       available := false; calls := [] |}).
  { subst s0. unfold sync, updateView. cbn [conf fnView triggerView customFilter
      trigger andb orb negb available]. rewrite Hv. reflexivity. }
  clearbody s0. subst s0. intros s1.
  assert (E1 : s1 = {| value := JStr "Hello"; previousValue := JStr "Hello";
                       hasListened := true; listeners := [JUndefined];
                       available := false;
                       calls := [CallController "titleDidChange" (JStr "Hello")
                                   JUndefined] |}).
  { subst s1. unfold step, on_change. cbn [conf fnController customFilter fn
      andb orb negb]. rewrite Hc.
    unfold updateView. cbn [conf fnView log available]. rewrite Hv. reflexivity. }
  clearbody s1. subst s1. intros s2.
  assert (E2 : s2 = {| value := JStr "Hello"; previousValue := JStr "Hello";
                       hasListened := false; listeners := [];
                       available := true;
                       calls := [CallController "titleDidChange" (JStr "Hello")
                                   JUndefined;
                                 CallView "refreshTitlePropertyOnView"
                                   (JStr "Hello") JUndefined] |}).
  { subst s2. unfold step. cbn [listeners fold_left]. unfold on_available, updateView.
    cbn [conf fnView available]. rewrite Hv. reflexivity. }
  clearbody s2. subst s2. repeat split; reflexivity.
Qed.

Lemma sync_title_scenario_witness :
  let this := title_controller in
  let conf := title_conf in
  let s0 := sync this conf JUndefined false true true in
  let s1 := step this conf s0 (Change (JStr "Hello") true) in
  let s2 := step this conf s1 (ViewAvailable true) in
  calls s0 = []
  /\ calls s1 = [CallController "titleDidChange" (JStr "Hello") JUndefined]
  /\ calls s2 = [CallController "titleDidChange" (JStr "Hello") JUndefined;
                 CallView "refreshTitlePropertyOnView" (JStr "Hello") JUndefined].
Proof.
  apply (@sync_title_scenario example_host title_controller); reflexivity.
Defined.

(** With a title that already holds a value when [sync] is called, the
    controller handler is given that value as the previous one; the view
    handler is still given undefined, the [prev] of the push deferred at bind
    time. *)
Lemma sync_title_with_initial_value :
  let this := title_controller in
  let conf := title_conf in
  let s0 := sync this conf (JStr "Old") false true true in
  let s1 := step this conf s0 (Change (JStr "Hello") true) in
  let s2 := step this conf s1 (ViewAvailable true) in
  calls s2 = [CallController "titleDidChange" (JStr "Hello") (JStr "Old");
              CallView "refreshTitlePropertyOnView" (JStr "Hello") JUndefined].
Proof. reflexivity. Qed.

(** ** Unload *)

Lemma pop_all_spec (stack : list string) (done : list Effect) :
  pop_all stack done = (done ++ map Teardown stack)%list.
Proof.
  revert done. induction stack as [|c stack IH]; intros done; simpl.
  - rewrite app_nil_r. reflexivity.
  - rewrite IH, <- app_assoc. reflexivity.
Qed.

(** C9.  [unload] on a controller that is already unloaded changes nothing;
    otherwise it runs the teardown callbacks from the last registered to the
    first, empties their array, marks the controller unloaded, fires unload
    and unloads the view.  Either way a second [unload] changes nothing,
    whatever callback it is given. *)
Theorem unload_idempotent (cb cb' : jsval) (s : ControllerState) :
  let once := fst (unload cb s) in
  unload cb' once = (once, Normal)
  /\ once
     = if strict_true (_unloaded s) then s
       else {| _unloaded := JBool true; _unbind := []; view := view s;
               effects := (effects s ++ map Teardown (rev (_unbind s))
                           ++ [Trigger "unload"]
                           ++ match view s with
                              | Some v => [ViewUnload v cb]
                              | None => []
                              end)%list |}.
Proof.
  intros once.
  assert (Honce : once
     = if strict_true (_unloaded s) then s
       else {| _unloaded := JBool true; _unbind := []; view := view s;
               effects := (effects s ++ map Teardown (rev (_unbind s))
                           ++ [Trigger "unload"]
                           ++ match view s with
                              | Some v => [ViewUnload v cb]
                              | None => []
                              end)%list |}).
  { subst once. unfold unload.
    destruct (strict_true (_unloaded s)); simpl; [reflexivity|].
    rewrite pop_all_spec.
    destruct (view s); simpl; rewrite <- ?app_assoc; simpl;
      rewrite ?app_nil_r; reflexivity. }
  split; [|exact Honce].
  rewrite Honce. unfold unload.
  destruct (strict_true (_unloaded s)) eqn:Hun; simpl.
  - rewrite Hun. reflexivity.
  - reflexivity.
Qed.

(** [destroy] leaves the controller unloaded. *)
Lemma destroy_unloads (s : ControllerState) :
  _unloaded (fst (destroy s)) = JBool true.
Proof.
  unfold destroy.
  destruct (strict_true (_unloaded s)) eqn:Hun; simpl.
  - destruct (_unloaded s) as [| |[]| | |]; try discriminate Hun. reflexivity.
  - unfold unload. rewrite Hun. simpl. destruct (view s); reflexivity.
Qed.

(** * Further properties *)

(** ** Options and defaults *)

Lemma get_defaults_props (o src : list (string * jsval)) (k : string) :
  js_get (JObj (defaults_props o src)) k
  = if is_undefined (js_get (JObj o) k) then first_defined k src
    else js_get (JObj o) k.
Proof.
  unfold defaults_props. revert o.
  induction src as [|[k0 v] src IH]; intros o; cbn [fold_left first_defined].
  - destruct (is_undefined (js_get (JObj o) k)) eqn:Hu; [|reflexivity].
    destruct (js_get (JObj o) k); try discriminate Hu. reflexivity.
  - rewrite IH, get_fill.
    destruct (String.eqb_spec k k0) as [->|Hne]; cbn [andb].
    + destruct (is_undefined (js_get (JObj o) k0)) eqn:Hu.
      * destruct (is_undefined v) eqn:Hv; cbn [negb]; [reflexivity|].
        reflexivity.
      * rewrite Hu. reflexivity.
    + reflexivity.
Qed.

Lemma truthy_or_object (v : jsval) : truthy (js_or v (JObj [])) = true.
Proof. unfold js_or. destruct (truthy v) eqn:Hv; [exact Hv | reflexivity]. Qed.

Lemma or_object_is_object (p : option (list (string * jsval))) :
  exists props, js_or (options_of p) (JObj []) = JObj props
                /\ forall k, js_get (JObj props) k = js_get (options_of p) k.
Proof. destruct p as [props|]; simpl; eauto. Qed.

(** ** The request engine, further *)

Lemma owned_false (k : string) :
  request_owned k = false ->
  String.eqb k "data" = false /\ String.eqb k "url" = false
  /\ String.eqb k "timeout" = false /\ String.eqb k "contentType" = false
  /\ String.eqb k "processData" = false.
Proof.
  unfold request_owned. intros Hk.
  repeat (apply orb_false_iff in Hk as [Hk ?]). auto.
Qed.

Lemma request_options_keeps `{Host} (cls : ModelClass) (u : string)
    (params : jsval) (p : option (list (string * jsval))) (k : string) :
  request_owned k = false ->
  js_get (request_options cls u params (options_of p)) k = js_get (options_of p) k.
Proof.
  intros Hk. destruct (owned_false k Hk) as (Hd & Hu & Ht & Hc & Hp).
  destruct (or_object_is_object p) as (props & Hobj & Hget).
  unfold request_options. rewrite Hobj, defaults_two. cbn [js_put].
  destruct (truthy (js_get (JObj (obj_set "timeout" (getAjaxTimeout cls) _)) "jsonBody")).
  - rewrite !js_get_set, Hp, Hd, Hc, Ht, !get_fill, Hu, Hd. cbn [andb]. apply Hget.
  - rewrite js_get_set, Ht, !get_fill, Hu, Hd. cbn [andb]. apply Hget.
Qed.

(** X1.  [request] hands to the transport every option of the caller that it
    does not write itself ([data], [url], [timeout], [contentType] and
    [processData]) exactly as it was given, and what reaches the transport
    under [timeout] is never the caller's value but the class's. *)
Theorem request_passes_other_options `{Host} (cls : ModelClass) (u : string)
    (params : jsval) (p : option (list (string * jsval))) (k : string) :
  request_owned k = false ->
  js_get (request_options cls u params (options_of p)) k = js_get (options_of p) k
  /\ js_get (request_options cls u params (options_of p)) "timeout"
     = getAjaxTimeout cls
  /\ request cls echo u params (options_of p)
     = Rejected (request_options cls u params (options_of p)).
Proof.
  intros Hk. split; [|split].
  - apply request_options_keeps. exact Hk.
  - apply request_options_timeout.
  - apply request_echo.
Qed.

Lemma request_passes_other_options_witness :
  js_get (request_options (H := example_host) BaseModel "docs" JUndefined
            (options_of (Some [("type", JStr "PATCH"); ("jsonBody", JBool true)])))
         "type"
  = JStr "PATCH".
Proof.
  apply (@request_passes_other_options example_host BaseModel "docs" JUndefined
           (Some [("type", JStr "PATCH"); ("jsonBody", JBool true)]) "type").
  reflexivity.
Defined.

(** X2.  Without [jsonBody] the body goes out as it is: the caller's
    [options.data] when there is one, the params (an empty object when they
    are falsy) otherwise. *)
Theorem request_body_without_json `{Host} (cls : ModelClass) (u : string)
    (params : jsval) (p : option (list (string * jsval))) :
  truthy (js_get (options_of p) "jsonBody") = false ->
  js_get (request_options cls u params (options_of p)) "data"
  = (if is_undefined (js_get (options_of p) "data")
     then js_or params (JObj []) else js_get (options_of p) "data")
  /\ request cls echo u params (options_of p)
     = Rejected (request_options cls u params (options_of p)).
Proof.
  intros Hjson. split; [|apply request_echo].
  destruct (or_object_is_object p) as (props & Hobj & Hget).
  unfold request_options. rewrite Hobj, defaults_two. cbn [js_put].
  rewrite js_get_set, !get_fill. cbn [String.eqb Ascii.eqb Bool.eqb andb].
  rewrite Hget, Hjson.
  rewrite js_get_set, !get_fill. cbn [String.eqb Ascii.eqb Bool.eqb andb].
  rewrite !Hget.
  destruct (is_undefined (js_get (options_of p) "data")); reflexivity.
Qed.

Lemma request_body_without_json_witness :
  js_get (request_options (H := example_host) BaseModel "docs" (JObj [("a", JInt 1)])
            (options_of (Some [("type", JStr "GET")]))) "data"
  = JObj [("a", JInt 1)].
Proof.
  apply (@request_body_without_json example_host BaseModel "docs"
           (JObj [("a", JInt 1)]) (Some [("type", JStr "GET")])).
  reflexivity.
Defined.

(** X3.  The URL of a request is the caller's [options.url] when there is
    one; otherwise it is [rootUrl], or [rootURI] when [rootUrl] is falsy,
    followed by the uri.  [generateLink] always builds on [rootURI]. *)
Theorem request_url `{Host} (cls : ModelClass) (u : string) (params : jsval)
    (p : option (list (string * jsval))) (protocol host : string) :
  js_get (request_options cls u params (options_of p)) "url"
  = (if is_undefined (js_get (options_of p) "url")
     then JStr (ToString (if truthy (rootUrl cls) then rootUrl cls else rootURI cls) +:+ u)
     else js_get (options_of p) "url")
  /\ generateLink cls protocol host u
     = protocol +:+ "//" +:+ host +:+ ToString (rootURI cls) +:+ u
  /\ request cls echo u params (options_of p)
     = Rejected (request_options cls u params (options_of p)).
Proof.
  split; [|split; [reflexivity|apply request_echo]].
  destruct (or_object_is_object p) as (props & Hobj & Hget).
  unfold request_options. rewrite Hobj, defaults_two. cbn [js_put].
  destruct (truthy (js_get (JObj (obj_set "timeout" (getAjaxTimeout cls) _)) "jsonBody")).
  - rewrite !js_get_set. cbn [String.eqb Ascii.eqb Bool.eqb andb].
    rewrite !get_fill. cbn [String.eqb Ascii.eqb Bool.eqb andb].
    rewrite !Hget. unfold js_or.
    destruct (is_undefined (js_get (options_of p) "url")); reflexivity.
  - rewrite js_get_set. cbn [String.eqb Ascii.eqb Bool.eqb andb].
    rewrite !get_fill. cbn [String.eqb Ascii.eqb Bool.eqb andb].
    rewrite !Hget. unfold js_or.
    destruct (is_undefined (js_get (options_of p) "url")); reflexivity.
Qed.

(** X4.  A promise of [request] resolves with a falsy value only by
    adoption: when it does, the modelizer of the request (the parser found
    for the uri and the type, or else the default handler) has returned a
    promise resolved with that value.  A plain value that a modelizer
    returns is replaced by the empty object when it is falsy. *)
Theorem request_resolves_falsy_only_by_adoption `{Host} (cls : ModelClass)
    (ajax : jsval -> list jsval + jsval) (u : string) (params options v : jsval) :
  request cls ajax u params options = Resolved v ->
  truthy v = false ->
  exists payload,
    modelizer cls u (js_get (request_options cls u params options) "type") payload
      (js_or params (JObj []))
    = Thenable (Resolved v).
Proof.
  unfold request.
  destruct (ajax _) as [args|reason]; [|discriminate].
  destruct (processResponse cls _ _ _) as [payload|payload]; [|discriminate].
  intros Hres Hfalsy. exists payload.
  destruct (modelizer cls u _ payload _) as [w|p]; cbn [adopt] in Hres.
  - injection Hres as <-. rewrite truthy_or_object in Hfalsy. discriminate.
  - rewrite Hres. reflexivity.
Qed.

Lemma request_resolves_falsy_only_by_adoption_witness :
  exists payload,
    modelizer example_promising_class "docs"
      (js_get (request_options (H := example_host) example_promising_class "docs"
                 JUndefined JUndefined) "type")
      payload (JObj [])
    = Thenable (Resolved (JInt 0)).
Proof.
  apply (@request_resolves_falsy_only_by_adoption example_host example_promising_class
           (fun _ => inl [JObj []]) "docs" JUndefined JUndefined (JInt 0));
    reflexivity.
Defined.

(** X5.  On the base class, which declares no parser and accepts every truthy
    body, a request whose transport answers with a truthy body resolves with
    that body unchanged. *)
Theorem base_model_passes_body_through `{Host} (ajax : jsval -> list jsval + jsval)
    (u : string) (params : jsval) (p : option (list (string * jsval)))
    (body : jsval) (rest : list jsval) :
  truthy body = true ->
  ajax (request_options BaseModel u params (options_of p)) = inl (body :: rest) ->
  request BaseModel ajax u params (options_of p) = Resolved body.
Proof.
  intros Hbody Hajax. unfold request. rewrite Hajax. cbn [arg nth].
  assert (Hor : js_or body (JObj []) = body).
  { unfold js_or. rewrite Hbody. reflexivity. }
  unfold processResponse. cbn [BaseModel getResponseDefaults isValidResponse
    getResponseSuccessPayload getResponseFailPayload].
  rewrite Hor. cbn [truthy]. rewrite Hbody. cbn [negb settle].
  unfold modelizer, getParser.
  cbn [BaseModel _parsers scan_parsers defaultHandler adopt].
  rewrite Hor. reflexivity.
Qed.

Lemma base_model_passes_body_through_witness :
  request (H := example_host) BaseModel (fun _ => inl [JObj [("name", JStr "x")]])
    "document/1" JUndefined (options_of None)
  = Resolved (JObj [("name", JStr "x")]).
Proof.
  apply (@base_model_passes_body_through example_host
           (fun _ => inl [JObj [("name", JStr "x")]]) "document/1" JUndefined None
           (JObj [("name", JStr "x")]) []); reflexivity.
Defined.

Lemma fill_defined (o : list (string * jsval)) (k : string) (v : jsval) :
  is_undefined (js_get (JObj o) k) = false -> fill o (k, v) = o.
Proof. intros Hk. unfold fill. cbn [fst snd js_get] in *. rewrite Hk. reflexivity. Qed.

(** X6.  A [type] the caller gives wins over the verb of the shorthand:
    [get], [post], [put] and [del] only fill in a type that is undefined.
    With such options [get], [post] and [del] are [request] itself, and the
    transport of each of the four is handed the caller's type. *)
Theorem explicit_type_wins `{Host} (cls : ModelClass)
    (ajax : jsval -> list jsval + jsval) (u : string) (params : jsval)
    (o : list (string * jsval)) :
  is_undefined (js_get (JObj o) "type") = false ->
  get cls ajax u params (JObj o) = request cls ajax u params (JObj o)
  /\ post cls ajax u params (JObj o) = request cls ajax u params (JObj o)
  /\ del cls ajax u params (JObj o) = request cls ajax u params (JObj o)
  /\ forall shorthand,
       In shorthand [get cls echo; post cls echo; put cls echo; del cls echo] ->
       exists sent,
         shorthand u params (JObj o) = Rejected sent
         /\ js_get sent "type" = js_get (JObj o) "type".
Proof.
  intros Htype.
  assert (Hsame : forall v, _defaults (js_or (JObj o) (JObj [])) [("type", v)] = JObj o).
  { intros v. change (js_or (JObj o) (JObj [])) with (JObj o).
    rewrite defaults_one, fill_defined by exact Htype. reflexivity. }
  split; [unfold get, get_defaults; rewrite Hsame; reflexivity|].
  split; [unfold post, post_defaults; rewrite Hsame; reflexivity|].
  split; [unfold del, del_defaults; rewrite Hsame; reflexivity|].
  intros shorthand Hin.
  assert (Hsent : exists defaults,
             shorthand u params (JObj o)
             = Rejected (request_options cls u params
                           (options_of (Some (defaults_props o defaults))))).
  { destruct Hin as [<- | [<- | [<- | [<- | []]]]];
      [exists get_defaults | exists post_defaults | exists put_defaults
       | exists del_defaults]; reflexivity. }
  destruct Hsent as [defaults Hsent].
  eexists. split; [exact Hsent|].
  rewrite (request_options_keeps cls u params (Some (defaults_props o defaults))
             "type" eq_refl).
  cbn [options_of]. rewrite get_defaults_props, Htype. reflexivity.
Qed.

Lemma explicit_type_wins_witness :
  exists sent,
    get (H := example_host) BaseModel echo "docs" JUndefined (JObj [("type", JStr "POST")])
    = Rejected sent
    /\ js_get sent "type" = JStr "POST".
Proof.
  destruct (@explicit_type_wins example_host BaseModel echo "docs" JUndefined
              [("type", JStr "POST")] eq_refl) as (_ & _ & _ & Hsent).
  apply (Hsent (get (H := example_host) BaseModel echo)). left. reflexivity.
Defined.

(** X7.  With response defaults declared, the body that is validated and
    passed on is the response with every undefined key filled from the
    defaults and every defined key kept; a falsy response counts as an empty
    one, so it is the defaults themselves that are validated. *)
Theorem response_defaults_fill (cls : ModelClass) (d : list (string * jsval))
    (resp textStatus xhr : jsval) :
  getResponseDefaults cls = Some d ->
  (truthy resp = false \/ exists o, resp = JObj o) ->
  exists payload,
    (forall k, js_get payload k
               = if is_undefined (js_get resp k) then first_defined k d
                 else js_get resp k)
    /\ processResponse cls resp textStatus xhr
       = if truthy (isValidResponse cls payload textStatus xhr)
         then settle (getResponseSuccessPayload cls payload)
         else Rejected (getResponseFailPayload cls payload).
Proof.
  intros Hd Hresp.
  assert (Hobj : exists o, js_or resp (JObj []) = JObj o
                           /\ forall k, js_get (JObj o) k = js_get resp k).
  { destruct Hresp as [Hfalsy|[o ->]].
    - exists []. unfold js_or. rewrite Hfalsy. split; [reflexivity|].
      intros k. destruct resp; try discriminate Hfalsy; reflexivity.
    - exists o. split; reflexivity. }
  destruct Hobj as (o & Hor & Hget).
  exists (JObj (defaults_props o d)). split.
  - intros k. rewrite get_defaults_props, Hget. reflexivity.
  - unfold processResponse. rewrite Hd, Hor. cbn [_defaults].
    change (js_or (JObj (defaults_props o d)) (JObj []))
      with (JObj (defaults_props o d)).
    destruct (truthy (isValidResponse cls (JObj (defaults_props o d)) textStatus xhr));
      reflexivity.
Qed.

Lemma response_defaults_fill_witness :
  exists payload,
    (forall k, js_get payload k
               = if is_undefined (js_get (JObj [("total", JInt 3)]) k)
                 then first_defined k [("items", JObj []); ("total", JInt 0)]
                 else js_get (JObj [("total", JInt 3)]) k)
    /\ processResponse example_defaults_class (JObj [("total", JInt 3)])
         JUndefined JUndefined
       = if truthy (isValidResponse example_defaults_class payload JUndefined JUndefined)
         then settle (getResponseSuccessPayload example_defaults_class payload)
         else Rejected (getResponseFailPayload example_defaults_class payload).
Proof.
  apply (response_defaults_fill example_defaults_class
           [("items", JObj []); ("total", JInt 0)] (JObj [("total", JInt 3)])
           JUndefined JUndefined); [reflexivity|].
  right. exists [("total", JInt 3)]. reflexivity.
Defined.

(** ** Route compilation, further *)

Lemma createMethod_spec `{Host} (fuel : nat) (options : jsval) (route : string)
    (routes : gmap string RouteFn) :
  createMethod (S (S fuel)) options route routes
  = if string_or_object options
    then Ok (add_entry routes (route, options))
    else Throw route_value_error.
Proof.
  unfold add_entry. cbn [fst snd].
  destruct (string_or_object options) eqn:Hopt.
  - destruct (String.eqb (route_method route) "crud") eqn:Hcrud.
    + apply String.eqb_eq in Hcrud. apply createMethod_crud; assumption.
    + cbn [createMethod]. rewrite Hcrud.
      destruct options; try discriminate Hopt; reflexivity.
  - cbn [createMethod]. destruct options; try discriminate Hopt; reflexivity.
Qed.

(** X8.  Compiling one entry never needs more than one nested call: with any
    fuel from 2 on [createMethod] gives what it gives with 2, never runs out,
    and either throws the value error (for a value that is neither a string
    nor an object) or returns the table with the entry's methods added, DELETE
    stored as the [del] shorthand. *)
Theorem createMethod_total `{Host} (fuel : nat) (options : jsval) (route : string)
    (routes : gmap string RouteFn) :
  createMethod (S (S fuel)) options route routes = createMethod 2 options route routes
  /\ createMethod (S (S fuel)) options route routes <> OutOfFuel
  /\ createMethod (S (S fuel)) options route routes
     = if string_or_object options
       then Ok (add_entry routes (route, options))
       else Throw route_value_error.
Proof.
  split; [|split].
  - rewrite (createMethod_spec fuel), (createMethod_spec 0). reflexivity.
  - rewrite createMethod_spec. destruct (string_or_object options); discriminate.
  - apply createMethod_spec.
Qed.

Lemma compile_fold `{Host} (fuel : nat) (map : list (string * jsval))
    (routes : gmap string RouteFn) :
  fold_left
    (fun acc entry => routes ← acc; createMethod (S (S fuel)) (snd entry) (fst entry) routes)
    map (Ok routes)
  = if forallb (fun entry => string_or_object (snd entry)) map
    then Ok (fold_left add_entry map routes)
    else Throw route_value_error.
Proof.
  revert routes. induction map as [|[route options] map IH]; intros routes.
  - reflexivity.
  - cbn [fold_left forallb fst snd mbind result_bind].
    rewrite createMethod_spec.
    destruct (string_or_object options) eqn:Hopt; cbn [andb].
    + apply IH.
    + clear IH. induction map as [|e map IHm]; [reflexivity|].
      cbn [fold_left mbind result_bind]. exact IHm.
Qed.

(** X9.  A route map compiles to a table exactly when every value in it is a
    string or an object; one value of another kind, wherever it stands, makes
    the whole compilation throw the value error, and no table is returned. *)
Theorem compile_all_or_nothing `{Host} (fuel : nat) (map : list (string * jsval)) :
  createModelRequestMethods (S (S fuel)) map
  = (if forallb (fun entry => string_or_object (snd entry)) map
     then Ok (fold_left add_entry map ∅)
     else Throw route_value_error)
  /\ createModelRequestMethods (S (S fuel)) map <> OutOfFuel.
Proof.
  unfold createModelRequestMethods. rewrite compile_fold.
  split; [reflexivity|].
  destruct (forallb _ map); discriminate.
Qed.

(** X10.  When two entries give the same method name, the later one
    replaces the earlier: when the last entry of the map is a key other than
    a CRUD key, mapped to a name, the table holds under that name the method
    of that entry, whatever earlier entries stored there. *)
Theorem last_declaration_wins `{Host} (fuel : nat) (map : list (string * jsval))
    (route name : string) :
  forallb (fun entry => string_or_object (snd entry)) map = true ->
  String.eqb (route_method route) "crud" = false ->
  exists routes,
    createModelRequestMethods (S (S fuel)) (map ++ [(route, JStr name)]) = Ok routes
    /\ routes !! name
       = Some {| r_method := if String.eqb (route_method route) "delete" then "del"
                             else route_method route;
                 r_uri := route_path route; r_options := JNull; r_route := route |}.
Proof.
  intros Hgood Hplain. unfold createModelRequestMethods. rewrite compile_fold.
  rewrite forallb_app, Hgood. cbn [forallb snd string_or_object andb].
  eexists. split; [reflexivity|].
  rewrite fold_left_app. cbn [fold_left]. unfold add_entry at 1.
  cbn [fst snd]. rewrite Hplain. cbn [mapped_name ToString].
  apply lookup_insert_eq.
Qed.

Lemma last_declaration_wins_witness :
  exists routes,
    createModelRequestMethods (H := example_host) 2
      ([("GET docs", JStr "requestDocs")] ++ [("POST other", JStr "requestDocs")])
    = Ok routes
    /\ routes !! "requestDocs"
       = Some {| r_method := if String.eqb (route_method "POST other") "delete"
                             then "del" else route_method "POST other";
                 r_uri := route_path "POST other"; r_options := JNull;
                 r_route := "POST other" |}.
Proof.
  apply (@last_declaration_wins example_host 0 [("GET docs", JStr "requestDocs")]
           "POST other" "requestDocs"); reflexivity.
Defined.

Lemma add_entry_nospace `{Host} (routes : gmap string RouteFn) (entry : string * jsval) :
  map_Forall (fun _ r => nospace (chars (r_uri r)) = true) routes ->
  map_Forall (fun _ r => nospace (chars (r_uri r)) = true) (add_entry routes entry).
Proof.
  intros Hall. unfold add_entry.
  pose proof (route_path_nospace (fst entry)) as Hu.
  assert (Hsfx : forall sfx, nospace (chars sfx) = true ->
                   nospace (chars (route_path (fst entry) +:+ sfx)) = true).
  { intros sfx Hs. rewrite chars_append, nospace_app, Hu, Hs. reflexivity. }
  destruct (String.eqb (route_method (fst entry)) "crud").
  - unfold crud_expansion, generated.
    repeat (apply map_Forall_insert_2; [cbn [r_uri]; auto|]).
    exact Hall.
  - apply map_Forall_insert_2; [exact Hu | exact Hall].
Qed.

Lemma fold_add_entry_nospace `{Host} (map : list (string * jsval))
    (acc : gmap string RouteFn) :
  map_Forall (fun _ r => nospace (chars (r_uri r)) = true) acc ->
  map_Forall (fun _ r => nospace (chars (r_uri r)) = true)
    (fold_left add_entry map acc).
Proof.
  revert acc. induction map as [|e map IH]; intros acc Hacc; [exact Hacc|].
  cbn [fold_left]. apply IH. apply add_entry_nospace. exact Hacc.
Qed.

(** X11.  No compiled method has white space in its URI template: the pieces
    of a route key that white space separates are joined. *)
Theorem compiled_templates_have_no_space `{Host} (fuel : nat)
    (map : list (string * jsval)) (routes : gmap string RouteFn)
    (name : string) (r : RouteFn) :
  createModelRequestMethods (S (S fuel)) map = Ok routes ->
  routes !! name = Some r ->
  nospace (chars (r_uri r)) = true.
Proof.
  unfold createModelRequestMethods. rewrite compile_fold.
  destruct (forallb _ map); [|discriminate].
  intros Hok Hlookup. injection Hok as <-.
  assert (Hall : map_Forall (fun _ r => nospace (chars (r_uri r)) = true)
                   (fold_left add_entry map ∅)).
  { apply fold_add_entry_nospace. apply map_Forall_empty. }
  exact (Hall name r Hlookup).
Qed.

Lemma compiled_templates_have_no_space_witness :
  nospace (chars (r_uri (generated "get" "foo/bar/:id" "GET foo /bar /:id"))) = true.
Proof.
  apply (@compiled_templates_have_no_space example_host 0
           [("GET foo /bar /:id", JStr "requestBar")]
           {["requestBar" := generated "get" "foo/bar/:id" "GET foo /bar /:id"]}
           "requestBar"); reflexivity.
Defined.

(** ** Placeholders in templates *)

Lemma word_not_dollar (c : ascii) : is_word c = true -> Ascii.eqb c dollar = false.
Proof.
  intros Hw. destruct (Ascii.eqb_spec c dollar) as [->|]; [|reflexivity].
  discriminate Hw.
Qed.

Lemma word_not_colon (c : ascii) : is_word c = true -> Ascii.eqb c colon = false.
Proof.
  intros Hw. destruct (Ascii.eqb_spec c colon) as [->|]; [|reflexivity].
  discriminate Hw.
Qed.

Lemma scan_lits (l rest : list ascii) :
  colon_free l = true -> scan 0 (l ++ rest) = (map Lit l ++ scan 0 rest)%list.
Proof.
  induction l as [|c l IH]; intros Hl; [reflexivity|].
  simpl in Hl. apply andb_true_iff in Hl as [Hc Hl].
  apply negb_true_iff in Hc. cbn [app scan map]. rewrite Hc, IH by exact Hl.
  reflexivity.
Qed.

Lemma scan_skip (x rest : list ascii) : scan (length x) (x ++ rest) = scan 0 rest.
Proof. induction x as [|c x IH]; [reflexivity|]. exact IH. Qed.

Lemma word_prefix_app (w rest : list ascii) :
  all_word w = true -> ends_word rest = true -> word_prefix (w ++ rest) = w.
Proof.
  induction w as [|c w IH]; intros Hw Hrest.
  - destruct rest as [|d rest]; [reflexivity|].
    simpl in Hrest. apply negb_true_iff in Hrest. simpl. rewrite Hrest. reflexivity.
  - simpl in Hw. apply andb_true_iff in Hw as [Hc Hw].
    cbn [app word_prefix]. rewrite Hc, IH by assumption. reflexivity.
Qed.

Lemma scan_named (c : ascii) (w rest : list ascii) :
  all_word (c :: w) = true -> ends_word rest = true ->
  scan 0 (colon :: (c :: w) ++ rest) = Match (c :: w) :: scan 0 rest.
Proof.
  intros Hw Hrest.
  assert (Hc : is_word c = true).
  { simpl in Hw. apply andb_true_iff in Hw as [Hc _]. exact Hc. }
  cbn [scan]. change (Ascii.eqb colon colon) with true. cbv iota.
  unfold match_at. cbn [app]. rewrite (word_not_dollar c Hc).
  change (c :: (w ++ rest))%list with ((c :: w) ++ rest)%list.
  rewrite word_prefix_app by assumption.
  rewrite scan_skip. reflexivity.
Qed.

Lemma scan_positional (c : ascii) (w rest : list ascii) :
  all_word (c :: w) = true -> ends_word rest = true ->
  scan 0 (colon :: dollar :: (c :: w) ++ rest)
  = Match (dollar :: c :: w) :: scan 0 rest.
Proof.
  intros Hw Hrest.
  cbn [scan]. change (Ascii.eqb colon colon) with true. cbv iota.
  unfold match_at. change (Ascii.eqb dollar dollar) with true. cbv iota.
  rewrite word_prefix_app by assumption.
  change (length (dollar :: c :: w)) with (S (length (c :: w))).
  cbn [scan]. rewrite scan_skip. reflexivity.
Qed.

Lemma named_lits (l : list ascii) (ps : list piece) :
  named (map Lit l ++ ps) = named ps.
Proof. induction l as [|c l IH]; [reflexivity | exact IH]. Qed.

Lemma positional_lits (l : list ascii) (ps : list piece) :
  positional (map Lit l ++ ps) = positional ps.
Proof. induction l as [|c l IH]; [reflexivity | exact IH]. Qed.

Lemma substitute_lits `{Host} (args : list jsval) (data : jsval) (l : list ascii)
    (ps : list piece) (i : nat) :
  substitute args data (map Lit l ++ ps) i = str l +:+ substitute args data ps i.
Proof.
  induction l as [|c l IH]; [reflexivity|].
  cbn [map app substitute]. rewrite IH. reflexivity.
Qed.

Lemma ends_word_colon (mid rest : list ascii) :
  ends_word mid = true -> ends_word (mid ++ colon :: rest) = true.
Proof. destruct mid; intros Hm; [reflexivity | exact Hm]. Qed.

Lemma placeholders_plain (t : string) :
  colon_free (chars t) = true -> placeholders t = map Lit (chars t).
Proof.
  intros Ht. unfold placeholders.
  rewrite <- (app_nil_r (chars t)) at 1.
  rewrite scan_lits by exact Ht. apply app_nil_r.
Qed.

Lemma plain_route_spec `{Host} (r : RouteFn) (args : list jsval) :
  colon_free (chars (r_uri r)) = true ->
  invoke r args
  = Ok {| c_method := r_method r;
          c_uri := r_uri r;
          c_data := js_or (arg args 0) (JObj []);
          c_opts := merged_options r (js_or (arg args 1) (JObj [])) |}.
Proof.
  intros Hplain. rewrite invoke_spec, (placeholders_plain _ Hplain).
  rewrite <- (app_nil_r (map Lit (chars (r_uri r)))).
  rewrite named_lits, positional_lits, substitute_lits.
  cbn [named positional substitute first_missing List.find fold_left].
  rewrite append_empty_r, str_chars. reflexivity.
Qed.

(** X12.  A route without any colon is requested as it is written: the first
    argument (an empty object when it is falsy) is the body, the second the
    options, and nothing is removed from the body. *)
Theorem plain_route_is_requested_verbatim `{Host} (r : RouteFn) (args : list jsval) :
  colon_free (chars (r_uri r)) = true ->
  invoke r args
  = Ok {| c_method := r_method r;
          c_uri := r_uri r;
          c_data := js_or (arg args 0) (JObj []);
          c_opts := merged_options r (js_or (arg args 1) (JObj [])) |}
  /\ forall k, js_get (js_or (arg args 0) (JObj [])) k = js_get (arg args 0) k.
Proof.
  intros Hplain. split; [apply plain_route_spec; exact Hplain|].
  intros k. unfold js_or.
  destruct (truthy (arg args 0)) eqn:Ht; [reflexivity|].
  destruct (arg args 0); try discriminate Ht; reflexivity.
Qed.

Lemma plain_route_is_requested_verbatim_witness :
  invoke (H := example_host) (generated "post" "document" "POST document")
    [JObj [("title", JStr "t")]]
  = Ok {| c_method := "post"; c_uri := "document";
          c_data := JObj [("title", JStr "t")]; c_opts := JObj [] |}.
Proof.
  apply (@plain_route_is_requested_verbatim example_host
           (generated "post" "document" "POST document") [JObj [("title", JStr "t")]]).
  reflexivity.
Defined.

(** X13.  Positional placeholders take the arguments in the order in which
    they stand in the template; the digits after the dollar sign play no
    part.  With two of them the first two arguments are substituted, the third
    is the body and the fourth the options. *)
Theorem positional_placeholders_in_order `{Host} (r : RouteFn) (args : list jsval)
    (pre mid post : list ascii) (c1 c2 : ascii) (w1 w2 : list ascii) :
  r_uri r = str (pre ++ colon :: dollar :: (c1 :: w1)
                  ++ mid ++ colon :: dollar :: (c2 :: w2) ++ post) ->
  colon_free pre = true -> colon_free mid = true -> colon_free post = true ->
  all_word (c1 :: w1) = true -> all_word (c2 :: w2) = true ->
  ends_word mid = true -> ends_word post = true ->
  invoke r args
  = Ok {| c_method := r_method r;
          c_uri := str pre +:+ ToString (arg args 0) +:+ str mid
                   +:+ ToString (arg args 1) +:+ str post;
          c_data := js_or (arg args 2) (JObj []);
          c_opts := merged_options r (js_or (arg args 3) (JObj [])) |}.
Proof.
  intros Huri Hpre Hmid Hpost Hw1 Hw2 Hemid Hepost.
  assert (Hps : placeholders (r_uri r)
                = (map Lit pre ++ Match (dollar :: c1 :: w1)
                   :: map Lit mid ++ Match (dollar :: c2 :: w2)
                   :: map Lit post ++ [])%list).
  { unfold placeholders. rewrite Huri, chars_str.
    rewrite scan_lits by exact Hpre.
    rewrite scan_positional by (exact Hw1 || apply ends_word_colon; exact Hemid).
    rewrite scan_lits by exact Hmid.
    rewrite scan_positional by assumption.
    rewrite <- (app_nil_r post) at 1. rewrite scan_lits by exact Hpost.
    reflexivity. }
  rewrite invoke_spec, Hps.
  rewrite !named_lits, !positional_lits, !substitute_lits.
  cbn [named positional substitute is_positional].
  change (Ascii.eqb dollar dollar) with true. cbv iota.
  rewrite !named_lits, !positional_lits, !substitute_lits.
  cbn [named positional substitute is_positional].
  change (Ascii.eqb dollar dollar) with true. cbv iota.
  rewrite !named_lits, !positional_lits, !substitute_lits.
  cbn [named positional substitute first_missing List.find fold_left].
  rewrite append_empty_r. reflexivity.
Qed.

Lemma positional_placeholders_in_order_witness :
  invoke (H := example_host) (generated "get" "a/:$1/b/:$0" "GET a/:$1/b/:$0")
    [JInt 7; JInt 8]
  = Ok {| c_method := "get"; c_uri := "a/7/b/8"; c_data := JObj []; c_opts := JObj [] |}.
Proof.
  apply (@positional_placeholders_in_order example_host
           (generated "get" "a/:$1/b/:$0" "GET a/:$1/b/:$0") [JInt 7; JInt 8]
           (chars "a/") (chars "/b/") [] "1"%char "0"%char [] []);
    reflexivity.
Defined.

(** X14.  Named placeholders are always looked up in the first argument,
    also in a route that has positional placeholders before them: when the
    first argument is falsy, or has no truthy member under the name of the
    first named placeholder, the call throws for that placeholder, whatever
    the later arguments hold. *)
Theorem named_placeholders_read_first_argument `{Host} (r : RouteFn)
    (args : list jsval) (n : string) (others : list string) :
  named (placeholders (r_uri r)) = n :: others ->
  member_read (arg args 0) n = None ->
  invoke r args = Throw (missing_param (r_route r) n).
Proof.
  intros Hnamed Hnone. rewrite invoke_spec, Hnamed.
  unfold first_missing. cbn [List.find]. unfold no_member.
  rewrite Hnone. reflexivity.
Qed.

Lemma named_placeholders_read_first_argument_witness :
  invoke (H := example_host) (generated "get" "a/:$0/:id" "GET a/:$0/:id")
    [JInt 7; JObj [("id", JInt 5)]]
  = Throw (missing_param "GET a/:$0/:id" "id").
Proof.
  apply (@named_placeholders_read_first_argument example_host
           (generated "get" "a/:$0/:id" "GET a/:$0/:id")
           [JInt 7; JObj [("id", JInt 5)]] "id" []);
    reflexivity.
Defined.

(** X15.  The static options of a route are defaults for the caller's: under
    every key the call carries the caller's value when it is defined and the
    route's otherwise.  The route's options are the whole object of the route
    map, so its [fn] travels with them. *)
Theorem static_options_are_defaults `{Host} (r : RouteFn) (args : list jsval)
    (static : list (string * jsval)) (p : option (list (string * jsval)))
    (c : Call) (k : string) :
  r_options r = JObj static ->
  arg args (S (positional (placeholders (r_uri r)))) = options_of p ->
  invoke r args = Ok c ->
  js_get (c_opts c) k
  = if is_undefined (js_get (options_of p) k) then first_defined k static
    else js_get (options_of p) k.
Proof.
  intros Hstatic Hopts. rewrite invoke_spec.
  destruct (first_missing _ _); [discriminate|].
  intros Hc. injection Hc as <-. cbn [c_opts].
  unfold merged_options. rewrite Hstatic, Hopts. cbn [truthy].
  destruct (or_object_is_object p) as (props & -> & Hget).
  cbn [_defaults]. rewrite get_defaults_props, Hget. reflexivity.
Qed.

Lemma static_options_are_defaults_witness :
  js_get (JObj [("jsonBody", JBool false); ("fn", JStr "save")]) "fn" = JStr "save".
Proof.
  apply (@static_options_are_defaults example_host
           {| r_method := "post"; r_uri := "docs";
              r_options := JObj [("fn", JStr "save"); ("jsonBody", JBool true)];
              r_route := "POST docs" |}
           [JObj []; JObj [("jsonBody", JBool false)]]
           [("fn", JStr "save"); ("jsonBody", JBool true)]
           (Some [("jsonBody", JBool false)])
           {| c_method := "post"; c_uri := "docs"; c_data := JObj [];
              c_opts := JObj [("jsonBody", JBool false); ("fn", JStr "save")] |}
           "fn"); reflexivity.
Defined.

Lemma merged_options_null (method u route : string) (opts : jsval) :
  merged_options (generated method u route) opts = opts.
Proof. reflexivity. Qed.

(** X16.  The four methods of a CRUD key, on a path without colon, called
    with params that hold a truthy [id]: requestCreate posts the params to
    the path; requestUpdate and requestDelete go to the path followed by that
    id and send the params without the [id].  requestOne, called with any
    arguments, gets the path followed by its first argument, the second
    argument being the body. *)
Theorem crud_methods_request `{Host} (path : string) (args one_args : list jsval)
    (props : list (string * jsval)) (v : jsval) :
  colon_free (chars path) = true ->
  arg args 0 = JObj props ->
  obj_lookup "id" props = Some v ->
  truthy v = true ->
  invoke (generated "post" path ("POST " +:+ path)) args
  = Ok {| c_method := "post"; c_uri := path;
          c_data := JObj props; c_opts := js_or (arg args 1) (JObj []) |}
  /\ invoke (generated "get" (path +:+ "/:$0") ("GET " +:+ path +:+ "/:$0")) one_args
     = Ok {| c_method := "get"; c_uri := path +:+ "/" +:+ ToString (arg one_args 0);
             c_data := js_or (arg one_args 1) (JObj []);
             c_opts := js_or (arg one_args 2) (JObj []) |}
  /\ invoke (generated "put" (path +:+ "/:id") ("PUT " +:+ path +:+ "/:id")) args
     = Ok {| c_method := "put"; c_uri := path +:+ "/" +:+ ToString v;
             c_data := JObj (obj_delete "id" props);
             c_opts := js_or (arg args 1) (JObj []) |}
  /\ invoke (generated "del" (path +:+ "/:id") ("DEL " +:+ path +:+ "/:id")) args
     = Ok {| c_method := "del"; c_uri := path +:+ "/" +:+ ToString v;
             c_data := JObj (obj_delete "id" props);
             c_opts := js_or (arg args 1) (JObj []) |}.
Proof.
  intros Hpath Hargs Hid Hv.
  assert (Hread : member_read (JObj props) "id" = Some (ToString v)).
  { rewrite member_read_object, Hid, Hv. reflexivity. }
  assert (Hone : placeholders (path +:+ "/:$0")
                 = (map Lit (chars path) ++ [Lit "/"%char; Match (chars "$0")])%list).
  { unfold placeholders. rewrite chars_append, scan_lits by exact Hpath. reflexivity. }
  assert (Hnamed : placeholders (path +:+ "/:id")
                   = (map Lit (chars path) ++ [Lit "/"%char; Match (chars "id")])%list).
  { unfold placeholders. rewrite chars_append, scan_lits by exact Hpath. reflexivity. }
  assert (Hslash : forall t, str (chars path) +:+ String "/"%char (t +:+ EmptyString)
                             = path +:+ "/" +:+ t).
  { intros t. rewrite str_chars, append_empty_r. reflexivity. }
  split; [|split; [|split]].
  - rewrite plain_route_spec by exact Hpath. rewrite Hargs. reflexivity.
  - rewrite invoke_spec. cbn [generated r_uri r_method r_route]. rewrite Hone.
    rewrite named_lits, positional_lits, substitute_lits.
    cbn [named positional substitute is_positional chars list_ascii_of_string
         first_missing List.find fold_left].
    change (Ascii.eqb "$"%char dollar) with true. cbv iota.
    cbn [named positional substitute first_missing List.find fold_left].
    rewrite Hslash. reflexivity.
  - rewrite invoke_spec. cbn [generated r_uri r_method r_route]. rewrite Hnamed.
    rewrite named_lits, positional_lits, substitute_lits.
    cbn [named positional substitute is_positional chars list_ascii_of_string].
    change (Ascii.eqb "i"%char dollar) with false. cbv iota.
    cbn [named positional substitute str string_of_list_ascii].
    unfold first_missing. cbn [List.find]. unfold no_member.
    rewrite Hargs, !Hread. cbn [default].
    cbn [fold_left js_delete js_or truthy]. rewrite Hslash. reflexivity.
  - rewrite invoke_spec. cbn [generated r_uri r_method r_route]. rewrite Hnamed.
    rewrite named_lits, positional_lits, substitute_lits.
    cbn [named positional substitute is_positional chars list_ascii_of_string].
    change (Ascii.eqb "i"%char dollar) with false. cbv iota.
    cbn [named positional substitute str string_of_list_ascii].
    unfold first_missing. cbn [List.find]. unfold no_member.
    rewrite Hargs, !Hread. cbn [default].
    cbn [fold_left js_delete js_or truthy]. rewrite Hslash. reflexivity.
Qed.

Lemma crud_methods_request_witness :
  invoke (H := example_host) (generated "post" "document" ("POST " +:+ "document"))
    [JObj [("id", JInt 7); ("title", JStr "t")]]
  = Ok {| c_method := "post"; c_uri := "document";
          c_data := JObj [("id", JInt 7); ("title", JStr "t")]; c_opts := JObj [] |}
  /\ invoke (H := example_host)
       (generated "get" ("document" +:+ "/:$0") ("GET " +:+ "document" +:+ "/:$0"))
       [JInt 1]
     = Ok {| c_method := "get"; c_uri := "document/1";
             c_data := JObj []; c_opts := JObj [] |}
  /\ invoke (H := example_host)
       (generated "put" ("document" +:+ "/:id") ("PUT " +:+ "document" +:+ "/:id"))
       [JObj [("id", JInt 7); ("title", JStr "t")]]
     = Ok {| c_method := "put"; c_uri := "document/7";
             c_data := JObj [("title", JStr "t")]; c_opts := JObj [] |}
  /\ invoke (H := example_host)
       (generated "del" ("document" +:+ "/:id") ("DEL " +:+ "document" +:+ "/:id"))
       [JObj [("id", JInt 7); ("title", JStr "t")]]
     = Ok {| c_method := "del"; c_uri := "document/7";
             c_data := JObj [("title", JStr "t")]; c_opts := JObj [] |}.
Proof.
  apply (@crud_methods_request example_host "document" [JObj [("id", JInt 7); ("title", JStr "t")]]
           [JInt 1] [("id", JInt 7); ("title", JStr "t")] (JInt 7));
    reflexivity.
Defined.

(** ** Parser keys *)

Lemma nospace_head (l : list ascii) (c : ascii) (r : list ascii) :
  nospace l = true -> l = c :: r -> is_space c = false.
Proof.
  intros Hl ->. simpl in Hl. apply andb_true_iff in Hl as [Hc _].
  apply negb_true_iff. exact Hc.
Qed.

Lemma trim_nospace (l : list ascii) : nospace l = true -> trim_chars l = l.
Proof.
  intros Hl. unfold trim_chars.
  rewrite (drop_space_clean l) by (intros c r; apply nospace_head; exact Hl).
  rewrite drop_space_rev_nospace by exact Hl. apply rev_involutive.
Qed.

Lemma trim_str_nospace (l : list ascii) : nospace l = true -> trim (str l) = str l.
Proof. intros Hl. unfold trim. rewrite chars_str, trim_nospace by exact Hl. reflexivity. Qed.

Lemma index_from_found (verb rest : list ascii) (i : Z) :
  hash_free verb = true ->
  index_from hash (verb ++ hash :: rest) i = i + Z.of_nat (length verb).
Proof.
  revert i. induction verb as [|c verb IH]; intros i Hv.
  - cbn [app index_from length]. change (Ascii.eqb hash hash) with true. cbv iota. lia.
  - simpl in Hv. apply andb_true_iff in Hv as [Hc Hv]. apply negb_true_iff in Hc.
    cbn [app index_from]. rewrite Hc, IH by exact Hv. cbn [length]. lia.
Qed.

Lemma index_from_none (l : list ascii) (i : Z) :
  hash_free l = true -> index_from hash l i = -1.
Proof.
  revert i. induction l as [|c l IH]; intros i Hl; [reflexivity|].
  simpl in Hl. apply andb_true_iff in Hl as [Hc Hl]. apply negb_true_iff in Hc.
  cbn [index_from]. rewrite Hc. apply IH. exact Hl.
Qed.

(** The key of a parser once its sections are known. *)
Lemma parser_key_sections (route : string) :
  parser_key route
  = let sections := split_ws route in
    let hasMethod := (1 <? length sections)%nat in
    let ty :=
      if hasMethod
      then JStr (toLowerCase (trim (ToString (default JUndefined (JStr <$> head sections)))))
      else JNull in
    let route := if hasMethod then join_empty (tail sections) else join_empty sections in
    match chars route with
    | c :: rest =>
        if Ascii.eqb c hash then
          let lastHashIndex := index_from hash rest 0 + 1 in
          (JStr (toLowerCase (str (slice2 (chars route) 1 lastHashIndex))),
           str (slice1 (chars route) (lastHashIndex + 1)))
        else (ty, route)
    | [] => (ty, route)
    end.
Proof. reflexivity. Qed.

Lemma split_ws_plain (path : list ascii) :
  nospace path = true -> split_ws (str path) = [str path].
Proof.
  intros Hp. unfold split_ws. rewrite chars_str, split_go_nospace by exact Hp.
  reflexivity.
Qed.

Lemma split_ws_verb_path (v path : list ascii) :
  nospace v = true -> nospace path = true ->
  split_ws (str (v ++ " "%char :: path)) = [str v; str path].
Proof.
  intros Hv Hp. unfold split_ws.
  rewrite chars_str, split_go_space by (exact Hv || reflexivity).
  rewrite split_skip_nospace by exact Hp. reflexivity.
Qed.

Lemma parser_key_plain (path : list ascii) :
  nospace path = true -> no_hash_prefix path = true ->
  parser_key (str path) = (JNull, str path).
Proof.
  intros Hp Hh. rewrite parser_key_sections, split_ws_plain by exact Hp.
  cbn [length Nat.ltb Nat.leb join_empty fold_right].
  cbv zeta. rewrite append_empty_r, chars_str.
  destruct path as [|c rest]; [reflexivity|].
  simpl in Hh. apply negb_true_iff in Hh. rewrite Hh. reflexivity.
Qed.

Lemma parser_key_verb (v path : list ascii) :
  nospace v = true -> nospace path = true -> no_hash_prefix path = true ->
  parser_key (str (v ++ " "%char :: path)) = (JStr (toLowerCase (str v)), str path).
Proof.
  intros Hv Hp Hh. rewrite parser_key_sections, split_ws_verb_path by assumption.
  cbn [length Nat.ltb Nat.leb join_empty fold_right head tail fmap option_fmap
       option_map default ToString].
  cbv zeta. change (ToString (id (JStr (str v)))) with (str v).
  rewrite append_empty_r, chars_str, trim_str_nospace by exact Hv.
  destruct path as [|c rest]; [reflexivity|].
  simpl in Hh. apply negb_true_iff in Hh. rewrite Hh. reflexivity.
Qed.

Lemma lower_nonempty (c : ascii) (m : list ascii) :
  truthy (JStr (toLowerCase (str (c :: m)))) = true.
Proof. unfold toLowerCase. rewrite chars_str. reflexivity. Qed.

Lemma scan_parsers_head (e : ParserEntry) (rest : list ParserEntry) (u ty : string) :
  scan_parsers (e :: rest) u ty
  = if verb_allows e ty && uri e u then Some (callback e)
    else scan_parsers rest u ty.
Proof.
  cbn [scan_parsers]. unfold verb_allows.
  destruct (truthy (type e) && negb (strict_eq_str (type e) ty)); cbn [negb andb];
    [reflexivity|].
  destruct (uri e u); reflexivity.
Qed.

(** X17.  A parser key that is a bare path is compiled without a verb and
    answers requests of every type; a key made of a verb, a blank and a path
    is compiled with the verb in lower case and answers only requests whose
    type, in lower case, is that verb. *)
Theorem parser_key_verb_and_path (regexp : string -> string -> bool)
    (c : ascii) (m path : list ascii) (handler : Modelizer)
    (inherited : list ParserEntry) (u ty : string) :
  nospace (c :: m) = true -> nospace path = true -> no_hash_prefix path = true ->
  regexp (str path) u = true ->
  parser_key (str path) = (JNull, str path)
  /\ parser_key (str ((c :: m) ++ " "%char :: path))
     = (JStr (toLowerCase (str (c :: m))), str path)
  /\ scan_parsers (parseParsers regexp [(str path, handler)] ++ inherited) u ty
     = Some handler
  /\ scan_parsers
       (parseParsers regexp [(str ((c :: m) ++ " "%char :: path), handler)] ++ inherited)
       u ty
     = if String.eqb (toLowerCase (str (c :: m))) ty then Some handler
       else scan_parsers inherited u ty.
Proof.
  intros Hv Hp Hh Hmatch.
  pose proof (parser_key_plain path Hp Hh) as Hplain.
  pose proof (parser_key_verb (c :: m) path Hv Hp Hh) as Hkey.
  split; [exact Hplain|]. split; [exact Hkey|]. split.
  - unfold parseParsers. cbn [map fst snd]. rewrite Hplain.
    cbn [app]. rewrite scan_parsers_head.
    unfold verb_allows. cbn [type uri callback].
    cbn [fst snd truthy andb negb]. rewrite Hmatch. reflexivity.
  - unfold parseParsers. cbn [map fst snd]. rewrite Hkey.
    cbn [app]. rewrite scan_parsers_head.
    unfold verb_allows. cbn [type uri callback]. cbn [fst snd].
    rewrite lower_nonempty. cbn [andb strict_eq_str]. rewrite Hmatch.
    destruct (String.eqb (toLowerCase (str (c :: m))) ty); reflexivity.
Qed.

Lemma parser_key_verb_and_path_witness :
  let regexp := fun path u => String.eqb path u in
  let handler := fun (payload _ : jsval) => Value payload in
  parser_key "docs" = (JNull, "docs")
  /\ parser_key "GET docs" = (JStr "get", "docs")
  /\ scan_parsers (parseParsers regexp [("docs", handler)] ++ []) "docs" "post"
     = Some handler
  /\ scan_parsers (parseParsers regexp [("GET docs", handler)] ++ []) "docs" "post"
     = None.
Proof.
  apply (parser_key_verb_and_path (fun path u => String.eqb path u)
           "G"%char (chars "ET") (chars "docs") (fun payload _ => Value payload) []
           "docs" "post"); reflexivity.
Defined.

Lemma drop_past (v : list ascii) (x : ascii) (r : list ascii) :
  drop (S (length v)) (v ++ x :: r) = r.
Proof. induction v as [|c v IH]; [reflexivity | exact IH]. Qed.

Lemma take_front (v r : list ascii) : take (length v) (v ++ r) = v.
Proof. induction v as [|c v IH]; [reflexivity|]. cbn. rewrite IH. reflexivity. Qed.

Lemma key_match_hash (ty : jsval) (verb rest : list ascii) :
  hash_free verb = true ->
  match chars (str (hash :: verb ++ hash :: rest)) with
  | c :: r =>
      if Ascii.eqb c hash then
        let lastHashIndex := index_from hash r 0 + 1 in
        (JStr (toLowerCase
                 (str (slice2 (chars (str (hash :: verb ++ hash :: rest))) 1
                         lastHashIndex))),
         str (slice1 (chars (str (hash :: verb ++ hash :: rest))) (lastHashIndex + 1)))
      else (ty, str (hash :: verb ++ hash :: rest))
  | [] => (ty, str (hash :: verb ++ hash :: rest))
  end
  = (JStr (toLowerCase (str verb)), str rest).
Proof.
  intros Hv. rewrite chars_str. change (Ascii.eqb hash hash) with true. cbv iota zeta.
  rewrite index_from_found by exact Hv.
  unfold slice2, slice1.
  replace (Z.to_nat (0 + Z.of_nat (length verb) + 1 - 1)) with (length verb) by lia.
  replace (Z.to_nat (0 + Z.of_nat (length verb) + 1 + 1)) with (S (S (length verb))) by lia.
  change (Z.to_nat 1) with 1%nat.
  change (drop 1 (hash :: verb ++ hash :: rest)) with (verb ++ hash :: rest)%list.
  change (drop (S (S (length verb))) (hash :: verb ++ hash :: rest))
    with (drop (S (length verb)) (verb ++ hash :: rest)).
  rewrite take_front, drop_past. reflexivity.
Qed.

Lemma key_match_open_hash (ty : jsval) (rest : list ascii) :
  hash_free rest = true ->
  match chars (str (hash :: rest)) with
  | c :: r =>
      if Ascii.eqb c hash then
        let lastHashIndex := index_from hash r 0 + 1 in
        (JStr (toLowerCase
                 (str (slice2 (chars (str (hash :: rest))) 1 lastHashIndex))),
         str (slice1 (chars (str (hash :: rest))) (lastHashIndex + 1)))
      else (ty, str (hash :: rest))
  | [] => (ty, str (hash :: rest))
  end
  = (JStr EmptyString, str rest).
Proof.
  intros Hr. rewrite chars_str. change (Ascii.eqb hash hash) with true. cbv iota zeta.
  rewrite index_from_none by exact Hr. reflexivity.
Qed.

(** X18.  The alternate key syntax: a key that opens with a hash sign takes
    its verb from between the first two hash signs, in lower case, and its
    path from what follows, also when a verb and a blank stand before it;
    when the second hash sign is missing the verb is the empty string, which
    the lookup treats as no verb, and the path is the key without its hash
    sign. *)
Theorem parser_key_hash_syntax (verb rest open : list ascii) (c : ascii)
    (m : list ascii) :
  nospace verb = true -> nospace rest = true -> hash_free verb = true ->
  nospace (c :: m) = true ->
  nospace open = true -> hash_free open = true ->
  parser_key (str (hash :: verb ++ hash :: rest))
  = (JStr (toLowerCase (str verb)), str rest)
  /\ parser_key (str ((c :: m) ++ " "%char :: hash :: verb ++ hash :: rest))
     = (JStr (toLowerCase (str verb)), str rest)
  /\ parser_key (str (hash :: open)) = (JStr EmptyString, str open)
  /\ truthy (JStr EmptyString) = false.
Proof.
  intros Hverb Hrest Hfree Hv Hopen Hofree.
  assert (Hkey : nospace (hash :: verb ++ hash :: rest) = true).
  { change (hash :: verb ++ hash :: rest)%list
      with ([hash] ++ verb ++ [hash] ++ rest)%list.
    rewrite !nospace_app, Hverb, Hrest. reflexivity. }
  split; [|split; [|split; [|reflexivity]]].
  - rewrite parser_key_sections, split_ws_plain by exact Hkey.
    cbn [length Nat.ltb Nat.leb join_empty fold_right]. cbv zeta.
    rewrite append_empty_r. apply key_match_hash. exact Hfree.
  - rewrite parser_key_sections, split_ws_verb_path by assumption.
    cbn [length Nat.ltb Nat.leb join_empty fold_right head tail]. cbv zeta.
    rewrite append_empty_r. apply key_match_hash. exact Hfree.
  - assert (Hokey : nospace (hash :: open) = true).
    { change (hash :: open)%list with ([hash] ++ open)%list.
      rewrite nospace_app, Hopen. reflexivity. }
    rewrite parser_key_sections, split_ws_plain by exact Hokey.
    cbn [length Nat.ltb Nat.leb join_empty fold_right]. cbv zeta.
    rewrite append_empty_r. apply key_match_open_hash. exact Hofree.
Qed.

Lemma parser_key_hash_syntax_witness :
  parser_key "#POST#docs/:id" = (JStr "post", "docs/:id")
  /\ parser_key "GET #POST#docs/:id" = (JStr "post", "docs/:id")
  /\ parser_key "#docs" = (JStr EmptyString, "docs")
  /\ truthy (JStr EmptyString) = false.
Proof.
  apply (parser_key_hash_syntax (chars "POST") (chars "docs/:id") (chars "docs")
           "G"%char (chars "ET")); reflexivity.
Defined.

Lemma lower_shorthand_not_del (ty : string) :
  In ty shorthand_types -> String.eqb "del" (toLowerCase ty) = false.
Proof. intros [<-|[<-|[<-|[<-|[]]]]]; reflexivity. Qed.

(** A request on a class with one more entry in front of those of [this]. *)
Lemma request_with_entry `{Host} (this : ModelClass) (decls : list ParserDecl)
    (e : ParserEntry) (ajax : jsval -> list jsval + jsval) (u : string)
    (params options : jsval) :
  request (with_parsers this decls (e :: _parsers this)) ajax u params options
  = match ajax (request_options this u params options) with
    | inr reason => Rejected reason
    | inl args =>
        match processResponse this (arg args 0) (arg args 1) (arg args 2) with
        | Rejected payload => Rejected payload
        | Resolved payload =>
            let ty := js_get (request_options this u params options) "type" in
            if verb_allows e (toLowerCase (ToString ty)) && uri e u
            then adopt (callback e payload (js_or params (JObj [])))
            else adopt (modelizer this u ty payload (js_or params (JObj [])))
        end
    end.
Proof.
  unfold request.
  change (request_options (with_parsers this decls (e :: _parsers this)) u params options)
    with (request_options this u params options).
  destruct (ajax _) as [args|reason]; [|reflexivity].
  change (processResponse (with_parsers this decls (e :: _parsers this)))
    with (processResponse this).
  destruct (processResponse this _ _ _) as [payload|payload]; [|reflexivity].
  cbv zeta. unfold modelizer at 1, getParser at 1. cbn [_parsers with_parsers].
  rewrite scan_parsers_head.
  destruct (verb_allows e _ && uri e u); [reflexivity|].
  reflexivity.
Qed.

(** The type a shorthand sends for options that bring none. *)
Lemma sent_type `{Host} (cls : ModelClass) (u : string) (params : jsval)
    (p : option (list (string * jsval))) (verb : string)
    (rest : list (string * jsval)) :
  js_get (options_of p) "type" = JUndefined ->
  js_get (request_options cls u params
            (_defaults (js_or (options_of p) (JObj [])) (("type", JStr verb) :: rest)))
         "type"
  = JStr verb.
Proof.
  intros Htype. destruct (or_object_is_object p) as (props & -> & Hget).
  cbn [_defaults].
  rewrite (request_options_keeps cls u params
             (Some (defaults_props props (("type", JStr verb) :: rest))) "type" eq_refl).
  cbn [options_of]. rewrite get_defaults_props, Hget, Htype. reflexivity.
Qed.

(** X19.  Routes write the delete verb DEL, but a parser declared with the
    verb DEL plays no part in a request made through [get], [post], [put] or
    [del] with options that bring no type of their own: the types these send
    are GET, POST, PUT and DELETE, so every such request goes as on the
    parent class.  The parser handles the payload only of a request whose
    caller sets the type DEL; the parser that handles the payload of a plain
    [del] is the one declared with DELETE. *)
Theorem del_parser_needs_explicit_type `{Host} (regexp : string -> string -> bool)
    (this : ModelClass) (declared : list ParserDecl) (path : list ascii)
    (handler : Modelizer) (ajax : jsval -> list jsval + jsval) (u : string)
    (params : jsval) (p : option (list (string * jsval)))
    (o : list (string * jsval)) (body textStatus xhr payload : jsval) :
  parsers this = Some declared ->
  nospace path = true -> no_hash_prefix path = true ->
  js_get (options_of p) "type" = JUndefined ->
  js_get (JObj o) "type" = JStr "DEL" ->
  regexp (str path) u = true ->
  processResponse this body textStatus xhr = Resolved payload ->
  let with_del :=
    extend regexp this (Some [(str (chars "DEL" ++ " "%char :: path), handler)]) in
  let with_delete :=
    extend regexp this (Some [(str (chars "DELETE" ++ " "%char :: path), handler)]) in
  let answer := fun _ : jsval => inl [body; textStatus; xhr] in
  (forall shorthand, In shorthand [get; post; put; del] ->
     shorthand with_del ajax u params (options_of p)
     = shorthand this ajax u params (options_of p))
  /\ del with_del answer u params (JObj o)
     = adopt (handler payload (js_or params (JObj [])))
  /\ del with_delete answer u params (options_of p)
     = adopt (handler payload (js_or params (JObj [])))
  /\ route_method (str (chars "DEL" ++ " "%char :: path)) = "del".
Proof.
  intros Hparsers Hp Hh Htype Hdeltype Hmatch Hprocess with_del with_delete answer.
  pose proof (parser_key_verb (chars "DEL") path eq_refl Hp Hh) as Hdel.
  pose proof (parser_key_verb (chars "DELETE") path eq_refl Hp Hh) as Hdelete.
  assert (Hwith_del : with_del
            = with_parsers this [(str (chars "DEL" ++ " "%char :: path), handler)]
                ({| uri := regexp (str path); callback := handler; type := JStr "del" |}
                 :: _parsers this)).
  { subst with_del. unfold extend. rewrite Hparsers. unfold parseParsers.
    cbn [map fst snd]. rewrite Hdel. reflexivity. }
  assert (Hwith_delete : with_delete
            = with_parsers this [(str (chars "DELETE" ++ " "%char :: path), handler)]
                ({| uri := regexp (str path); callback := handler; type := JStr "delete" |}
                 :: _parsers this)).
  { subst with_delete. unfold extend. rewrite Hparsers. unfold parseParsers.
    cbn [map fst snd]. rewrite Hdelete. reflexivity. }
  split; [|split; [|split]].
  - intros shorthand Hin.
    assert (Hverb : exists verb rest,
               In verb shorthand_types
               /\ forall cls, shorthand cls ajax u params (options_of p)
                              = request cls ajax u params
                                  (_defaults (js_or (options_of p) (JObj []))
                                     (("type", JStr verb) :: rest))).
    { destruct Hin as [<-|[<-|[<-|[<-|[]]]]];
        [exists "GET", [] | exists "POST", []
         | exists "PUT", [("jsonBody", JBool true)] | exists "DELETE", []];
        (split; [simpl; tauto | reflexivity]). }
    destruct Hverb as (verb & rest & Hverb & Heq).
    rewrite !Heq, Hwith_del, request_with_entry. cbv zeta.
    rewrite sent_type by exact Htype.
    unfold verb_allows. cbn [type uri callback truthy strict_eq_str ToString].
    change (negb (String.eqb "del" EmptyString)) with true.
    rewrite (lower_shorthand_not_del verb Hverb). cbn [negb andb].
    unfold request. rewrite sent_type by exact Htype. reflexivity.
  - unfold del. rewrite Hwith_del, request_with_entry. cbv zeta.
    change (js_or (JObj o) (JObj [])) with (JObj o). cbn [_defaults].
    rewrite (request_options_keeps this u params (Some (defaults_props o del_defaults))
               "type" eq_refl).
    cbn [options_of]. rewrite get_defaults_props, Hdeltype. cbn [is_undefined].
    unfold answer. cbn [arg nth]. rewrite Hprocess.
    unfold verb_allows. cbn [type uri callback]. rewrite Hmatch. reflexivity.
  - unfold del, del_defaults. rewrite Hwith_delete, request_with_entry. cbv zeta.
    rewrite sent_type by exact Htype.
    unfold answer. cbn [arg nth]. rewrite Hprocess.
    unfold verb_allows. cbn [type uri callback]. rewrite Hmatch. reflexivity.
  - destruct (sections_verb_path "D"%char (chars "EL") path eq_refl eq_refl Hp)
      as [Hm _].
    exact Hm.
Qed.

Lemma del_parser_needs_explicit_type_witness :
  let regexp := fun path u => String.eqb path u in
  let handler := fun (_ _ : jsval) => Value (JStr "parsed") in
  let body := JObj [("id", JInt 1)] in
  let answer := fun _ : jsval => inl [body; JUndefined; JUndefined] in
  del (H := example_host) (extend regexp BaseModel (Some [("DEL docs/1", handler)]))
    answer "docs/1" JUndefined JUndefined
  = del (H := example_host) BaseModel answer "docs/1" JUndefined JUndefined
  /\ del (H := example_host) BaseModel answer "docs/1" JUndefined JUndefined
     = Resolved body
  /\ del (H := example_host) (extend regexp BaseModel (Some [("DEL docs/1", handler)]))
       answer "docs/1" JUndefined (JObj [("type", JStr "DEL")])
     = Resolved (JStr "parsed")
  /\ del (H := example_host) (extend regexp BaseModel (Some [("DELETE docs/1", handler)]))
       answer "docs/1" JUndefined JUndefined
     = Resolved (JStr "parsed").
Proof.
  intros regexp handler body answer.
  destruct (@del_parser_needs_explicit_type example_host regexp BaseModel []
              (chars "docs/1") handler answer "docs/1" JUndefined None
              [("type", JStr "DEL")] body JUndefined JUndefined body
              eq_refl eq_refl eq_refl eq_refl eq_refl eq_refl eq_refl)
    as (Hsame & Hdel & Hdelete & _).
  split; [apply (Hsame del); right; right; right; left; reflexivity|].
  split; [reflexivity|].
  split; [exact Hdel|exact Hdelete].
Defined.

(** ** Bindings, further *)

Section Bindings.
Variable this : Controller.
Variable conf : SyncConf.

Lemma step_pending_unavailable (p : jsval) (s : Binding) :
  pending this conf p s ->
  step this conf s (ViewAvailable false) = s.
Proof.
  intros (Hl & Hh & Ha & Hm).
  destruct s as [v pv hl ls av cs]; simpl in Hl, Hh, Ha; subst.
  simpl. unfold on_available, updateView, updateOnAvaible. rewrite Hm. reflexivity.
Qed.

(** X20.  A deferred push survives everything short of the view becoming
    available: change notifications and announcements that the view is still
    unavailable leave the waiting push and its captured previous value as
    they are, and no view handler runs. *)
Theorem pending_push_survives (p : jsval) (evs : list Event) (s : Binding) :
  forallb keeps_unavailable evs = true ->
  pending this conf p s ->
  pending this conf p (run this conf evs s)
  /\ view_calls (run this conf evs s) = view_calls s.
Proof.
  revert s. induction evs as [|e evs IH]; intros s Hall Hs; [auto|].
  simpl in Hall. apply andb_true_iff in Hall as [He Hall].
  change (run this conf (e :: evs) s) with (run this conf evs (step this conf s e)).
  destruct e as [v pass|[|]]; [| discriminate He |].
  - assert (Hstep : pending this conf p (step this conf s (Change v pass))
                    /\ view_calls (step this conf s (Change v pass)) = view_calls s).
    { apply (run_changes_pending this conf p [Change v pass] s eq_refl Hs). }
    destruct Hstep as [Hp Hv]. destruct (IH _ Hall Hp) as [Hp' Hv'].
    split; [exact Hp'|]. rewrite Hv'. exact Hv.
  - rewrite (step_pending_unavailable p s Hs). apply IH; assumption.
Qed.

Lemma updateView_absent (prev : jsval) (s : Binding) :
  member_truthy this (fnView conf) = false -> updateView this conf prev s = s.
Proof. intros Hm. unfold updateView. rewrite Hm. reflexivity. Qed.

Lemma on_change_absent (pass : bool) (s : Binding) :
  member_truthy this (fnView conf) = false ->
  let s' := on_change this conf pass s in
  listeners s' = listeners s /\ hasListened s' = hasListened s
  /\ view_calls s' = view_calls s.
Proof.
  intros Hm. unfold on_change.
  destruct (negb (customFilter conf) || pass); [|auto].
  rewrite updateView_absent by exact Hm.
  destruct (member_truthy this (fnController conf)), (fn conf);
    cbn [log listeners hasListened calls]; (split; [reflexivity|]);
    (split; [reflexivity|]);
    unfold view_calls; cbn [calls log]; rewrite ?List.filter_app; simpl;
    rewrite ?app_nil_r; reflexivity.
Qed.

(** X21.  When the controller has no view handler for the property, a
    binding never waits for the view and never calls a view handler, whatever
    happens to the property and to the view: the missing handler is no error
    and no action. *)
Theorem missing_view_handler_is_no_action (v0 : jsval) (a0 pass pass' : bool)
    (evs : list Event) :
  member_truthy this (fnView conf) = false ->
  let s := run this conf evs (sync this conf v0 a0 pass pass') in
  listeners s = [] /\ hasListened s = false /\ view_calls s = [].
Proof.
  intros Hm.
  assert (Hinit : let s0 := sync this conf v0 a0 pass pass' in
                  listeners s0 = [] /\ hasListened s0 = false /\ view_calls s0 = []).
  { unfold sync. rewrite updateView_absent by exact Hm.
    match goal with
    | |- context [if triggerView conf && _ then ?a else ?a] =>
        replace (if triggerView conf && (negb (customFilter conf) || pass)
                 then a else a) with a
          by (destruct (triggerView conf && (negb (customFilter conf) || pass));
              reflexivity)
    end.
    destruct (trigger conf); [|cbn; auto].
    match goal with
    | |- context [on_change this conf pass' ?s0] =>
        destruct (on_change_absent pass' s0 Hm) as (Hl & Hh & Hv)
    end.
    cbn [listeners hasListened]. unfold view_calls in *. cbn [calls].
    rewrite Hl, Hh, Hv. cbn. auto. }
  cbv zeta in Hinit. revert Hinit.
  generalize (sync this conf v0 a0 pass pass'). intros s0 Hs0. cbv zeta.
  revert s0 Hs0. induction evs as [|e evs IH]; intros s0 Hs0; [exact Hs0|].
  change (run this conf (e :: evs) s0) with (run this conf evs (step this conf s0 e)).
  apply IH.
  destruct Hs0 as (Hl & Hh & Hv). destruct e as [v pass0|b].
  - cbn [step].
    match goal with
    | |- context [on_change this conf pass0 ?s1] =>
        destruct (on_change_absent pass0 s1 Hm) as (Hl' & Hh' & Hv')
    end.
    rewrite Hl', Hh', Hv'. cbn [listeners hasListened]. auto.
  - cbn [step]. rewrite Hl. cbn [fold_left listeners hasListened]. auto.
Qed.
End Bindings.

Section Availability.
Variable this : Controller.
Variable conf : SyncConf.

Lemma updateView_unavailable (prev : jsval) (s : Binding) :
  available s = false ->
  available (updateView this conf prev s) = false
  /\ calls (updateView this conf prev s) = calls s.
Proof.
  intros Ha. unfold updateView, updateOnAvaible. rewrite Ha.
  destruct (member_truthy this (fnView conf)); [|auto].
  destruct (hasListened s); cbn [available calls]; auto.
Qed.

Lemma on_change_unavailable (pass : bool) (s : Binding) :
  available s = false ->
  available (on_change this conf pass s) = false
  /\ view_calls (on_change this conf pass s) = view_calls s.
Proof.
  intros Ha. unfold on_change.
  destruct (negb (customFilter conf) || pass); [|auto].
  match goal with
  | |- context [updateView this conf ?prev ?s0] =>
      assert (Hs0 : available s0 = false /\ view_calls s0 = view_calls s);
      [|destruct Hs0 as [Ha0 Hv0];
        destruct (updateView_unavailable prev s0 Ha0) as [Ha1 Hc1]]
  end.
  { destruct (member_truthy this (fnController conf)), (fn conf);
      cbn [log available]; (split; [exact Ha|]);
      unfold view_calls; cbn [calls log]; rewrite ?List.filter_app; simpl;
      rewrite ?app_nil_r; reflexivity. }
  cbn [available]. split; [exact Ha1|].
  unfold view_calls in *. cbn [calls]. rewrite Hc1. exact Hv0.
Qed.

Lemma replay_unavailable (ls : list jsval) (s : Binding) :
  available s = false ->
  available (fold_left (on_available this conf) ls s) = false
  /\ calls (fold_left (on_available this conf) ls s) = calls s.
Proof.
  revert s. induction ls as [|p ls IH]; intros s Ha; [auto|].
  cbn [fold_left]. unfold on_available at 2 4.
  match goal with
  | |- context [updateView this conf p ?s0] =>
      destruct (updateView_unavailable p s0 Ha) as [Ha1 Hc1]
  end.
  destruct (IH _ Ha1) as [Ha2 Hc2]. split; [exact Ha2|].
  rewrite Hc2. exact Hc1.
Qed.

(** X22.  As long as the view has not become available no view handler is
    called: from a binding set up on an unavailable view, change
    notifications and announcements that the view is still unavailable never
    reach a view handler. *)
Theorem unavailable_view_is_never_called (v0 : jsval) (pass pass' : bool)
    (evs : list Event) :
  forallb keeps_unavailable evs = true ->
  let s := run this conf evs (sync this conf v0 false pass pass') in
  view_calls s = [] /\ available s = false.
Proof.
  intros Hall.
  assert (Hinit : view_calls (sync this conf v0 false pass pass') = []
                  /\ available (sync this conf v0 false pass pass') = false).
  { unfold sync.
    match goal with
    | |- context [if trigger conf then on_change this conf pass' ?s1 else _] =>
        assert (H1 : available s1 = false /\ view_calls s1 = [])
    end.
    { destruct (triggerView conf && (negb (customFilter conf) || pass)); [|auto].
      match goal with
      | |- context [updateView this conf JUndefined ?s0] =>
          destruct (updateView_unavailable JUndefined s0 eq_refl) as [Ha Hc]
      end.
      split; [exact Ha|]. unfold view_calls. rewrite Hc. reflexivity. }
    destruct H1 as [Ha1 Hv1].
    destruct (trigger conf).
    - match goal with
      | |- context [on_change this conf pass' ?s1] =>
          destruct (on_change_unavailable pass' s1 Ha1) as [Ha2 Hv2]
      end.
      cbn [available]. unfold view_calls in *. cbn [calls].
      rewrite Hv2, Hv1. auto.
    - cbn [available]. unfold view_calls in *. cbn [calls]. auto. }
  revert Hinit. generalize (sync this conf v0 false pass pass'). intros s0 Hs0.
  cbv zeta. revert s0 Hs0.
  induction evs as [|e evs IH]; intros s0 Hs0; [exact Hs0|].
  simpl in Hall. apply andb_true_iff in Hall as [He Hall].
  change (run this conf (e :: evs) s0) with (run this conf evs (step this conf s0 e)).
  apply (IH Hall). destruct Hs0 as [Hv Ha].
  destruct e as [v pass0|[|]]; [| discriminate He |].
  - cbn [step].
    match goal with
    | |- context [on_change this conf pass0 ?s1] =>
        destruct (on_change_unavailable pass0 s1 Ha) as [Ha' Hv']
    end.
    split; [|exact Ha']. rewrite Hv'. exact Hv.
  - cbn [step].
    match goal with
    | |- context [fold_left (on_available this conf) ?ls ?s1] =>
        destruct (replay_unavailable ls s1 eq_refl) as [Ha' Hc']
    end.
    split; [|exact Ha']. unfold view_calls in *. rewrite Hc'. exact Hv.
Qed.

Lemma step_change_accepted (v : jsval) (pass : bool) (s : Binding) :
  negb (customFilter conf) || pass = true ->
  available s = true ->
  step this conf s (Change v pass)
  = {| value := v; previousValue := v; hasListened := hasListened s;
       listeners := listeners s; available := true;
       calls := calls s ++ change_calls this conf v (previousValue s) |}.
Proof.
  intros Hpass Ha. destruct s as [v0 pv hl ls av cs]; simpl in Ha; subst.
  cbn [step]. unfold on_change, updateView, change_calls. rewrite Hpass.
  destruct (member_truthy this (fnController conf)), (fn conf),
    (member_truthy this (fnView conf));
    cbn [log value previousValue hasListened listeners available calls getter];
    rewrite <- ?app_assoc; cbn [app]; rewrite ?app_nil_r; reflexivity.
Qed.

Lemma step_change_rejected (v : jsval) (s : Binding) :
  customFilter conf = true ->
  step this conf s (Change v false)
  = {| value := v; previousValue := previousValue s; hasListened := hasListened s;
       listeners := listeners s; available := available s; calls := calls s |}.
Proof. intros Hc. cbn [step]. unfold on_change. rewrite Hc. reflexivity. Qed.

Lemma last_cons (v d : jsval) (l : list jsval) :
  List.last (v :: l) d = List.last l v.
Proof.
  revert v d. induction l as [|x l IH]; intros v d; [reflexivity|].
  change (List.last (v :: x :: l) d) with (List.last (x :: l) d).
  rewrite (IH x d), (IH x v). reflexivity.
Qed.

(** X23.  With the view available every accepted change calls the controller
    handler, the callback and the view handler at once, in that order, each
    with the new value and, as previous value, the value of the change
    before it (for the first one, the value the binding last recorded). *)
Theorem available_changes_report_previous (changes : list (jsval * bool))
    (s : Binding) :
  customFilter conf = false ->
  available s = true ->
  let s' := run this conf (map (fun vp => Change (fst vp) (snd vp)) changes) s in
  calls s' = (calls s ++ changes_calls this conf (previousValue s) (map fst changes))%list
  /\ previousValue s' = List.last (map fst changes) (previousValue s)
  /\ listeners s' = listeners s.
Proof.
  intros Hc. revert s. induction changes as [|[v pass] changes IH]; intros s Ha.
  - cbn. rewrite app_nil_r. auto.
  - cbv zeta.
    change (run this conf (map (fun vp => Change (fst vp) (snd vp)) ((v, pass) :: changes)) s)
      with (run this conf (map (fun vp => Change (fst vp) (snd vp)) changes)
              (step this conf s (Change v pass))).
    rewrite step_change_accepted by (rewrite ?Hc; auto).
    match goal with
    | |- context [run this conf _ ?s1] => destruct (IH s1 eq_refl) as (Hcalls & Hprev & Hl)
    end.
    cbv zeta in Hcalls, Hprev, Hl. rewrite Hcalls, Hprev, Hl.
    cbn [calls previousValue listeners map fst changes_calls].
    rewrite <- app_assoc. split; [reflexivity|]. split; [|reflexivity].
    symmetry. apply last_cons.
Qed.

(** X24.  A change the filter rejects leaves no trace in the binding: no
    handler is called and the recorded previous value stays, so with the view
    available the next accepted change reports the value of the last accepted
    one as previous, not the rejected value. *)
Theorem rejected_change_is_skipped (v1 v2 : jsval) (s : Binding) :
  customFilter conf = true ->
  available s = true ->
  calls (step this conf s (Change v1 false)) = calls s
  /\ previousValue (step this conf s (Change v1 false)) = previousValue s
  /\ calls (run this conf [Change v1 false; Change v2 true] s)
     = (calls s ++ change_calls this conf v2 (previousValue s))%list.
Proof.
  intros Hc Ha. rewrite step_change_rejected by exact Hc.
  cbn [calls previousValue]. split; [reflexivity|]. split; [reflexivity|].
  change (run this conf [Change v1 false; Change v2 true] s)
    with (step this conf (step this conf s (Change v1 false)) (Change v2 true)).
  rewrite step_change_rejected by exact Hc.
  rewrite step_change_accepted by (rewrite ?orb_true_r; auto).
  reflexivity.
Qed.
End Availability.

Lemma pending_push_survives_witness :
  let this := title_controller in
  let conf := title_conf_no_initial_push in
  let s := run this conf [Change (JStr "A") true]
             (sync this conf (JStr "v0") false true true) in
  let evs := [Change (JStr "B") true; ViewAvailable false; Change (JStr "C") true] in
  pending this conf (JStr "v0") (run this conf evs s)
  /\ view_calls (run this conf evs s) = view_calls s.
Proof.
  apply (pending_push_survives title_controller title_conf_no_initial_push (JStr "v0")
           [Change (JStr "B") true; ViewAvailable false; Change (JStr "C") true]);
    [reflexivity|].
  unfold pending. repeat split; reflexivity.
Defined.

Lemma missing_view_handler_is_no_action_witness :
  let s := run bare_controller bare_title_conf
             [Change (JStr "A") true; ViewAvailable true]
             (sync bare_controller bare_title_conf (JStr "v0") false true true) in
  listeners s = [] /\ hasListened s = false /\ view_calls s = [].
Proof.
  apply (missing_view_handler_is_no_action bare_controller bare_title_conf (JStr "v0")
           false true true [Change (JStr "A") true; ViewAvailable true]).
  reflexivity.
Defined.

Lemma unavailable_view_is_never_called_witness :
  let s := run title_controller title_conf
             [Change (JStr "A") true; ViewAvailable false; Change (JStr "B") true]
             (sync title_controller title_conf (JStr "v0") false true true) in
  view_calls s = [] /\ available s = false.
Proof.
  apply (unavailable_view_is_never_called title_controller title_conf (JStr "v0")
           true true
           [Change (JStr "A") true; ViewAvailable false; Change (JStr "B") true]).
  reflexivity.
Defined.

Lemma available_changes_report_previous_witness :
  let this := title_controller in
  let conf := title_conf in
  let s := sync this conf (JStr "v0") true true true in
  let s' := run this conf [Change (JStr "A") true; Change (JStr "B") false] s in
  calls s' = (calls s ++ changes_calls this conf (JStr "v0") [JStr "A"; JStr "B"])%list
  /\ previousValue s' = JStr "B"
  /\ listeners s' = [].
Proof.
  apply (available_changes_report_previous title_controller title_conf
           [(JStr "A", true); (JStr "B", false)]
           (sync title_controller title_conf (JStr "v0") true true true));
    reflexivity.
Defined.

Lemma rejected_change_is_skipped_witness :
  let this := title_controller in
  let conf := title_conf_filtered in
  let s := sync this conf (JStr "v0") true true true in
  calls (step this conf s (Change (JStr "A") false)) = calls s
  /\ previousValue (step this conf s (Change (JStr "A") false)) = JStr "v0"
  /\ calls (run this conf [Change (JStr "A") false; Change (JStr "B") true] s)
     = (calls s ++ change_calls this conf (JStr "B") (JStr "v0"))%list.
Proof.
  apply (rejected_change_is_skipped title_controller title_conf_filtered
           (JStr "A") (JStr "B")
           (sync title_controller title_conf_filtered (JStr "v0") true true true));
    reflexivity.
Defined.

(** ** The forms of [sync] *)

Lemma last_section_plain (cur name : list ascii) :
  period_free name = true -> last_section cur name = (rev cur ++ name)%list.
Proof.
  revert cur. induction name as [|c name IH]; intros cur Hn.
  - cbn. rewrite app_nil_r. reflexivity.
  - simpl in Hn. apply andb_true_iff in Hn as [Hc Hn]. apply negb_true_iff in Hc.
    cbn [last_section]. rewrite Hc, IH by exact Hn.
    cbn [rev]. rewrite <- app_assoc. reflexivity.
Qed.

Lemma last_section_dotted (cur obj name : list ascii) :
  period_free name = true -> last_section cur (obj ++ period :: name) = name.
Proof.
  intros Hn. revert cur. induction obj as [|c obj IH]; intros cur.
  - cbn [app last_section]. change (Ascii.eqb period period) with true. cbv iota.
    apply (last_section_plain [] name Hn).
  - cbn [app last_section]. destruct (Ascii.eqb c period); apply IH.
Qed.

(** X25.  For a dotted path [sync] watches the last section: the controller
    handler it looks for is named after that section alone, followed by
    DidChange, while the view handler is named after the whole path. *)
Theorem sync_watches_last_section `{Host} (this : Controller)
    (obj name : list ascii) (fn_given : bool) :
  period_free name = true ->
  let property := str (obj ++ period :: name) in
  let conf := sync_conf this property SyncNothing fn_given in
  propertyName property = str name
  /\ fnController conf = str name +:+ "DidChange"
  /\ fnView conf
     = "refresh" +:+ camelCaseFromNamespace (JStr property) +:+ "PropertyOnView"
  /\ propertyName (str name) = str name.
Proof.
  intros Hn property conf.
  assert (Hp : propertyName property = str name).
  { unfold propertyName, property. rewrite chars_str, last_section_dotted by exact Hn.
    reflexivity. }
  split; [exact Hp|]. split; [|split].
  - subst conf. unfold sync_conf. cbn [fnController no_options o_targetHandler
      or_default is_undefined ToString]. rewrite Hp. reflexivity.
  - reflexivity.
  - unfold propertyName. rewrite chars_str, last_section_plain by exact Hn. reflexivity.
Qed.

Lemma sync_watches_last_section_witness :
  let conf := sync_conf (H := example_host) title_controller "document.title"
                SyncNothing false in
  propertyName "document.title" = "title"
  /\ fnController conf = "titleDidChange"
  /\ fnView conf = "refreshDocumentTitlePropertyOnView"
  /\ propertyName "title" = "title".
Proof.
  apply (@sync_watches_last_section example_host title_controller
           (chars "document") (chars "title") false).
  reflexivity.
Defined.



(** ** [bind] *)

(** X27.  The callback of [bind] is applied to an event exactly when the
    filter is a function, given as such or as the name of a function member
    of the controller, and answers with a truthy value.  In particular
    [bind] without a filter never applies the callback, because the filter
    of the defaults returns nothing; and a filter that is falsy without being
    undefined, or that names no function, makes the listener throw. *)
Theorem bind_applies_callback_iff (this : Controller) (filter : BindFilter)
    (answer : jsval) :
  (bind_listener this filter answer = CallbackApplied
   <-> truthy answer = true
       /\ (filter = BindFilterFunction
           \/ exists name, filter = BindFilterName name /\ name <> EmptyString
                           /\ member_is_function this name = true))
  /\ bind_listener this BindFilterUndefined answer = CallbackSkipped
  /\ bind_listener this BindFilterFalsy answer = FilterTypeError
  /\ (forall name, member_is_function this name = false ->
        bind_listener this (BindFilterName name) answer = FilterTypeError).
Proof.
  split; [|split; [reflexivity|split; [reflexivity|]]].
  - unfold bind_listener, bind_filter. split.
    + destruct filter as [| |name| |]; try discriminate.
      * destruct (String.eqb_spec name EmptyString) as [->|Hne]; [discriminate|].
        destruct (member_is_function this name) eqn:Hf; [|discriminate].
        destruct (truthy answer); [|discriminate].
        intros _. split; [reflexivity|]. right. exists name. auto.
      * destruct (truthy answer); [|discriminate]. auto.
    + intros [Hanswer [->|(name & -> & Hne & Hf)]].
      * rewrite Hanswer. reflexivity.
      * destruct (String.eqb_spec name EmptyString) as [->|_]; [contradiction|].
        rewrite Hf, Hanswer. reflexivity.
  - intros name Hf. unfold bind_listener, bind_filter. rewrite Hf.
    destruct (String.eqb name EmptyString); reflexivity.
Qed.

Lemma bind_applies_callback_iff_witness :
  bind_listener title_controller (BindFilterName "isReady") (JBool true)
  = FilterTypeError.
Proof.
  destruct (bind_applies_callback_iff title_controller BindFilterUndefined (JBool true))
    as (_ & _ & _ & Hname).
  apply (Hname "isReady"). reflexivity.
Defined.

(** ** Unload and destroy, in sequence *)

Lemma filter_app_nil {A} (f : A -> bool) (l k : list A) :
  List.filter f k = [] -> List.filter f (l ++ k) = List.filter f l.
Proof. intros Hk. rewrite List.filter_app, Hk. apply app_nil_r. Qed.

Lemma teardowns_of_map (l : list string) :
  List.filter is_teardown (map Teardown l) = map Teardown l
  /\ List.filter is_view_unload (map Teardown l) = []
  /\ List.filter is_view_destroy (map Teardown l) = [].
Proof.
  induction l as [|c l (IH1 & IH2 & IH3)]; [auto|].
  cbn [map List.filter is_teardown is_view_unload is_view_destroy].
  rewrite IH1, IH2, IH3. auto.
Qed.

Lemma unload_fresh_settled (callbacks : list string) (v : string) (cb : jsval) :
  snd (unload cb (fresh_controller callbacks v)) = Normal
  /\ settled callbacks (fst (unload cb (fresh_controller callbacks v)))
  /\ view (fst (unload cb (fresh_controller callbacks v))) = Some v.
Proof.
  unfold unload, fresh_controller. cbn [_unloaded strict_true negb _unbind effects view
    fst snd].
  rewrite pop_all_spec. cbn [app].
  destruct (teardowns_of_map (rev callbacks)) as (Ht & Hu & Hd).
  split; [reflexivity|]. split; [|reflexivity].
  unfold settled. cbn [_unloaded effects view].
  rewrite <- !app_assoc, !List.filter_app, Ht, Hu, Hd. cbn. rewrite app_nil_r. auto.
Qed.

Lemma destroy_fresh_settled (callbacks : list string) (v : string) :
  snd (destroy (fresh_controller callbacks v)) = Normal
  /\ settled callbacks (fst (destroy (fresh_controller callbacks v)))
  /\ view (fst (destroy (fresh_controller callbacks v))) = None.
Proof.
  assert (Hd : destroy (fresh_controller callbacks v)
               = ({| _unloaded := JBool true; _unbind := []; view := None;
                     effects := (map Teardown (rev callbacks)
                                 ++ [Trigger "unload"; ViewUnload v JUndefined;
                                     ViewDestroy v; SuperDestroy])%list |}, Normal)).
  { unfold destroy, unload, destroyView, fresh_controller.
    cbn [_unloaded strict_true negb _unbind effects view fst snd].
    rewrite pop_all_spec. cbn [app]. rewrite <- !app_assoc. reflexivity. }
  rewrite Hd. cbn [fst snd view]. split; [reflexivity|]. split; [|reflexivity].
  destruct (teardowns_of_map (rev callbacks)) as (Ht & Hu & Hv).
  unfold settled. cbn [_unloaded effects view].
  rewrite !List.filter_app, Ht, Hu, Hv. cbn. rewrite app_nil_r. auto.
Qed.

Lemma destroy_settled (callbacks : list string) (s : ControllerState) :
  settled callbacks s ->
  snd (destroy s) = Normal /\ settled callbacks (fst (destroy s))
  /\ view (fst (destroy s)) = None.
Proof.
  intros (Hun & Ht & Hu & Hd). unfold destroy. rewrite Hun.
  cbn [strict_true negb fst snd]. unfold destroyView.
  cbn [_unloaded _unbind view effects fst].
  split; [reflexivity|]. split; [|reflexivity].
  unfold settled. cbn [_unloaded effects view].
  rewrite !List.filter_app.
  destruct (view s); cbn [List.filter is_teardown is_view_unload is_view_destroy];
    rewrite ?app_nil_r, ?length_app; cbn [length]; rewrite ?Hu, ?Hd, ?Ht; auto.
Qed.

Lemma unload_settled (callbacks : list string) (cb : jsval) (s : ControllerState) :
  settled callbacks s -> unload cb s = (s, Normal).
Proof.
  intros (Hun & _). unfold unload. rewrite Hun. reflexivity.
Qed.

Lemma lifecycle_settled (callbacks : list string) (calls : list LifecycleCall)
    (s : ControllerState) :
  settled callbacks s ->
  Forall (eq Normal) (snd (lifecycle calls s))
  /\ settled callbacks (fst (lifecycle calls s))
  /\ view (fst (lifecycle calls s))
     = if existsb is_destroy calls then None else view s.
Proof.
  revert s. induction calls as [|c calls IH]; intros s Hs.
  - cbn. auto.
  - cbn [lifecycle fst snd existsb]. destruct c as [cb|].
    + cbn [lifecycle_step is_destroy orb]. rewrite (unload_settled callbacks cb s Hs).
      cbn [fst snd]. destruct (IH s Hs) as (Hall & Hset & Hview).
      split; [constructor; [reflexivity | exact Hall]|]. auto.
    + cbn [lifecycle_step is_destroy orb].
      destruct (destroy_settled callbacks s Hs) as (Hn & Hs' & Hv').
      destruct (IH _ Hs') as (Hall & Hset & Hview).
      split; [constructor; [symmetry; exact Hn | exact Hall]|].
      split; [exact Hset|]. rewrite Hview, Hv'.
      destruct (existsb is_destroy calls); reflexivity.
Qed.

(** X28.  Whatever calls of [unload] and [destroy] follow one another on a
    controller that has its view, none of them throws, every teardown
    callback runs exactly once, last registered first, the view is unloaded
    exactly once, and the view is destroyed once if [destroy] was among the
    calls and not at all otherwise. *)
Theorem teardown_runs_once (callbacks : list string) (v : string)
    (first : LifecycleCall) (rest : list LifecycleCall) :
  let r := lifecycle (first :: rest) (fresh_controller callbacks v) in
  Forall (eq Normal) (snd r)
  /\ List.filter is_teardown (effects (fst r)) = map Teardown (rev callbacks)
  /\ length (List.filter is_view_unload (effects (fst r))) = 1%nat
  /\ length (List.filter is_view_destroy (effects (fst r)))
     = (if existsb is_destroy (first :: rest) then 1%nat else 0%nat)
  /\ _unloaded (fst r) = JBool true.
Proof.
  cbn [lifecycle fst snd existsb].
  assert (Hfirst : snd (lifecycle_step (fresh_controller callbacks v) first) = Normal
                   /\ settled callbacks (fst (lifecycle_step (fresh_controller callbacks v) first))
                   /\ view (fst (lifecycle_step (fresh_controller callbacks v) first))
                      = if is_destroy first then None else Some v).
  { destruct first as [cb|]; cbn [lifecycle_step is_destroy].
    - apply unload_fresh_settled.
    - apply destroy_fresh_settled. }
  destruct Hfirst as (Hn & Hs & Hv).
  destruct (lifecycle_settled callbacks rest _ Hs) as (Hall & Hset & Hview).
  split; [constructor; [symmetry; exact Hn | exact Hall]|].
  destruct Hset as (Hun & Ht & Hu & Hd).
  split; [exact Ht|]. split; [exact Hu|]. split; [|exact Hun].
  rewrite Hd, Hview, Hv.
  destruct (is_destroy first), (existsb is_destroy rest); reflexivity.
Qed.

(** ** The pattern of a parser path *)

Lemma word_is_ordinary (c : ascii) :
  is_word c = true ->
  needs_escape c = false /\ Ascii.eqb c lparen = false
  /\ Ascii.eqb c rparen = false /\ Ascii.eqb c colon = false
  /\ Ascii.eqb c star = false /\ line_terminator c = false.
Proof.
  destruct c as [[] [] [] [] [] [] [] []]; vm_compute; intros H;
    first [discriminate H | repeat split].
Qed.

Lemma escape_pass_app (a b : list ascii) :
  escape_pass (a ++ b) = (escape_pass a ++ escape_pass b)%list.
Proof.
  induction a as [|c a IH]; [reflexivity|].
  cbn [app escape_pass]. rewrite IH. destruct (needs_escape c); reflexivity.
Qed.

Lemma escape_pass_word (w : list ascii) : all_word w = true -> escape_pass w = w.
Proof.
  induction w as [|c w IH]; intros Hw; [reflexivity|].
  simpl in Hw. apply andb_true_iff in Hw as [Hc Hw].
  cbn [escape_pass]. destruct (word_is_ordinary c Hc) as (-> & _).
  rewrite IH by exact Hw. reflexivity.
Qed.

Lemma is_name_word (name : list ascii) : is_name name = true -> all_word name = true.
Proof. destruct name; [discriminate|]. intros H; exact H. Qed.

Lemma escape_pass_segment (s : segment) :
  well_formed [s] = true -> escape_pass (render s) = after_escape s.
Proof.
  destruct s as [c|name|name]; cbn [well_formed render after_escape escape_pass].
  - intros _. destruct (needs_escape c); reflexivity.
  - rewrite !andb_true_r. intros H. apply is_name_word in H.
    change (needs_escape colon) with false. cbv iota.
    rewrite escape_pass_word by exact H. reflexivity.
  - rewrite !andb_true_r. intros H. apply is_name_word in H.
    change (needs_escape star) with false. cbv iota.
    rewrite escape_pass_word by exact H. reflexivity.
Qed.

Lemma well_formed_head (s : segment) (segs : list segment) :
  well_formed (s :: segs) = true -> well_formed [s] = true /\ well_formed segs = true.
Proof.
  destruct s as [c|name|name]; cbn [well_formed name_ends];
    rewrite ?andb_true_iff, ?andb_true_r; tauto.
Qed.

Lemma escape_pass_path (segs : list segment) :
  well_formed segs = true ->
  escape_pass (path_of segs) = concat (map after_escape segs).
Proof.
  induction segs as [|s segs IH]; intros Hwf; [reflexivity|].
  apply well_formed_head in Hwf as [Hs Hwf].
  unfold path_of in *. cbn [map concat]. rewrite escape_pass_app, IH by exact Hwf.
  rewrite escape_pass_segment by exact Hs. reflexivity.
Qed.

Lemma plain_char_spec (c : ascii) :
  plain_char c = true ->
  Ascii.eqb c lparen = false /\ Ascii.eqb c rparen = false
  /\ Ascii.eqb c colon = false /\ Ascii.eqb c star = false.
Proof.
  unfold plain_char. rewrite negb_true_iff, !orb_false_iff. tauto.
Qed.

Lemma optional_pass_skip (x rest : list ascii) :
  optional_pass (length x) (x ++ rest) = optional_pass 0 rest.
Proof. induction x as [|c x IH]; [reflexivity|]. exact IH. Qed.

Lemma optional_pass_plain (a rest : list ascii) :
  lparen_free a = true ->
  optional_pass 0 (a ++ rest) = (a ++ optional_pass 0 rest)%list.
Proof.
  induction a as [|c a IH]; intros Ha; [reflexivity|].
  simpl in Ha. apply andb_true_iff in Ha as [Hc Ha]. apply negb_true_iff in Hc.
  cbn [app optional_pass]. rewrite Hc, IH by exact Ha. reflexivity.
Qed.

Lemma find_close_spec (a rest : list ascii) :
  closes a = true -> find_close (a ++ rparen :: rest) = Some a.
Proof.
  induction a as [|c a IH]; intros Ha; [reflexivity|].
  simpl in Ha. apply andb_true_iff in Ha as [Hc Ha].
  apply andb_true_iff in Hc as [Hr Hl].
  apply negb_true_iff in Hr. apply negb_true_iff in Hl.
  cbn [app find_close]. rewrite Hr, Hl, IH by exact Ha. reflexivity.
Qed.

Lemma optional_pass_group (a rest : list ascii) :
  closes a = true ->
  optional_pass 0 (lparen :: a ++ rparen :: rest)
  = (chars "(?:" ++ a ++ chars ")?" ++ optional_pass 0 rest)%list.
Proof.
  intros Ha. cbn [optional_pass]. change (Ascii.eqb lparen lparen) with true.
  cbv iota. rewrite find_close_spec by exact Ha.
  do 3 f_equal.
  change (a ++ rparen :: rest)%list with (a ++ [rparen] ++ rest)%list.
  rewrite app_assoc.
  replace (S (length a)) with (length (a ++ [rparen])%list)
    by (rewrite length_app; simpl; lia).
  apply optional_pass_skip.
Qed.

Lemma word_lparen_free (w : list ascii) : all_word w = true -> lparen_free w = true.
Proof.
  induction w as [|c w IH]; intros Hw; [reflexivity|].
  simpl in Hw. apply andb_true_iff in Hw as [Hc Hw].
  destruct (word_is_ordinary c Hc) as (_ & Hl & _).
  simpl. rewrite Hl, IH by exact Hw. reflexivity.
Qed.

Lemma word_closes (w : list ascii) : all_word w = true -> closes w = true.
Proof.
  induction w as [|c w IH]; intros Hw; [reflexivity|].
  simpl in Hw. apply andb_true_iff in Hw as [Hc Hw].
  destruct (word_is_ordinary c Hc) as (_ & _ & Hr & _ & _ & Hl).
  simpl. rewrite Hr, Hl, IH by exact Hw. reflexivity.
Qed.

Lemma lparen_free_app (a b : list ascii) :
  lparen_free (a ++ b) = lparen_free a && lparen_free b.
Proof. apply forallb_app. Qed.

Lemma closes_app (a b : list ascii) : closes (a ++ b) = closes a && closes b.
Proof. apply forallb_app. Qed.

Lemma after_escape_lparen_free (segs : list segment) :
  well_formed segs = true -> lparen_free (concat (map after_escape segs)) = true.
Proof.
  induction segs as [|s segs IH]; intros Hwf; [reflexivity|].
  apply well_formed_head in Hwf as [Hs Hwf].
  cbn [map concat]. rewrite lparen_free_app, IH by exact Hwf. rewrite andb_true_r.
  destruct s as [c|name|name]; cbn [well_formed after_escape] in *;
    rewrite ?andb_true_r in Hs.
  - apply plain_char_spec in Hs as (Hl & _).
    destruct (needs_escape c); simpl; rewrite Hl; reflexivity.
  - apply is_name_word, word_lparen_free in Hs. simpl. exact Hs.
  - apply is_name_word, word_lparen_free in Hs. simpl. exact Hs.
Qed.

Lemma after_escape_closes (segs : list segment) :
  well_formed segs = true -> single_line segs = true ->
  closes (concat (map after_escape segs)) = true.
Proof.
  induction segs as [|s segs IH]; intros Hwf Hline; [reflexivity|].
  apply well_formed_head in Hwf as [Hs Hwf].
  simpl in Hline. apply andb_true_iff in Hline as [Hc Hline].
  cbn [map concat]. rewrite closes_app, IH by assumption. rewrite andb_true_r.
  destruct s as [c|name|name]; cbn [well_formed after_escape] in *;
    rewrite ?andb_true_r in Hs.
  - apply plain_char_spec in Hs as (_ & Hr & _).
    destruct (needs_escape c); simpl; rewrite Hr, Hc; reflexivity.
  - apply is_name_word, word_closes in Hs. simpl. exact Hs.
  - apply is_name_word, word_closes in Hs. simpl. exact Hs.
Qed.

Lemma named_pass_skip (x rest : list ascii) :
  named_pass (length x) (x ++ rest) = named_pass 0 rest.
Proof. induction x as [|c x IH]; [reflexivity|]. exact IH. Qed.

Lemma named_pass_other (c : ascii) (rest : list ascii) :
  Ascii.eqb c lparen = false -> Ascii.eqb c colon = false ->
  named_pass 0 (c :: rest) = c :: named_pass 0 rest.
Proof. intros Hl Hc. cbn [named_pass]. rewrite Hl, Hc. reflexivity. Qed.

Lemma named_pass_word (w rest : list ascii) :
  all_word w = true -> named_pass 0 (w ++ rest) = (w ++ named_pass 0 rest)%list.
Proof.
  induction w as [|c w IH]; intros Hw; [reflexivity|].
  simpl in Hw. apply andb_true_iff in Hw as [Hc Hw].
  destruct (word_is_ordinary c Hc) as (_ & Hl & _ & Hcolon & _).
  cbn [app]. rewrite named_pass_other, IH by assumption. reflexivity.
Qed.

Lemma word_prefix_split (l : list ascii) :
  all_word (word_prefix l) = true
  /\ l = (word_prefix l ++ drop (length (word_prefix l)) l)%list.
Proof.
  induction l as [|c l [IHw IHl]]; [split; reflexivity|].
  cbn [word_prefix]. destruct (is_word c) eqn:Hc.
  - split; [simpl; rewrite Hc; exact IHw|].
    cbn [length drop app]. rewrite <- IHl. reflexivity.
  - split; reflexivity.
Qed.

Lemma named_pass_group (x : list ascii) :
  named_pass 0 (chars "(?:" ++ x) = (chars "(?:" ++ named_pass 0 x)%list.
Proof.
  destruct (word_prefix_split x) as [Hw Hx].
  change (chars "(?:" ++ x)%list with (lparen :: question :: colon :: x).
  change (chars "(?:" ++ named_pass 0 x)%list
    with (lparen :: question :: colon :: named_pass 0 x).
  cbn [named_pass]. change (Ascii.eqb lparen lparen) with true.
  change (Ascii.eqb question question && Ascii.eqb colon colon) with true.
  change (Ascii.eqb question lparen) with false.
  change (Ascii.eqb question colon) with false.
  change (Ascii.eqb colon lparen) with false.
  change (Ascii.eqb colon colon) with true. cbv iota.
  destruct (word_prefix x) as [|a w] eqn:Hprefix; [reflexivity|].
  change (2 + length (a :: w))%nat with (S (S (length (a :: w)))). cbv iota.
  do 3 f_equal. remember (drop (length (a :: w)) x) as tail eqn:Htail.
  clear Htail Hprefix. rewrite Hx.
  rewrite named_pass_skip, named_pass_word by exact Hw. reflexivity.
Qed.

Lemma ends_after_escape (segs : list segment) (rest : list ascii) :
  well_formed segs = true -> name_ends segs = true -> ends_word rest = true ->
  ends_word (concat (map after_escape segs) ++ rest) = true.
Proof.
  destruct segs as [|[c|name|name] segs]; intros Hwf Hends Hrest;
    cbn [map concat after_escape name_ends] in *; try reflexivity.
  - exact Hrest.
  - destruct (needs_escape c); [reflexivity|]. exact Hends.
Qed.

Lemma ends_after_named (segs : list segment) (rest : list ascii) :
  well_formed segs = true -> name_ends segs = true -> ends_word rest = true ->
  ends_word (concat (map after_named segs) ++ rest) = true.
Proof.
  destruct segs as [|[c|name|name] segs]; intros Hwf Hends Hrest;
    cbn [map concat after_named after_escape name_ends] in *; try reflexivity.
  - exact Hrest.
  - destruct (needs_escape c); [reflexivity|]. exact Hends.
Qed.

Lemma named_pass_segments (segs : list segment) (rest : list ascii) :
  well_formed segs = true -> ends_word rest = true ->
  named_pass 0 (concat (map after_escape segs) ++ rest)
  = (concat (map after_named segs) ++ named_pass 0 rest)%list.
Proof.
  induction segs as [|s segs IH]; intros Hwf Hrest; [reflexivity|].
  pose proof Hwf as Hall. apply well_formed_head in Hwf as [Hs Hwf].
  cbn [map concat]. rewrite <- !app_assoc.
  destruct s as [c|name|name]; cbn [well_formed after_escape after_named] in *.
  - rewrite andb_true_r in Hs. apply plain_char_spec in Hs as (Hl & _ & Hc & _).
    destruct (needs_escape c); cbn [app];
      rewrite ?(named_pass_other backslash) by reflexivity;
      rewrite named_pass_other, IH by assumption; reflexivity.
  - apply andb_true_iff in Hall as [Hall _].
    apply andb_true_iff in Hall as [Hname Hends].
    pose proof (is_name_word _ Hname) as Hw.
    assert (Hprefix : word_prefix (name ++ concat (map after_escape segs) ++ rest) = name)
      by (apply word_prefix_app; [exact Hw|apply ends_after_escape; assumption]).
    cbn [app named_pass]. change (Ascii.eqb colon lparen) with false.
    change (Ascii.eqb colon colon) with true. cbv iota. rewrite Hprefix.
    destruct name as [|a name]; [discriminate Hname|].
    rewrite named_pass_skip, IH by assumption. reflexivity.
  - apply andb_true_iff in Hall as [Hall _].
    apply andb_true_iff in Hall as [Hname Hends].
    pose proof (is_name_word _ Hname) as Hw.
    cbn [app]. rewrite named_pass_other by reflexivity.
    rewrite named_pass_word, IH by assumption. reflexivity.
Qed.

Lemma splat_pass_skip (x rest : list ascii) :
  splat_pass (length x) (x ++ rest) = splat_pass 0 rest.
Proof. induction x as [|c x IH]; [reflexivity|]. exact IH. Qed.

Lemma splat_pass_other (c : ascii) (rest : list ascii) :
  Ascii.eqb c star = false -> splat_pass 0 (c :: rest) = c :: splat_pass 0 rest.
Proof. intros Hc. cbn [splat_pass]. rewrite Hc. reflexivity. Qed.

Lemma splat_pass_segments (segs : list segment) (rest : list ascii) :
  well_formed segs = true -> ends_word rest = true ->
  splat_pass 0 (concat (map after_named segs) ++ rest)
  = (source_of segs ++ splat_pass 0 rest)%list.
Proof.
  unfold source_of.
  induction segs as [|s segs IH]; intros Hwf Hrest; [reflexivity|].
  pose proof Hwf as Hall. apply well_formed_head in Hwf as [Hs Hwf].
  cbn [map concat]. rewrite <- !app_assoc.
  destruct s as [c|name|name];
    cbn [well_formed after_escape after_named segment_source] in *.
  - rewrite andb_true_r in Hs. apply plain_char_spec in Hs as (_ & _ & _ & Hc).
    destruct (needs_escape c); cbn [app];
      rewrite ?(splat_pass_other backslash) by reflexivity;
      rewrite splat_pass_other, IH by assumption; reflexivity.
  - change (chars "([^/]+)") with
      [lparen; ascii_of_nat 91; ascii_of_nat 94; ascii_of_nat 47; ascii_of_nat 93;
       ascii_of_nat 43; rparen].
    cbn [app]. rewrite !splat_pass_other by reflexivity.
    rewrite IH by assumption. reflexivity.
  - apply andb_true_iff in Hall as [Hall _].
    apply andb_true_iff in Hall as [Hname Hends].
    pose proof (is_name_word _ Hname) as Hw.
    assert (Hprefix : word_prefix (name ++ concat (map after_named segs) ++ rest) = name)
      by (apply word_prefix_app; [exact Hw|apply ends_after_named; assumption]).
    cbn [app splat_pass]. change (Ascii.eqb star star) with true. cbv iota.
    rewrite Hprefix. destruct name as [|a name]; [discriminate Hname|].
    rewrite splat_pass_skip, IH by assumption. reflexivity.
Qed.

Lemma route_source_segments (segs : list segment) :
  well_formed segs = true ->
  route_source (str (path_of segs)) = "^" +:+ str (source_of segs) +:+ "$".
Proof.
  intros Hwf. unfold route_source. rewrite chars_str, escape_pass_path by exact Hwf.
  rewrite <- (app_nil_r (concat (map after_escape segs))).
  rewrite optional_pass_plain by (apply after_escape_lparen_free; exact Hwf).
  cbn [optional_pass]. rewrite named_pass_segments by (exact Hwf || reflexivity).
  cbn [named_pass]. rewrite splat_pass_segments by (exact Hwf || reflexivity).
  cbn [splat_pass]. rewrite app_nil_r. reflexivity.
Qed.

(** X29. The pattern of a path made of single characters, [:name]
    parameters and [*name] splats is, between [^] and [$], the path with
    every character of the escape class behind a backslash, every parameter
    replaced by [([^/]+)] and every splat by [(.*?)]; a key that is such a
    path alone compiles to one entry with no verb, the given handler and the
    expression of that source. *)
Theorem path_pattern_source (RegExp : string -> string -> bool)
    (segs : list segment) (handler : Modelizer) :
  well_formed segs = true -> nospace (path_of segs) = true ->
  no_hash_prefix (path_of segs) = true ->
  route_source (str (path_of segs)) = "^" +:+ str (source_of segs) +:+ "$"
  /\ parseParsers_with RegExp [(str (path_of segs), handler)]
     = [{| uri := RegExp ("^" +:+ str (source_of segs) +:+ "$");
           callback := handler;
           type := JNull |}].
Proof.
  intros Hwf Hspace Hhash. split; [apply route_source_segments; exact Hwf|].
  unfold parseParsers_with, parseParsers. cbn [map fst snd].
  rewrite parser_key_plain by assumption. cbn [fst snd].
  rewrite route_source_segments by exact Hwf. reflexivity.
Qed.

Lemma path_pattern_source_witness :
  let RegExp := fun source u => String.eqb source u in
  let handler := fun (payload _ : jsval) => Value payload in
  route_source "a.b/:id/*rest" = "^a\.b/([^/]+)/(.*?)$"
  /\ parseParsers_with RegExp [("a.b/:id/*rest", handler)]
     = [{| uri := RegExp "^a\.b/([^/]+)/(.*?)$"; callback := handler; type := JNull |}].
Proof.
  apply (path_pattern_source (fun source u => String.eqb source u)
           [SegChar "a"; SegChar "."; SegChar "b"; SegChar "/";
            SegParam (chars "id"); SegChar "/"; SegSplat (chars "rest")]
           (fun payload _ => Value payload)); reflexivity.
Defined.

(** X30. A parenthesised part of a path becomes an optional group that does
    not capture: around the sources of what stands before, inside and after
    it, the pattern has [(?:] and [)?], whether the part starts with a
    parameter or with plain text, as long as it holds no line terminator. *)
Theorem optional_group_source (before inner after : list segment) :
  well_formed before = true -> well_formed inner = true ->
  well_formed after = true -> single_line inner = true ->
  route_source (str (path_of before ++ lparen :: path_of inner ++ rparen :: path_of after))
  = "^" +:+ str (source_of before ++ chars "(?:" ++ source_of inner ++ chars ")?"
                 ++ source_of after)
    +:+ "$".
Proof.
  intros Hb Hi Ha Hline. unfold route_source. rewrite chars_str.
  change (lparen :: path_of inner ++ rparen :: path_of after)%list
    with ([lparen] ++ path_of inner ++ [rparen] ++ path_of after)%list.
  rewrite !escape_pass_app, !escape_pass_path by assumption.
  change (escape_pass [lparen]) with [lparen].
  change (escape_pass [rparen]) with [rparen].
  rewrite optional_pass_plain by (apply after_escape_lparen_free; exact Hb).
  change ([lparen] ++ concat (map after_escape inner) ++ [rparen]
          ++ concat (map after_escape after))%list
    with (lparen :: concat (map after_escape inner)
          ++ rparen :: concat (map after_escape after))%list.
  rewrite optional_pass_group by (apply after_escape_closes; assumption).
  rewrite <- (app_nil_r (concat (map after_escape after))).
  rewrite optional_pass_plain by (apply after_escape_lparen_free; exact Ha).
  cbn [optional_pass].
  rewrite named_pass_segments by (exact Hb || reflexivity).
  rewrite named_pass_group.
  rewrite named_pass_segments by (exact Hi || reflexivity).
  change (chars ")?" ++ concat (map after_escape after) ++ [])%list
    with (rparen :: question :: concat (map after_escape after) ++ [])%list.
  rewrite !named_pass_other by reflexivity.
  rewrite named_pass_segments by (exact Ha || reflexivity).
  cbn [named_pass].
  rewrite splat_pass_segments by (exact Hb || reflexivity).
  change (chars "(?:" ++ concat (map after_named inner)
          ++ rparen :: question :: concat (map after_named after) ++ [])%list
    with (lparen :: question :: colon :: concat (map after_named inner)
          ++ rparen :: question :: concat (map after_named after) ++ [])%list.
  rewrite !splat_pass_other by reflexivity.
  rewrite splat_pass_segments by (exact Hi || reflexivity).
  rewrite !splat_pass_other by reflexivity.
  rewrite splat_pass_segments by (exact Ha || reflexivity).
  cbn [splat_pass]. rewrite app_nil_r. reflexivity.
Qed.

Lemma optional_group_source_witness :
  route_source "docs(/:id)/x" = "^docs(?:/([^/]+))?/x$".
Proof.
  apply (optional_group_source
           [SegChar "d"; SegChar "o"; SegChar "c"; SegChar "s"]
           [SegChar "/"; SegParam (chars "id")]
           [SegChar "/"; SegChar "x"]); reflexivity.
Defined.
